(** * libosmium: relation collector and string matcher

    A shallow embedding of

    - [include/osmium/util/string_matcher.hpp]  (module [StringMatcher])
    - [include/osmium/relations/collector.hpp]  (module [Relations])

    together with the properties of the design specification that
    concern them. *)

From Stdlib Require Import List ZArith Lia Bool Arith PeanoNat.
From Stdlib Require Import Ascii String.
From Stdlib Require Import Permutation Sorted.
Import ListNotations.

Set Implicit Arguments.

(* ================================================================== *)
(** * Part I: [osmium::StringMatcher]                                  *)
(* ================================================================== *)

Module StringMatcher.

Local Open Scope string_scope.

(** ** C strings

    A [std::string] is a sequence of arbitrary bytes; it is modelled by
    [string].  A [const char*] points at bytes that are read up to the
    first NUL; [c_str] hands out the bytes of a [std::string] followed
    by a terminator, so the C functions below see the bytes before the
    first NUL only. *)

Definition NUL : ascii := Ascii.zero.

(** What a C function reads through a [const char*]: the bytes before
    the first NUL. *)
Fixpoint cstr (p : string) : string :=
  match p with
  | EmptyString => EmptyString
  | String c p' => if Ascii.eqb c NUL then EmptyString else String c (cstr p')
  end.

(** [std::string::c_str()]: a pointer to the stored bytes (a terminator
    follows them). *)
Definition c_str (s : string) : string := s.

(** [std::string] built from a [const char*]: copies up to the first NUL. *)
Definition string_of_cstr (p : string) : string := cstr p.

Definition uchar (c : ascii) : Z := Z.of_nat (nat_of_ascii c).

(** [std::strcmp]: difference of the first two bytes (as unsigned char)
    that differ, the terminator included; 0 when none does. *)
Fixpoint strcmp_bytes (a b : string) : Z :=
  match a, b with
  | EmptyString, EmptyString => 0
  | EmptyString, String d _ => (0 - uchar d)%Z
  | String c _, EmptyString => uchar c
  | String c a', String d b' =>
      if Ascii.eqb c d then strcmp_bytes a' b' else (uchar c - uchar d)%Z
  end.

Definition strcmp (p q : string) : Z := strcmp_bytes (cstr p) (cstr q).

(** [std::string::substr(pos = 0, count)]. *)
Fixpoint take (n : nat) (s : string) : string :=
  match n, s with
  | O, _ => EmptyString
  | S _, EmptyString => EmptyString
  | S n', String c s' => String c (take n' s')
  end.

(** [traits::compare] followed by the comparison of the lengths, as
    [std::string::compare] does; all bytes count, NUL included. *)
Fixpoint compare_bytes (a b : string) : Z :=
  match a, b with
  | EmptyString, EmptyString => 0
  | EmptyString, String _ _ => (-1)
  | String _ _, EmptyString => 1
  | String c a', String d b' =>
      if Ascii.eqb c d then compare_bytes a' b' else (uchar c - uchar d)%Z
  end.

(** [s.compare(pos1, count1, str, pos2, count2)] at [pos1 = pos2 = 0]
    and [count1 = npos]: compares [s] with [str.substr(0, count2)]. *)
Definition compare_0_npos (s str : string) (count2 : nat) : Z :=
  compare_bytes s (take count2 str).

Fixpoint starts_with (needle hay : string) : bool :=
  match needle, hay with
  | EmptyString, _ => true
  | String _ _, EmptyString => false
  | String c n', String d h' => Ascii.eqb c d && starts_with n' h'
  end.

Fixpoint strstr_bytes (hay needle : string) : option nat :=
  if starts_with needle hay then Some O
  else match hay with
       | EmptyString => None
       | String _ hay' => option_map S (strstr_bytes hay' needle)
       end.

(** [std::strstr]: position of the first occurrence of the C string
    [needle] in the C string [hay], or a null pointer. *)
Definition strstr (hay needle : string) : option nat :=
  strstr_bytes (cstr hay) (cstr needle).

(** Conversion of a pointer to [bool]. *)
Definition bool_of_ptr (p : option nat) : bool :=
  match p with Some _ => true | None => false end.

(** ** The matcher classes *)

(** [matcher_type] is the variant of a build without
    [OSMIUM_WITH_REGEX], which is the default (the header leaves the
    macro undefined): [always_false], [always_true], [equal], [prefix],
    [substring] and [list].  With [OSMIUM_WITH_REGEX] the variant has
    one more alternative, [regex], which holds a [std::regex]; its
    [match] is [std::regex_search], which is not modelled, and the
    theorems about matching are about the six classes below.  What
    [regex] prints is modelled further down
    ([matcher_type_with_regex]). *)
Inductive matcher_type : Type :=
| always_false
| always_true
| equal (m_str : string)
| prefix (m_str : string)
| substring (m_str : string)
| list (m_strings : List.list string).

Definition always_false_match (test_string : string) : bool := false.

Definition always_true_match (test_string : string) : bool := true.

Definition equal_match (m_str test_string : string) : bool :=
  Z.eqb (strcmp (c_str m_str) test_string) 0.

Definition prefix_match (m_str test_string : string) : bool :=
  Z.eqb (compare_0_npos m_str (string_of_cstr test_string) (String.length m_str)) 0.

Definition substring_match (m_str test_string : string) : bool :=
  bool_of_ptr (strstr test_string (c_str m_str)).

Fixpoint list_match (m_strings : List.list string) (test_string : string) : bool :=
  match m_strings with
  | [] => false
  | s :: rest =>
      if Z.eqb (strcmp (c_str s) test_string) 0 then true
      else list_match rest test_string
  end.

(** [match_visitor] applied through [boost::apply_visitor]. *)
Definition matcher_match (m : matcher_type) (str : string) : bool :=
  match m with
  | always_false => always_false_match str
  | always_true => always_true_match str
  | equal s => equal_match s str
  | prefix s => prefix_match s str
  | substring s => substring_match s str
  | list l => list_match l str
  end.

Record t : Type := mk { m_matcher : matcher_type }.

(** [StringMatcher()] *)
Definition default : t := mk always_false.

(** [StringMatcher(bool)] *)
Definition of_bool (result : bool) : t :=
  let m := mk always_false in
  if result then mk always_true else m.

(** [StringMatcher(const std::string&)] *)
Definition of_string (str : string) : t := mk (equal str).

(** [StringMatcher] built from a [const char*]: [equal{str}] copies the C string. *)
Definition of_cstr (str : string) : t := mk (equal (string_of_cstr str)).

(** [StringMatcher(const std::vector<std::string>&)] *)
Definition of_strings (strings : List.list string) : t := mk (list strings).

(** [StringMatcher(TMatcher&&)] *)
Definition of_matcher (m : matcher_type) : t := mk m.

(** [operator()] on a [const char*] *)
Definition call (m : t) (str : string) : bool := matcher_match (m_matcher m) str.

(** [operator()] on a [std::string] *)
Definition call_string (m : t) (str : string) : bool := call m (c_str str).

(** ** What the specification says a match is *)

Definition no_nul (s : string) : Prop := cstr s = s.

Definition is_prefix_of (s t : string) : Prop := exists v, t = s ++ v.

Definition is_substring_of (s t : string) : Prop := exists u v, t = u ++ s ++ v.

(** The [std::string] ["a\0b"] of three bytes. *)
Definition a_nul_b : string := String "a" (String NUL (String "b" EmptyString)).

(** ** [list::add_string] *)

(** [add_string(const std::string&)]: [m_strings.push_back(str)]. *)
Definition add_string (m_strings : List.list string) (str : string) : List.list string :=
  m_strings ++ [str].

(** [add_string] on a [const char*]: [push_back] builds the
    [std::string] from the C string. *)
Definition add_string_cstr (m_strings : List.list string) (str : string)
  : List.list string :=
  m_strings ++ [string_of_cstr str].

(** ** Printing

    A [std::ostream] is modelled by the bytes written to it so far: it
    is a stream in which every write succeeds and no field width is
    set; the error state and the formatting flags of a stream are not
    modelled.  A string literal and a [char] are written as they are, a
    [std::string] with all its bytes. *)

Definition always_false_print (out : string) : string :=
  (out ++ "always_false")%string.

Definition always_true_print (out : string) : string :=
  (out ++ "always_true")%string.

Definition equal_print (m_str out : string) : string :=
  (((out ++ "equal[") ++ m_str) ++ "]")%string.

Definition prefix_print (m_str out : string) : string :=
  (((out ++ "prefix[") ++ m_str) ++ "]")%string.

Definition substring_print (m_str out : string) : string :=
  (((out ++ "substring[") ++ m_str) ++ "]")%string.

Definition list_print (m_strings : List.list string) (out : string) : string :=
  (fold_left (fun o s => ((o ++ "[") ++ s) ++ "]") m_strings (out ++ "list[") ++ "]")%string.

(** [print_visitor] applied through [boost::apply_visitor]. *)
Definition matcher_print (m : matcher_type) (out : string) : string :=
  match m with
  | always_false => always_false_print out
  | always_true => always_true_print out
  | equal s => equal_print s out
  | prefix s => prefix_print s out
  | substring s => substring_print s out
  | list l => list_print l out
  end.

(** [StringMatcher::print(out)] *)
Definition print (m : t) (out : string) : string := matcher_print (m_matcher m) out.

(** [operator<<(out, matcher)] *)
Definition shift_left (out : string) (matcher : t) : string := print matcher out.

(** What [list::print] writes between ["list["] and ["]"]. *)
Fixpoint bracketed (l : List.list string) : string :=
  match l with
  | [] => EmptyString
  | s :: rest => ("[" ++ s ++ "]" ++ bracketed rest)%string
  end.

(** ** Printing with [OSMIUM_WITH_REGEX]

    The variant of such a build: one of the six classes above, or
    [regex] with its [std::regex], for which [R] stands.  [regex::print]
    writes the same five letters whatever the expression is. *)
Inductive matcher_type_with_regex (R : Type) : Type :=
| without_regex (m : matcher_type)
| regex (m_regex : R).

Arguments without_regex {R} m.
Arguments regex {R} m_regex.

Definition regex_print (out : string) : string := (out ++ "regex")%string.

(** [print_visitor] on the variant with [regex]. *)
Definition matcher_print_with_regex {R : Type} (m : matcher_type_with_regex R)
           (out : string) : string :=
  match m with
  | without_regex m' => matcher_print m' out
  | regex _ => regex_print out
  end.

End StringMatcher.

(* ================================================================== *)
(** * Part II: [osmium::relations::Collector]                          *)
(* ================================================================== *)

(** Conventions of the model.  [size_t] values (offsets, positions) are
    [nat], object ids are [Z], and the C++ [int] counters are [Z]
    without wrap-around.  The [assert]s of the source are not modelled
    (they are compiled out with [NDEBUG]).  Where the C++ code would
    read behind the end of a vector or at an offset at which no object
    begins, which is undefined behaviour, the model does nothing for
    that element; the comments say where. *)

Module Relations.

Local Open Scope nat_scope.
Local Open Scope list_scope.
Local Abbreviation length := List.length.

(** ** OSM objects *)

(** [osmium::item_type], restricted to the three kinds an object or a
    relation member can have: [node = 1], [way = 2], [relation = 3]. *)
Inductive item_type : Type := node | way | relation.

Definition item_type_value (t : item_type) : nat :=
  match t with node => 1 | way => 2 | relation => 3 end.

Definition item_type_eqb (a b : item_type) : bool :=
  item_type_value a =? item_type_value b.

(** [osmium::RelationMember]: type, ref and role. *)
Record RelationMember : Type := mkMember {
  member_type : item_type;
  member_ref : Z;
  member_role : string
}.

(** [osmium::OSMObject] as it lies in a buffer: the item header gives
    the padded size in bytes and the removed flag; the object has a
    type, an id, a member list (empty unless it is a relation) and the
    rest of its bytes (tags, node references, ...). *)
Record OSMObject : Type := mkObject {
  obj_type : item_type;
  obj_id : Z;
  obj_members : list RelationMember;
  obj_data : list Z;
  obj_padded_size : nat;
  obj_removed : bool
}.

Definition set_removed (o : OSMObject) (r : bool) : OSMObject :=
  mkObject (obj_type o) (obj_id o) (obj_members o) (obj_data o)
           (obj_padded_size o) r.

Fixpoint zero_ref_at (ms : list RelationMember) (n : nat) : list RelationMember :=
  match ms, n with
  | [], _ => []
  | m :: rest, O => mkMember (member_type m) 0%Z (member_role m) :: rest
  | m :: rest, S n' => m :: zero_ref_at rest n'
  end.

(** [member.ref(0)] on the [n]-th member of the object. *)
Definition set_member_ref_zero (o : OSMObject) (n : nat) : OSMObject :=
  mkObject (obj_type o) (obj_id o) (zero_ref_at (obj_members o) n)
           (obj_data o) (obj_padded_size o) (obj_removed o).

(** ** The arena buffer *)

(** Modelled from the spec: [osmium::memory::Buffer]
    (include/osmium/memory/buffer.hpp is not among the sources).  The
    arena is append-only; an object is addressed by the offset at which
    it begins, that is the sum of the padded sizes of the objects in
    front of it; the last append can be committed or rolled back. *)
Record Buffer : Type := mkBuffer {
  b_items : list OSMObject;       (* everything written, in order *)
  b_ncommitted : nat              (* how many of them are committed *)
}.

Definition empty_buffer : Buffer := mkBuffer [] 0.

Fixpoint bytes (items : list OSMObject) : nat :=
  match items with
  | [] => 0
  | o :: rest => obj_padded_size o + bytes rest
  end.

Definition committed (b : Buffer) : nat :=
  bytes (firstn (b_ncommitted b) (b_items b)).

Definition written (b : Buffer) : nat := bytes (b_items b).

Definition committed_items (b : Buffer) : list OSMObject :=
  firstn (b_ncommitted b) (b_items b).

Fixpoint get_at (items : list OSMObject) (offset : nat) : option OSMObject :=
  match items with
  | [] => None
  | o :: rest =>
      if offset =? 0 then Some o
      else if offset <? obj_padded_size o then None
      else get_at rest (offset - obj_padded_size o)
  end.

Fixpoint update_at (items : list OSMObject) (offset : nat)
         (f : OSMObject -> OSMObject) : list OSMObject :=
  match items with
  | [] => []
  | o :: rest =>
      if offset =? 0 then f o :: rest
      else if offset <? obj_padded_size o then o :: rest
      else o :: update_at rest (offset - obj_padded_size o) f
  end.

(** [get<T>(offset)]; [None] where no object begins at [offset]. *)
Definition buffer_get (b : Buffer) (offset : nat) : option OSMObject :=
  get_at (b_items b) offset.

Definition buffer_update (b : Buffer) (offset : nat)
           (f : OSMObject -> OSMObject) : Buffer :=
  mkBuffer (update_at (b_items b) offset f) (b_ncommitted b).

(** [add_item]: appends a copy, not yet committed. *)
Definition add_item (b : Buffer) (o : OSMObject) : Buffer :=
  mkBuffer (b_items b ++ [o]) (b_ncommitted b).

(** [commit]: returns the offset that was committed before. *)
Definition commit (b : Buffer) : nat * Buffer :=
  (committed b, mkBuffer (b_items b) (length (b_items b))).

Definition rollback (b : Buffer) : Buffer :=
  mkBuffer (firstn (b_ncommitted b) (b_items b)) (b_ncommitted b).

(** ** RelationMeta and MemberMeta *)

(** Modelled from the spec: [RelationMeta]
    (include/osmium/relations/detail/relation_meta.hpp is not among the
    sources): the offset of the relation in the relations arena and the
    count of members still outstanding.  [need_members] is a C++ [int];
    the model does not wrap. *)
Record RelationMeta : Type := mkRelationMeta {
  relation_offset : nat;
  need_members : Z
}.

(** [RelationMeta()], used to zero out a completed relation. *)
Definition RelationMeta_empty : RelationMeta := mkRelationMeta 0 0.

(** [RelationMeta(offset)]. *)
Definition RelationMeta_at (offset : nat) : RelationMeta := mkRelationMeta offset 0.

Definition increment_need_members (rm : RelationMeta) : RelationMeta :=
  mkRelationMeta (relation_offset rm) (need_members rm + 1).

Definition got_one_member (rm : RelationMeta) : RelationMeta :=
  mkRelationMeta (relation_offset rm) (need_members rm - 1).

Definition has_all_members (rm : RelationMeta) : bool :=
  (need_members rm =? 0)%Z.

(** Modelled from the spec: [MemberMeta]
    (include/osmium/relations/detail/member_meta.hpp is not among the
    sources).  [buffer_offset] is [None] as long as the member has not
    been seen (the sentinel of the spec). *)
Record MemberMeta : Type := mkMemberMeta {
  member_id : Z;
  relation_pos : nat;
  member_pos : nat;
  buffer_offset : option nat;
  removed : bool
}.

(** [MemberMeta(member_id, relation_pos, member_pos)]. *)
Definition MemberMeta_new (id : Z) (rpos mpos : nat) : MemberMeta :=
  mkMemberMeta id rpos mpos None false.

Definition set_buffer_offset (m : MemberMeta) (offset : nat) : MemberMeta :=
  mkMemberMeta (member_id m) (relation_pos m) (member_pos m) (Some offset) (removed m).

Definition remove (m : MemberMeta) : MemberMeta :=
  mkMemberMeta (member_id m) (relation_pos m) (member_pos m) (buffer_offset m) true.

(** [operator<] on MemberMeta compares the member ids. *)
Definition mm_less (a b : MemberMeta) : bool := (member_id a <? member_id b)%Z.

(** ** Events

    The hooks of the derived class ([complete_relation],
    [*_not_in_any_relation], [flush]) and the compaction request to the
    members arena are observed through a log.  A completion is logged
    with the kind and the position of the MemberMeta that triggered it,
    the index of the relation in [m_relations] and the RelationMeta that
    is handed to the hook. *)
Inductive Event : Type :=
| ev_complete_relation (kind : item_type) (mm_index : nat)
                       (rel_pos : nat) (rm : RelationMeta)
| ev_not_in_any_relation (o : OSMObject)
| ev_purge_removed
| ev_flush.

(** ** The collector *)

Record Collector : Type := mkCollector {
  m_relations_buffer : Buffer;
  m_members_buffer : Buffer;
  m_relations : list RelationMeta;
  m_member_meta_nodes : list MemberMeta;       (* m_member_meta[0] *)
  m_member_meta_ways : list MemberMeta;        (* m_member_meta[1] *)
  m_member_meta_relations : list MemberMeta;   (* m_member_meta[2] *)
  m_count_complete : Z;
  m_log : list Event                           (* newest first *)
}.

(** [Collector()] *)
Definition Collector_new : Collector :=
  mkCollector empty_buffer empty_buffer [] [] [] [] 0 [].

(** The log in the order in which the events happened. *)
Definition events (c : Collector) : list Event := rev (m_log c).

(** [member_meta(type)]: [m_member_meta[type - 1]]. *)
Definition member_meta (c : Collector) (t : item_type) : list MemberMeta :=
  match t with
  | node => m_member_meta_nodes c
  | way => m_member_meta_ways c
  | relation => m_member_meta_relations c
  end.

Definition set_member_meta (c : Collector) (t : item_type)
           (v : list MemberMeta) : Collector :=
  match t with
  | node => mkCollector (m_relations_buffer c) (m_members_buffer c) (m_relations c)
              v (m_member_meta_ways c) (m_member_meta_relations c)
              (m_count_complete c) (m_log c)
  | way => mkCollector (m_relations_buffer c) (m_members_buffer c) (m_relations c)
              (m_member_meta_nodes c) v (m_member_meta_relations c)
              (m_count_complete c) (m_log c)
  | relation => mkCollector (m_relations_buffer c) (m_members_buffer c) (m_relations c)
              (m_member_meta_nodes c) (m_member_meta_ways c) v
              (m_count_complete c) (m_log c)
  end.

Definition set_relations_buffer (c : Collector) (b : Buffer) : Collector :=
  mkCollector b (m_members_buffer c) (m_relations c)
    (m_member_meta_nodes c) (m_member_meta_ways c) (m_member_meta_relations c)
    (m_count_complete c) (m_log c).

Definition set_members_buffer (c : Collector) (b : Buffer) : Collector :=
  mkCollector (m_relations_buffer c) b (m_relations c)
    (m_member_meta_nodes c) (m_member_meta_ways c) (m_member_meta_relations c)
    (m_count_complete c) (m_log c).

Definition set_relations (c : Collector) (v : list RelationMeta) : Collector :=
  mkCollector (m_relations_buffer c) (m_members_buffer c) v
    (m_member_meta_nodes c) (m_member_meta_ways c) (m_member_meta_relations c)
    (m_count_complete c) (m_log c).

Definition set_count_complete (c : Collector) (n : Z) : Collector :=
  mkCollector (m_relations_buffer c) (m_members_buffer c) (m_relations c)
    (m_member_meta_nodes c) (m_member_meta_ways c) (m_member_meta_relations c)
    n (m_log c).

Definition log_event (c : Collector) (e : Event) : Collector :=
  mkCollector (m_relations_buffer c) (m_members_buffer c) (m_relations c)
    (m_member_meta_nodes c) (m_member_meta_ways c) (m_member_meta_relations c)
    (m_count_complete c) (e :: m_log c).

(** Assignment through an index or an iterator: [v[i] = f(v[i])]; out of
    range nothing is written. *)
Fixpoint update_nth {A : Type} (v : list A) (i : nat) (f : A -> A) : list A :=
  match v, i with
  | [], _ => []
  | x :: rest, O => f x :: rest
  | x :: rest, S i' => x :: update_nth rest i' f
  end.

(** Applies [f] to the elements at the positions [lo, lo+1, ..., hi-1]. *)
Fixpoint update_range {A : Type} (v : list A) (lo hi : nat) (f : A -> A) : list A :=
  match v with
  | [] => []
  | x :: rest =>
      match lo, hi with
      | _, O => x :: rest
      | O, S hi' => f x :: update_range rest 0 hi' f
      | S lo', S hi' => x :: update_range rest lo' hi' f
      end
  end.

(** ** [std::equal_range] on a MemberMeta vector

    For a vector that is partitioned with respect to the id, as it is
    after [sort_member_meta], [std::lower_bound] is the number of
    leading elements that are less than the value and [std::upper_bound]
    the number of leading elements that the value is not less than. *)
Fixpoint count_while {A : Type} (p : A -> bool) (v : list A) : nat :=
  match v with
  | [] => 0
  | x :: rest => if p x then S (count_while p rest) else 0
  end.

Definition lower_bound (v : list MemberMeta) (id : Z) : nat :=
  count_while (fun m => (member_id m <? id)%Z) v.

Definition upper_bound (v : list MemberMeta) (id : Z) : nat :=
  count_while (fun m => negb (id <? member_id m)%Z) v.

Definition equal_range (v : list MemberMeta) (id : Z) : nat * nat :=
  (lower_bound v id, upper_bound v id).

(** [find_member_meta(type, id)]: the range as a pair of positions in
    [member_meta(type)]. *)
Definition find_member_meta (c : Collector) (t : item_type) (id : Z) : nat * nat :=
  equal_range (member_meta c t) id.

(** The elements of a range. *)
Definition range_elems (v : list MemberMeta) (r : nat * nat) : list MemberMeta :=
  firstn (snd r - fst r) (skipn (fst r) v).

(** [count_not_removed(range)] *)
Definition count_not_removed (v : list MemberMeta) (r : nat * nat) : nat :=
  List.length (filter (fun mm => negb (removed mm)) (range_elems v r)).

(** ** Access to the stored objects *)

(** [get_relation(size_t offset)] *)
Definition get_relation (c : Collector) (offset : nat) : option OSMObject :=
  buffer_get (m_relations_buffer c) offset.

(** [get_relation(const RelationMeta&)] *)
Definition get_relation_of_meta (c : Collector) (rm : RelationMeta) : option OSMObject :=
  get_relation c (relation_offset rm).

(** [get_relation(const MemberMeta&)]: through
    [m_relations[member_meta.relation_pos()]]. *)
Definition get_relation_of_member (c : Collector) (mm : MemberMeta) : option OSMObject :=
  match nth_error (m_relations c) (relation_pos mm) with
  | Some rm => get_relation_of_meta c rm
  | None => None
  end.

(** [get_member(size_t offset)] *)
Definition get_member (c : Collector) (offset : nat) : option OSMObject :=
  buffer_get (m_members_buffer c) offset.

(** [get_offset(type, id)]: [range.begin()->buffer_offset()]. *)
Definition get_offset (c : Collector) (t : item_type) (id : Z) : option nat :=
  let range := find_member_meta c t id in
  match nth_error (member_meta c t) (fst range) with
  | Some first => buffer_offset first
  | None => None
  end.

(** [get_incomplete_relations()]: the pointers are the offsets of the
    relations in the relations arena. *)
Definition get_incomplete_relations (c : Collector) : list nat :=
  map relation_offset (filter (fun rm => negb (has_all_members rm)) (m_relations c)).

(** ** Compaction of the members arena *)

(** [moving_in_buffer(old_offset, new_offset)] *)
Definition moving_in_buffer (c : Collector) (old_offset new_offset : nat) : Collector :=
  match buffer_get (m_members_buffer c) old_offset with
  | None => c
  | Some object =>
      let t := obj_type object in
      let range := find_member_meta c t (obj_id object) in
      set_member_meta c t
        (update_range (member_meta c t) (fst range) (snd range)
                      (fun member_meta => set_buffer_offset member_meta new_offset))
  end.

(** Modelled from the spec: [Buffer::purge_removed(listener)]
    (include/osmium/memory/buffer.hpp is not among the sources):
    compacts away the objects flagged removed, keeps the order of the
    survivors, and calls [moving_in_buffer(old, new)] for each survivor
    that moves, before its bytes are moved.  [read] and [write] are the
    offsets of the read and of the write position. *)
Fixpoint purge_loop (items : list OSMObject) (read write : nat) (c : Collector)
  : list OSMObject * Collector :=
  match items with
  | [] => ([], c)
  | o :: rest =>
      if obj_removed o then purge_loop rest (read + obj_padded_size o) write c
      else
        let c' := if read =? write then c else moving_in_buffer c read write in
        let (kept, c'') := purge_loop rest (read + obj_padded_size o)
                                      (write + obj_padded_size o) c' in
        (o :: kept, c'')
  end.

Definition purge_removed (c : Collector) : Collector :=
  let (kept, c') := purge_loop (committed_items (m_members_buffer c)) 0 0 c in
  set_members_buffer c' (mkBuffer kept (List.length kept)).

(** [possibly_purge_removed_members()] *)
Definition possibly_purge_removed_members (c : Collector) : Collector :=
  let c1 := set_count_complete c (m_count_complete c + 1) in
  if (m_count_complete c1 >? 10000)%Z then
    let c2 := purge_removed (log_event c1 ev_purge_removed) in
    set_count_complete c2 0
  else c1.

(** ** Second pass: [clear_member_metas] and [find_and_add_object] *)

Definition same_id (rel : OSMObject) (other : option OSMObject) : bool :=
  match other with
  | Some r => (obj_id rel =? obj_id r)%Z
  | None => false
  end.

Fixpoint first_match {A : Type} (p : A -> bool) (v : list A) : option nat :=
  match v with
  | [] => None
  | x :: rest => if p x then Some 0 else option_map S (first_match p rest)
  end.

(** The body of the loop of [clear_member_metas] for one member of the
    completed relation. *)
Definition clear_member (c : Collector) (rel : OSMObject) (member : RelationMember)
  : Collector :=
  if (member_ref member =? 0)%Z then c
  else
    let t := member_type member in
    let range := find_member_meta c t (member_ref member) in
    let c1 :=
      if count_not_removed (member_meta c t) range =? 1 then
        match nth_error (member_meta c t) (fst range) with
        | Some first =>
            match buffer_offset first with
            | Some off =>
                set_members_buffer c
                  (buffer_update (m_members_buffer c) off (fun o => set_removed o true))
            | None => c
            end
        | None => c
        end
      else c in
    match first_match
            (fun mm => negb (removed mm) && same_id rel (get_relation_of_member c1 mm))
            (range_elems (member_meta c1 t) range) with
    | Some j => set_member_meta c1 t (update_nth (member_meta c1 t) (fst range + j) remove)
    | None => c1
    end.

(** [clear_member_metas(relation_meta)] *)
Definition clear_member_metas (c : Collector) (relation_meta : RelationMeta) : Collector :=
  match get_relation_of_meta c relation_meta with
  | Some rel => fold_left (fun c' member => clear_member c' rel member) (obj_members rel) c
  | None => c
  end.

(** The second loop of [find_and_add_object]: [n] elements of the range
    are left, the next one is at position [i] of [member_meta(t)].  A
    [relation_pos] outside of [m_relations] (excluded by the assertion
    of the source) lets the loop go on with the next record. *)
Fixpoint add_loop (n : nat) (t : item_type) (i : nat) (c : Collector) : Collector :=
  match n with
  | O => c
  | S n' =>
      match nth_error (member_meta c t) i with
      | None => c
      | Some mm =>
          if removed mm then c (* break *)
          else
            match nth_error (m_relations c) (relation_pos mm) with
            | None => add_loop n' t (S i) c
            | Some rm0 =>
                let relation_meta := got_one_member rm0 in
                let c1 := set_relations c
                            (update_nth (m_relations c) (relation_pos mm)
                                        (fun _ => relation_meta)) in
                let c2 :=
                  if has_all_members relation_meta then
                    let relation_offset := relation_pos mm in
                    let c3 := log_event c1
                                (ev_complete_relation t i relation_offset relation_meta) in
                    let c4 := clear_member_metas c3 relation_meta in
                    let c5 := set_relations c4
                                (update_nth (m_relations c4) relation_offset
                                            (fun _ => RelationMeta_empty)) in
                    possibly_purge_removed_members c5
                  else c1 in
                add_loop n' t (S i) c2
            end
      end
  end.

(** [find_and_add_object(object)] *)
Definition find_and_add_object (c : Collector) (object : OSMObject) : bool * Collector :=
  let t := obj_type object in
  let range := find_member_meta c t (obj_id object) in
  if count_not_removed (member_meta c t) range =? 0 then (false, c)
  else
    let (member_offset, buf) := commit (add_item (m_members_buffer c) object) in
    let c1 := set_members_buffer c buf in
    let c2 := set_member_meta c1 t
                (update_range (member_meta c1 t) (fst range) (snd range)
                              (fun member_meta => set_buffer_offset member_meta member_offset)) in
    (true, add_loop (snd range - fst range) t (fst range) c2).

(** ** The hooks of the derived class and the template arguments *)

Class Hooks : Type := mkHooks {
  TNodes : bool;
  TWays : bool;
  TRelations : bool;
  keep_relation : OSMObject -> bool;
  keep_member : RelationMeta -> RelationMember -> bool
}.

(** The hooks as [Collector] defines them: everything is kept. *)
Definition default_hooks (nodes ways relations : bool) : Hooks :=
  mkHooks nodes ways relations (fun _ => true) (fun _ _ => true).

(** ** First pass: [add_relation], [sort_member_meta], [read_relations] *)

(** [std::sort] with [operator<]: modelled by insertion sort, which
    keeps the order of elements with the same id. *)
Fixpoint insert_sorted (x : MemberMeta) (v : list MemberMeta) : list MemberMeta :=
  match v with
  | [] => [x]
  | y :: rest => if mm_less y x then y :: insert_sorted x rest else x :: y :: rest
  end.

Fixpoint std_sort (v : list MemberMeta) : list MemberMeta :=
  match v with
  | [] => []
  | x :: rest => insert_sorted x (std_sort rest)
  end.

(** [sort_member_meta()] *)
Definition sort_member_meta (c : Collector) : Collector :=
  let c0 := set_member_meta c node (std_sort (member_meta c node)) in
  let c1 := set_member_meta c0 way (std_sort (member_meta c0 way)) in
  set_member_meta c1 relation (std_sort (member_meta c1 relation)).

Section WithHooks.

Context {hooks : Hooks}.

(** The loop of [add_relation] over the members of the arena copy that
    begins at [offset]; [n] is the position of the member. *)
Fixpoint add_members (ms : list RelationMember) (n : nat) (offset : nat)
         (st : Collector * RelationMeta) : Collector * RelationMeta :=
  match ms with
  | [] => st
  | member :: rest =>
      let (c, relation_meta) := st in
      let st' :=
        if keep_member relation_meta member then
          (set_member_meta c (member_type member)
             (member_meta c (member_type member) ++
                [MemberMeta_new (member_ref member) (List.length (m_relations c)) n]),
           increment_need_members relation_meta)
        else
          (set_relations_buffer c
             (buffer_update (m_relations_buffer c) offset
                            (fun o => set_member_ref_zero o n)),
           relation_meta) in
      add_members rest (S n) offset st'
  end.

(** [add_relation(relation)] *)
Definition add_relation (c : Collector) (rel : OSMObject) : Collector :=
  let offset := committed (m_relations_buffer c) in
  let c0 := set_relations_buffer c (add_item (m_relations_buffer c) rel) in
  let relation_meta := RelationMeta_at offset in
  let ms := match buffer_get (m_relations_buffer c0) offset with
            | Some r => obj_members r
            | None => []
            end in
  let (c1, relation_meta') := add_members ms 0 offset (c0, relation_meta) in
  if has_all_members relation_meta' then
    set_relations_buffer c1 (rollback (m_relations_buffer c1))
  else
    let c2 := set_relations_buffer c1 (snd (commit (m_relations_buffer c1))) in
    set_relations c2 (m_relations c2 ++ [relation_meta']).

(** [HandlerPass1]: only relations are looked at. *)
Definition handler_pass1 (c : Collector) (o : OSMObject) : Collector :=
  match obj_type o with
  | relation => if keep_relation o then add_relation c o else c
  | _ => c
  end.

(** [read_relations(begin, end)] *)
Definition read_relations (c : Collector) (input : list OSMObject) : Collector :=
  sort_member_meta (fold_left handler_pass1 input c).

(** ** Second pass: [HandlerPass2] *)

Definition interested_in (t : item_type) : bool :=
  match t with
  | node => TNodes
  | way => TWays
  | relation => TRelations
  end.

(** [HandlerPass2::node], [::way] and [::relation]. *)
Definition handler_pass2 (c : Collector) (o : OSMObject) : Collector :=
  if interested_in (obj_type o) then
    let (found, c') := find_and_add_object c o in
    if found then c' else log_event c' (ev_not_in_any_relation o)
  else c.

(** [HandlerPass2::flush], which calls the hook [flush]. *)
Definition flush (c : Collector) : Collector := log_event c ev_flush.

(** [osmium::apply(input, collector.handler())] *)
Definition apply_pass2 (c : Collector) (input : list OSMObject) : Collector :=
  flush (fold_left handler_pass2 input c).

(** Both passes over the same input. *)
Definition run (input : list OSMObject) : Collector :=
  apply_pass2 (read_relations Collector_new input) input.

End WithHooks.

(** ** Observations on the log *)

Definition is_purge (e : Event) : bool :=
  match e with ev_purge_removed => true | _ => false end.

(** How many times the members arena was asked to compact. *)
Definition purge_count (c : Collector) : nat :=
  List.length (filter is_purge (events c)).

(** [n] completions in a row, as far as the counter is concerned. *)
Definition completions (n : nat) (c : Collector) : Collector :=
  Nat.iter n possibly_purge_removed_members c.

Definition is_complete (e : Event) : bool :=
  match e with ev_complete_relation _ _ _ _ => true | _ => false end.

(** The [m_relations] indices for which [complete_relation] was called,
    in the order of the calls. *)
Fixpoint completed_positions (l : list Event) : list nat :=
  match l with
  | [] => []
  | ev_complete_relation _ _ pos _ :: rest => pos :: completed_positions rest
  | _ :: rest => completed_positions rest
  end.

(** The positions in the MemberMeta vector of the members that
    triggered the calls of [complete_relation]. *)
Fixpoint completed_mm_indices (l : list Event) : list nat :=
  match l with
  | [] => []
  | ev_complete_relation _ i _ _ :: rest => i :: completed_mm_indices rest
  | _ :: rest => completed_mm_indices rest
  end.

(** ** Well-formedness and the invariants of the specification *)

(** Between two calls nothing in an arena is uncommitted, and every
    stored object takes up room. *)
Definition buffer_wf (b : Buffer) : Prop :=
  b_ncommitted b = List.length (b_items b) /\
  Forall (fun o => 0 < obj_padded_size o) (b_items b).

Definition mm_le (a b : MemberMeta) : Prop := (member_id a <= member_id b)%Z.

(** The records of a vector are non-decreasing in [member_id]. *)
Definition non_decreasing (v : list MemberMeta) : Prop := StronglySorted mm_le v.

(** Every record of the vector refers to a valid index of [m_relations]. *)
Definition valid_relation_pos (c : Collector) (v : list MemberMeta) : Prop :=
  Forall (fun mm => relation_pos mm < List.length (m_relations c)) v.

(** While the members of a relation are looked at, the new records
    refer to the index the relation is going to get. *)
Definition pending_ok (st : Collector * RelationMeta) : Prop :=
  (0 <= need_members (snd st))%Z /\
  (forall t, Forall (fun mm => relation_pos mm <= List.length (m_relations (fst st)))
                    (member_meta (fst st) t)) /\
  (need_members (snd st) = 0%Z -> forall t, valid_relation_pos (fst st) (member_meta (fst st) t)).

(** The ids of a MemberMeta vector; the order of the vector and the
    ranges found in it depend on nothing else. *)
Definition ids (v : list MemberMeta) : list Z := map member_id v.

(** Position [i] lies in the range [r]. *)
Definition in_range (r : nat * nat) (i : nat) : Prop := fst r <= i < snd r.

(** What a compaction leaves in an arena. *)
Definition survivors (items : list OSMObject) : list OSMObject :=
  filter (fun o => negb (obj_removed o)) items.

(** The vector for kind [t] is sorted, has a record for [id], and
    [get_offset(t, id)] returns [offset]. *)
Definition tracks (c : Collector) (t : item_type) (id : Z) (offset : nat) : Prop :=
  non_decreasing (member_meta c t) /\
  (exists mm, In mm (member_meta c t) /\ member_id mm = id) /\
  get_offset c t id = Some offset.

(** ** What pass 2 does to the records

    A MemberMeta never changes its id or the relation it refers to; its
    offset, once set, stays set, and it stays removed once it is. *)
Definition mm_evolves (a b : MemberMeta) : Prop :=
  member_id b = member_id a /\
  relation_pos b = relation_pos a /\
  member_pos b = member_pos a /\
  (buffer_offset a <> None -> buffer_offset b <> None) /\
  (removed a = true -> removed b = true).

Definition evolves (c c' : Collector) : Prop :=
  forall t, Forall2 mm_evolves (member_meta c t) (member_meta c' t).

(** What [clear_member_metas] for the relation [rel] does to a record:
    nothing, or it removes a record that was not removed and whose
    relation has the id of [rel]. *)
Definition removal (c : Collector) (rel : OSMObject) (a b : MemberMeta) : Prop :=
  b = a \/
  (b = remove a /\ removed a = false /\ same_id rel (get_relation_of_member c a) = true).

(** How many of the [k] records from position [i] on refer to the
    relation at index [p]. *)
Definition count_pos (v : list MemberMeta) (i k p : nat) : nat :=
  List.length (filter (fun mm => relation_pos mm =? p) (firstn k (skipn i v))).

(** What is known about a call of [complete_relation] that was
    triggered by a record of the vector [v] for kind [t]. *)
Definition completion_ok (t : item_type) (v : list MemberMeta) (e : Event) : Prop :=
  match e with
  | ev_complete_relation t' j p rm =>
      t' = t /\ need_members rm = 0%Z /\
      exists mm, nth_error v j = Some mm /\ relation_pos mm = p
  | _ => True
  end.

(** What a compaction does to a record: nothing, or it sets the offset. *)
Definition relocated (a b : MemberMeta) : Prop :=
  b = a \/ exists off, b = set_buffer_offset a off.

(** ** The body of the loop of [find_and_add_object], in two pieces *)

(** What is done when the relation at index [pos] has got its last
    member. *)
Definition on_complete (t : item_type) (i pos : nat) (relation_meta : RelationMeta)
           (c1 : Collector) : Collector :=
  let c3 := log_event c1 (ev_complete_relation t i pos relation_meta) in
  let c4 := clear_member_metas c3 relation_meta in
  let c5 := set_relations c4 (update_nth (m_relations c4) pos (fun _ => RelationMeta_empty)) in
  possibly_purge_removed_members c5.

(** What is done for the record [mm] at position [i], not removed,
    whose relation has the RelationMeta [rm0]. *)
Definition member_found (t : item_type) (i : nat) (mm : MemberMeta) (rm0 : RelationMeta)
           (c : Collector) : Collector :=
  let relation_meta := got_one_member rm0 in
  let c1 := set_relations c (update_nth (m_relations c) (relation_pos mm)
                                        (fun _ => relation_meta)) in
  if has_all_members relation_meta
  then on_complete t i (relation_pos mm) relation_meta c1
  else c1.

(** The events of one such step. *)
Definition member_found_events (t : item_type) (i : nat) (mm : MemberMeta)
           (rm0 : RelationMeta) (c : Collector) : list Event :=
  if has_all_members (got_one_member rm0) then
    ev_complete_relation t i (relation_pos mm) (got_one_member rm0)
    :: (if (10000 <? m_count_complete c + 1)%Z then [ev_purge_removed] else [])
  else [].

(** No relation was completed twice, and a relation that was completed
    has nothing outstanding any more. *)
Definition completed_once (c : Collector) : Prop :=
  NoDup (completed_positions (events c)) /\
  forall p rm, In p (completed_positions (events c)) ->
    nth_error (m_relations c) p = Some rm -> (need_members rm <= 0)%Z.

(** What [clear_member_metas] does to a stored member: nothing, or it
    flags it as removed. *)
Definition flagged (a b : OSMObject) : Prop := b = a \/ b = set_removed a true.

(** Nothing was compacted between [c] and [c']: the offsets in the
    records are the same, and the members arena holds the same objects,
    some of them flagged as removed. *)
Definition quiet (c c' : Collector) : Prop :=
  (forall t, Forall2 (fun a b => buffer_offset b = buffer_offset a)
                     (member_meta c t) (member_meta c' t)) /\
  Forall2 flagged (b_items (m_members_buffer c)) (b_items (m_members_buffer c')) /\
  b_ncommitted (m_members_buffer c') = b_ncommitted (m_members_buffer c).

(** ** The bookkeeping of the two passes *)

(** An object is identified by its kind and its id. *)
Definition key (o : OSMObject) : item_type * Z := (obj_type o, obj_id o).

(** Whether an object of kind [t] with the given id is among the keys [A]. *)
Definition arrivedb (A : list (item_type * Z)) (t : item_type) (id : Z) : bool :=
  existsb (fun k => item_type_eqb (fst k) t && (snd k =? id)%Z) A.

(** How many records of the vector [v] for kind [t] refer to the
    relation at index [p] and to an object that is not among [A]. *)
Definition outstanding_in (A : list (item_type * Z)) (t : item_type)
           (v : list MemberMeta) (p : nat) : nat :=
  List.length (filter (fun mm => (relation_pos mm =? p)
                                 && negb (arrivedb A t (member_id mm))) v).

(** The same over the three vectors: the kept members of the relation
    at index [p] that are not among [A]. *)
Definition outstanding (c : Collector) (A : list (item_type * Z)) (p : nat) : nat :=
  outstanding_in A node (member_meta c node) p +
  outstanding_in A way (member_meta c way) p +
  outstanding_in A relation (member_meta c relation) p.

(** The arena copy of an object has its kind, id and size. *)
Definition same_header (a b : OSMObject) : Prop :=
  obj_type b = obj_type a /\ obj_id b = obj_id a /\ obj_padded_size b = obj_padded_size a.

(** The offsets at which the objects of an arena begin. *)
Fixpoint offsets_from (base : nat) (items : list OSMObject) : list nat :=
  match items with
  | [] => []
  | o :: rest => base :: offsets_from (base + obj_padded_size o) rest
  end.

(** What holds after the objects [done] have gone through pass 1. *)
Definition pass1_ok (done : list OSMObject) (c : Collector) : Prop :=
  buffer_wf (m_relations_buffer c) /\
  Forall (fun k => fst k = relation /\ In k (map key done))
         (map key (b_items (m_relations_buffer c))) /\
  NoDup (map key (b_items (m_relations_buffer c))) /\
  map relation_offset (m_relations c) = offsets_from 0 (b_items (m_relations_buffer c)) /\
  (forall t, Forall (fun mm => removed mm = false /\
                               relation_pos mm < List.length (m_relations c))
                    (member_meta c t)) /\
  (forall p rm, nth_error (m_relations c) p = Some rm ->
     need_members rm = Z.of_nat (outstanding c [] p)) /\
  m_log c = [].

(** The offsets of the relations that have a kept member outstanding,
    [out p] being the number of outstanding members of the relation at
    index [p]. *)
Fixpoint incomplete_from (p : nat) (rms : list RelationMeta) (out : nat -> nat) : list nat :=
  match rms with
  | [] => []
  | rm :: rest =>
      if out p =? 0 then incomplete_from (S p) rest out
      else relation_offset rm :: incomplete_from (S p) rest out
  end.

(** How many records of [v] refer to the relation at index [p] and to
    the object with the id [x]. *)
Definition count_id (v : list MemberMeta) (x : Z) (p : nat) : nat :=
  List.length (filter (fun mm => (relation_pos mm =? p) && (member_id mm =? x)%Z) v).

(** What pass 2 never changes, [c1] being the collector after pass 1:
    the relations arena, the ids and relations of the records, and the
    offsets of the relations that have not been zeroed out. *)
Definition static_ok (c1 c : Collector) : Prop :=
  m_relations_buffer c = m_relations_buffer c1 /\
  evolves c1 c /\
  Forall2 (fun rm1 rm => rm = RelationMeta_empty \/
                         relation_offset rm = relation_offset rm1)
          (m_relations c1) (m_relations c).

(** Inside the loop of [find_and_add_object] for an object of kind [t]
    whose range ends at [hi], with the next record at position [i]; [A]
    holds the keys of the objects that have arrived, this one included.
    A removed record is one whose object has arrived; a relation needs
    the members that have not arrived and those of the range that have
    not been visited; the records still to visit are not removed; a
    completed relation has no member outstanding. *)
Definition loop_ok (c1 c : Collector) (A : list (item_type * Z))
           (t : item_type) (i hi : nat) : Prop :=
  static_ok c1 c /\
  (forall t' mm, In mm (member_meta c t') -> removed mm = true ->
     arrivedb A t' (member_id mm) = true) /\
  (forall p rm, nth_error (m_relations c) p = Some rm ->
     need_members rm =
       Z.of_nat (outstanding c1 A p + count_pos (member_meta c1 t) i (hi - i) p)) /\
  (forall j mm, i <= j < hi -> nth_error (member_meta c t) j = Some mm ->
     removed mm = false) /\
  (forall p, In p (completed_positions (events c)) -> outstanding c1 A p = 0).

(** Between two calls of [find_and_add_object]: invariant I2 of the
    specification, with "not yet seen" read as "has not arrived". *)
Definition pass2_ok (c1 c : Collector) (A : list (item_type * Z)) : Prop :=
  static_ok c1 c /\
  (forall t mm, In mm (member_meta c t) -> removed mm = true ->
     arrivedb A t (member_id mm) = true) /\
  (forall p rm, nth_error (m_relations c) p = Some rm ->
     need_members rm = Z.of_nat (outstanding c1 A p)) /\
  (forall p, In p (completed_positions (events c)) -> outstanding c1 A p = 0).

(** The keys of the objects of the input that pass 2 looks at. *)
Definition arrivals {hooks : Hooks} (input : list OSMObject) : list (item_type * Z) :=
  map key (filter (fun o => interested_in (obj_type o)) input).

(** ** Further operations and invariants *)

(** [clean_assembled_relations()]: [std::remove_if] with the predicate
    [has_all_members()] keeps the other elements in their order, and
    [erase] cuts off the rest. *)
Definition clean_assembled_relations (c : Collector) : Collector :=
  set_relations c (filter (fun rm => negb (has_all_members rm)) (m_relations c)).

(** How many records of a vector refer to the relation at index [p]. *)
Definition referring (v : list MemberMeta) (p : nat) : nat :=
  List.length (filter (fun mm => relation_pos mm =? p) v).

(** The same over the three vectors. *)
Definition references (c : Collector) (p : nat) : nat :=
  referring (member_meta c node) p + referring (member_meta c way) p
  + referring (member_meta c relation) p.

(** A record as [MemberMeta(id, relation_pos, member_pos)] makes it: not
    removed and without an offset. *)
Definition fresh (mm : MemberMeta) : Prop :=
  removed mm = false /\ buffer_offset mm = None.

(** Invariant I2 of the specification as it holds during pass 1: every
    record is fresh and refers to a relation of [m_relations], and a
    relation needs as many members as records refer to it, at least
    one. *)
Definition records_counted (c : Collector) : Prop :=
  (forall t, Forall (fun mm => fresh mm /\ relation_pos mm < List.length (m_relations c))
                    (member_meta c t)) /\
  (forall p rm, nth_error (m_relations c) p = Some rm ->
     need_members rm = Z.of_nat (references c p) /\ (0 < need_members rm)%Z).

(** The log of completions is sound: it names indices of [m_relations]
    only, and a relation that needs nothing is in it. *)
Definition completions_sound (c : Collector) : Prop :=
  (forall p, In p (completed_positions (events c)) -> p < List.length (m_relations c)) /\
  (forall p rm, nth_error (m_relations c) p = Some rm -> need_members rm = 0%Z ->
     In p (completed_positions (events c))).

(** ** What [add_relation] is to do, member by member *)

(** The decisions of the loop of [add_relation]: [keep_member] is asked
    with the RelationMeta that has counted the members kept so far. *)
Fixpoint kept_flags {hooks : Hooks} (relation_meta : RelationMeta)
         (ms : list RelationMember) : list bool :=
  match ms with
  | [] => []
  | member :: rest =>
      let k := keep_member relation_meta member in
      k :: kept_flags (if k then increment_need_members relation_meta else relation_meta) rest
  end.

Definition count_kept (flags : list bool) : nat :=
  List.length (filter (fun k : bool => k) flags).

(** A member after [member.ref(0)]. *)
Definition zero_ref (m : RelationMember) : RelationMember :=
  mkMember (member_type m) 0%Z (member_role m).

(** The members of the arena copy: the kept ones as they were, the
    others with the ref 0. *)
Fixpoint marked_members (ms : list RelationMember) (flags : list bool)
  : list RelationMember :=
  match ms, flags with
  | m :: ms', k :: flags' => (if k then m else zero_ref m) :: marked_members ms' flags'
  | _, _ => ms
  end.

(** An object with another member list. *)
Definition set_members (o : OSMObject) (ms : list RelationMember) : OSMObject :=
  mkObject (obj_type o) (obj_id o) ms (obj_data o) (obj_padded_size o) (obj_removed o).

(** The records for the kept members of kind [t], [n] being the position
    of the first member of [ms] in the relation. *)
Fixpoint new_records (t : item_type) (pos n : nat) (ms : list RelationMember)
         (flags : list bool) : list MemberMeta :=
  match ms, flags with
  | m :: ms', k :: flags' =>
      (if k && item_type_eqb (member_type m) t
       then [MemberMeta_new (member_ref m) pos n] else [])
      ++ new_records t pos (S n) ms' flags'
  | _, _ => []
  end.

(** Invariant I1 of the specification: the record [mm] of the vector
    for kind [t] leads, through [m_relations[relation_pos]] and the
    relations arena, to a relation that has at [member_pos] a member of
    kind [t] with the ref [member_id]. *)
Definition resolves (c : Collector) (t : item_type) (mm : MemberMeta) : Prop :=
  exists rm r m,
    nth_error (m_relations c) (relation_pos mm) = Some rm /\
    get_relation c (relation_offset rm) = Some r /\
    nth_error (obj_members r) (member_pos mm) = Some m /\
    member_type m = t /\ member_ref m = member_id mm.

Definition index_ok (c : Collector) : Prop :=
  buffer_wf (m_relations_buffer c) /\
  forall t, Forall (resolves c t) (member_meta c t).

(** ** The members arena while nothing is compacted *)

(** The object [o] lies in the members arena at the offset that the
    record holds, flagged as removed or not. *)
Definition stored_for (c : Collector) (mm : MemberMeta) (o : OSMObject) : Prop :=
  exists off stored,
    buffer_offset mm = Some off /\ get_member c off = Some stored /\ flagged o stored.

(** Every record whose object is among [done2], the objects that pass 2
    has looked at, has it in the members arena. *)
Definition members_stored {hooks : Hooks} (c : Collector) (done2 : list OSMObject) : Prop :=
  buffer_wf (m_members_buffer c) /\
  forall t mm o, In mm (member_meta c t) -> In o done2 ->
    interested_in (obj_type o) = true -> key o = (t, member_id mm) -> stored_for c mm o.

(** The members arena has not been compacted and will not be:
    [m_count_complete] has counted every call of [complete_relation],
    no relation was completed twice, and there are no more than 10000
    relations. *)
Definition never_purged (c : Collector) : Prop :=
  completed_once c /\ completions_sound c /\
  m_count_complete c = Z.of_nat (List.length (completed_positions (events c))) /\
  (Z.of_nat (List.length (m_relations c)) <= 10000)%Z.

(** ** The callbacks of pass 2 *)

(** The events that the loop of [find_and_add_object] can cause. *)
Definition from_loop (e : Event) : bool :=
  match e with
  | ev_complete_relation _ _ _ _ => true
  | ev_purge_removed => true
  | _ => false
  end.

(** No record of the collector stands for the object [o]. *)
Definition unwanted (c : Collector) (o : OSMObject) : Prop :=
  forall mm, In mm (member_meta c (obj_type o)) -> member_id mm <> obj_id o.

(** When the objects [done2] have gone through pass 2, [c1] being the
    collector after pass 1: [*_not_in_any_relation] was called for the
    objects of an interesting kind that no record stands for, and
    [flush] was not called. *)
Definition callbacks_ok {hooks : Hooks} (c1 c : Collector) (done2 : list OSMObject) : Prop :=
  (forall o, In (ev_not_in_any_relation o) (events c) <->
             In o done2 /\ interested_in (obj_type o) = true /\ unwanted c1 o) /\
  ~ In ev_flush (events c).

(** ** The records of a completed relation *)

(** How many members of a member list have the kind [t] and the ref [x]. *)
Definition member_count (ms : list RelationMember) (t : item_type) (x : Z) : nat :=
  List.length (filter (fun m => item_type_eqb (member_type m) t && (member_ref m =? x)%Z) ms).

(** How many records of [v] that are not removed refer to the relation
    at index [p] and to the object with the id [x]. *)
Definition live_count (v : list MemberMeta) (x : Z) (p : nat) : nat :=
  List.length (filter (fun mm => (relation_pos mm =? p) && (member_id mm =? x)%Z
                                 && negb (removed mm)) v).

(** Every RelationMeta points at a relation in the arena, which has at
    least as many members of a kind and with a ref (other than 0) as
    there are records for them. *)
Definition members_cover (c : Collector) : Prop :=
  forall p rm, nth_error (m_relations c) p = Some rm ->
    exists r, get_relation c (relation_offset rm) = Some r /\
      forall t x, x <> 0%Z ->
        count_id (member_meta c t) x p <= member_count (obj_members r) t x.

(** Invariant I4 of the specification: the records of a relation for
    which [complete_relation] was called are removed (a record for the
    ref 0 is never looked for). *)
Definition completed_removed (c : Collector) : Prop :=
  forall p t mm, In p (completed_positions (events c)) -> In mm (member_meta c t) ->
    relation_pos mm = p -> member_id mm <> 0%Z -> removed mm = true.

(** What [clear_member_metas] relies on: among the records that are not
    removed (and not for the ref 0) those of the relation at index [p],
    and only those, lead to a relation with the id of [r]. *)
Definition leads_to (c : Collector) (r : OSMObject) (p : nat) : Prop :=
  forall t mm, In mm (member_meta c t) -> removed mm = false -> member_id mm <> 0%Z ->
    (same_id r (get_relation_of_member c mm) = true <-> relation_pos mm = p).

(** What holds between two steps of pass 2 for any input, [c1] being
    the collector after pass 1. *)
Definition collected (c1 c : Collector) : Prop :=
  m_relations_buffer c = m_relations_buffer c1 /\
  evolves c1 c /\
  (forall q rmq, nth_error (m_relations c) q = Some rmq ->
     In q (completed_positions (events c)) \/
     exists rm1q, nth_error (m_relations c1) q = Some rm1q /\
                  relation_offset rmq = relation_offset rm1q) /\
  completed_once c /\ completed_removed c.

(** ** The members arena and the records, compactions included *)



End Relations.

(* ================================================================== *)
(** * Scenarios of the specification                                   *)
(* ================================================================== *)

Module Scenarios.

Import Relations.
Local Open Scope Z_scope.
Local Open Scope string_scope.

(** The events that each object of the input triggers in pass 2,
    together with the id of the object and the result of
    [find_and_add_object]. *)
Fixpoint pass2_trace {hooks : Hooks} (c : Collector) (input : list OSMObject)
  : list (Z * bool * list Event) :=
  match input with
  | [] => []
  | o :: rest =>
      let c' := handler_pass2 c o in
      (obj_id o, fst (find_and_add_object c o),
       skipn (List.length (events c)) (events c')) :: pass2_trace c' rest
  end.

(** The ids of the relations, if any, that lie at the given offsets of
    the relations arena. *)
Definition relation_ids (c : Collector) (offsets : list nat) : list (option Z) :=
  map (fun off => option_map obj_id (get_relation c off)) offsets.

(** A collector for member ways only, with the hooks of [Collector]. *)
Definition ways_only : Hooks := default_hooks false true false.

(** A collector for member ways only that keeps no member at all. *)
Definition keep_nothing : Hooks :=
  mkHooks false true false (fun _ => true) (fun _ _ => false).

Definition a_way (id : Z) (data : list Z) : OSMObject :=
  mkObject way id [] data 8 false.

Definition a_node (id : Z) : OSMObject :=
  mkObject node id [] [] 8 false.

Definition a_relation (id : Z) (ms : list RelationMember) : OSMObject :=
  mkObject relation id ms [] (16 + 8 * List.length ms) false.

(** S1: relations 20, 21, 22 and ways 10 .. 15. *)
Definition S1_relations : list OSMObject :=
  [ a_relation 20 [mkMember way 10 "outer"];
    a_relation 21 [mkMember way 11 "outer"; mkMember way 12 "outer"];
    a_relation 22 [mkMember way 13 "outer"; mkMember way 10 "inner";
                   mkMember way 14 "inner"] ].

Definition S1_ways : list OSMObject :=
  [ a_way 10 []; a_way 11 []; a_way 12 []; a_way 13 []; a_way 14 []; a_way 15 [] ].

Definition S1_input : list OSMObject := S1_relations ++ S1_ways.

(** The collector after pass 1 over S1. *)
Definition S1_pass1 : Collector := read_relations (hooks := ways_only) Collector_new S1_input.

(** The same, with the two records for way 10 in the other order, which
    [std::sort] is free to produce. *)
Definition S1_pass1_other_order : Collector :=
  set_member_meta S1_pass1 way
    (match member_meta S1_pass1 way with
     | a :: b :: rest => b :: a :: rest
     | v => v
     end).


Definition way10_first : OSMObject := a_way 10 [1].
Definition way10_second : OSMObject := a_way 10 [2].



(** A relation that is completed by a way that arrives twice, although
    its other member never arrives. *)
Definition premature_input : list OSMObject :=
  [ a_relation 30 [mkMember way 10 "outer"; mkMember way 11 "outer"];
    way10_first; way10_second ].

(** S5 in small: relation 20 is completed by way 10, which is flagged
    as removed; way 11 of relation 21 is stored behind it. *)
Definition relocation_input : list OSMObject :=
  [ a_relation 20 [mkMember way 10 "outer"];
    a_relation 21 [mkMember way 11 "outer"; mkMember way 12 "outer"];
    a_way 10 []; a_way 11 [7] ].


(** A relation with one member, for a collector that keeps no member. *)
Definition lonely_relation : OSMObject := a_relation 20 [mkMember way 10 "outer"].

(** S3: relation 30 wants nodes 100 and 101; only node 100 is in the
    stream. *)
Definition nodes_only : Hooks := default_hooks true false false.

Definition S3_input : list OSMObject :=
  [ a_relation 30 [mkMember node 100 ""; mkMember node 101 ""]; a_node 100 ].

(** The same with the records for way 10 in the other order: relation
    22, which the sort now leaves in front, is completed by ways 10 and
    12 before way 10 arrives again. *)
Definition dup_relations_other : list OSMObject :=
  [ a_relation 20 [mkMember way 10 "outer"; mkMember way 11 "outer"];
    a_relation 22 [mkMember way 10 "inner"; mkMember way 12 "inner"] ].

Definition dup_other_pass1 : Collector :=
  let c := read_relations (hooks := ways_only) Collector_new dup_relations_other in
  set_member_meta c way
    (match member_meta c way with
     | a :: b :: rest => b :: a :: rest
     | v => v
     end).

Definition dup_other_before : Collector :=
  fold_left (handler_pass2 (hooks := ways_only)) [way10_first; a_way 12 []] dup_other_pass1.

Definition dup_other_after : Collector :=
  snd (find_and_add_object dup_other_before way10_second).

(** A collector for member ways that keeps the members with the role
    "outer" only. *)
Definition outer_only : Hooks :=
  mkHooks false true false (fun _ => true)
          (fun _ member => String.eqb (member_role member) "outer").

(** Relation 22 of S1. *)
Definition relation22 : OSMObject :=
  a_relation 22 [mkMember way 13 "outer"; mkMember way 10 "inner"; mkMember way 14 "inner"].



End Scenarios.
(* ================================================================== *)
(** * Part III: properties of the string matcher                       *)
(* ================================================================== *)

Unset Implicit Arguments.

Section StringMatcherFacts.

Import StringMatcher.
Local Open Scope string_scope.

Lemma uchar_diff (c d : ascii) :
  Ascii.eqb c d = false -> (uchar c - uchar d)%Z <> 0%Z.
Proof.
  intros Hcd Hz. apply Ascii.eqb_neq in Hcd. apply Hcd.
  rewrite <- (ascii_nat_embedding c), <- (ascii_nat_embedding d).
  f_equal. unfold uchar in Hz. lia.
Qed.

Lemma uchar_NUL (c : ascii) : Ascii.eqb c NUL = false -> uchar c <> 0%Z.
Proof.
  intros Hc. pose proof (uchar_diff _ _ Hc) as H.
  unfold NUL in H. change (uchar Ascii.zero) with 0%Z in H. lia.
Qed.

Lemma cstr_idem (p : string) : cstr (cstr p) = cstr p.
Proof.
  induction p as [|c p IH]; simpl; [reflexivity|].
  destruct (Ascii.eqb c NUL) eqn:E; simpl; [reflexivity|].
  rewrite E, IH. reflexivity.
Qed.

Lemma no_nul_tail (c : ascii) (s : string) :
  no_nul (String c s) -> Ascii.eqb c NUL = false /\ no_nul s.
Proof.
  unfold no_nul. simpl. destruct (Ascii.eqb c NUL); [discriminate|].
  intros H. injection H as H. auto.
Qed.

Lemma no_nul_app (u v : string) : no_nul (u ++ v) -> no_nul u /\ no_nul v.
Proof.
  induction u as [|c u IH]; simpl; intros H.
  - split; [reflexivity | exact H].
  - apply no_nul_tail in H. destruct H as [Hc H]. apply IH in H.
    destruct H as [Hu Hv]. split; [|exact Hv].
    unfold no_nul in *. simpl. rewrite Hc, Hu. reflexivity.
Qed.

Lemma strcmp_bytes_eq (a b : string) :
  no_nul a -> no_nul b -> (strcmp_bytes a b = 0%Z <-> a = b).
Proof.
  revert b. induction a as [|c a IH]; intros [|d b] Ha Hb; simpl.
  - tauto.
  - apply no_nul_tail in Hb. destruct Hb as [Hd _].
    apply uchar_NUL in Hd. split; [lia | discriminate].
  - apply no_nul_tail in Ha. destruct Ha as [Hc _].
    apply uchar_NUL in Hc. split; [lia | discriminate].
  - apply no_nul_tail in Ha. apply no_nul_tail in Hb.
    destruct Ha as [_ Ha], Hb as [_ Hb].
    destruct (Ascii.eqb c d) eqn:E.
    + apply Ascii.eqb_eq in E. subst d. rewrite (IH b Ha Hb).
      split; [intros ->; reflexivity | intros H; injection H; auto].
    + split.
      * intros H. exfalso. exact (uchar_diff _ _ E H).
      * intros H. injection H as H _. subst d.
        rewrite Ascii.eqb_refl in E. discriminate.
Qed.

(** [strcmp] compares what lies before the first NUL on each side. *)
Lemma strcmp_zero (p q : string) : strcmp p q = 0%Z <-> cstr p = cstr q.
Proof. unfold strcmp. apply strcmp_bytes_eq; apply cstr_idem. Qed.

Lemma compare_bytes_eq (a b : string) : compare_bytes a b = 0%Z <-> a = b.
Proof.
  revert b. induction a as [|c a IH]; intros [|d b]; simpl.
  - tauto.
  - split; [lia | discriminate].
  - split; [lia | discriminate].
  - destruct (Ascii.eqb c d) eqn:E.
    + apply Ascii.eqb_eq in E. subst d. rewrite IH.
      split; [intros ->; reflexivity | intros H; injection H; auto].
    + split.
      * intros H. exfalso. exact (uchar_diff _ _ E H).
      * intros H. injection H as H _. subst d.
        rewrite Ascii.eqb_refl in E. discriminate.
Qed.

Lemma take_prefix (s t : string) : s = take (String.length s) t <-> is_prefix_of s t.
Proof.
  revert t. induction s as [|c s IH]; intros t; simpl.
  - split; [intros _; exists t; reflexivity | reflexivity].
  - destruct t as [|d t]; simpl.
    + split; [discriminate | intros [v Hv]; discriminate].
    + split.
      * intros H. injection H as Hc H. subst d. apply IH in H.
        destruct H as [v Hv]. exists v. simpl. rewrite Hv. reflexivity.
      * intros [v Hv]. simpl in Hv. injection Hv as Hd Hv. subst d.
        f_equal. apply IH. exists v. exact Hv.
Qed.

Lemma starts_with_prefix (s t : string) : starts_with s t = true <-> is_prefix_of s t.
Proof.
  revert t. induction s as [|c s IH]; intros t; simpl.
  - split; [intros _; exists t; reflexivity | reflexivity].
  - destruct t as [|d t].
    + split; [discriminate | intros [v Hv]; discriminate].
    + rewrite andb_true_iff, Ascii.eqb_eq, IH. split.
      * intros [-> [v Hv]]. exists v. simpl. rewrite Hv. reflexivity.
      * intros [v Hv]. simpl in Hv. injection Hv as Hd Hv. subst d.
        split; [reflexivity | exists v; exact Hv].
Qed.

Lemma strstr_bytes_found (hay needle : string) :
  bool_of_ptr (strstr_bytes hay needle) = true <-> is_substring_of needle hay.
Proof.
  induction hay as [|d hay IH].
  - simpl. destruct (starts_with needle "") eqn:E.
    + split; [|reflexivity]. intros _. apply starts_with_prefix in E.
      destruct E as [v Hv]. exists "", v. exact Hv.
    + split; [discriminate|]. intros [u [v Huv]].
      destruct u; [|discriminate]. simpl in Huv.
      assert (is_prefix_of needle "") as P by (exists v; exact Huv).
      apply starts_with_prefix in P. congruence.
  - cbn [strstr_bytes]. destruct (starts_with needle (String d hay)) eqn:E.
    + split; [|reflexivity]. intros _. apply starts_with_prefix in E.
      destruct E as [v Hv]. exists "", v. exact Hv.
    + assert (bool_of_ptr (option_map S (strstr_bytes hay needle))
              = bool_of_ptr (strstr_bytes hay needle)) as ->
        by (destruct (strstr_bytes hay needle); reflexivity).
      rewrite IH. split.
      * intros [u [v Huv]]. exists (String d u), v. simpl. rewrite Huv. reflexivity.
      * intros [u [v Huv]]. destruct u as [|e u].
        -- simpl in Huv.
           assert (is_prefix_of needle (String d hay)) as P by (exists v; exact Huv).
           apply starts_with_prefix in P. congruence.
        -- simpl in Huv. injection Huv as _ Huv. exists u, v. exact Huv.
Qed.

(** What each matcher computes, for arbitrary bytes. *)
Lemma equal_match_spec (s t : string) : equal_match s t = true <-> cstr s = cstr t.
Proof. unfold equal_match, c_str. rewrite Z.eqb_eq. apply strcmp_zero. Qed.

Lemma prefix_match_spec (s t : string) :
  prefix_match s t = true <-> is_prefix_of s (cstr t).
Proof.
  unfold prefix_match, compare_0_npos, string_of_cstr.
  rewrite Z.eqb_eq, compare_bytes_eq. apply take_prefix.
Qed.

Lemma substring_match_spec (s t : string) :
  substring_match s t = true <-> is_substring_of (cstr s) (cstr t).
Proof. unfold substring_match, strstr, c_str. apply strstr_bytes_found. Qed.

Lemma list_match_spec (l : List.list string) (t : string) :
  list_match l t = true <-> exists s, In s l /\ cstr s = cstr t.
Proof.
  induction l as [|s l IH]; simpl.
  - split; [discriminate | intros [s [[] _]]].
  - destruct (Z.eqb (strcmp (c_str s) t) 0) eqn:E.
    + split; [|reflexivity]. intros _. exists s. split; [left; reflexivity|].
      apply strcmp_zero. apply Z.eqb_eq. exact E.
    + rewrite IH. split.
      * intros [s' [Hin Hs']]. exists s'. split; [right; exact Hin | exact Hs'].
      * intros [s' [[Heq | Hin] Hs']].
        -- subst s'. apply strcmp_zero in Hs'. unfold c_str in E.
           rewrite Hs' in E. discriminate.
        -- exists s'. split; assumption.
Qed.

End StringMatcherFacts.

Section StringMatcherClaims.

Import StringMatcher.
Local Open Scope string_scope.

(** C5, as stated, fails: [equal] built from the [std::string] ["a\0b"]
    matches the test string ["a"], which is a different string, because
    [strcmp] reads the stored bytes up to the first NUL only. *)
Lemma C5_equal_embedded_nul :
  call (of_matcher (equal a_nul_b)) "a" = true /\ a_nul_b <> "a".
Proof. split; [reflexivity | discriminate]. Qed.

(** C5 (amended): for strings [s], [t], [s1..sn] without an embedded NUL
    byte, [equal(s)] matches [t] iff [s = t], [prefix(s)] matches [t]
    iff [t] starts with [s], [substring(s)] matches [t] iff [t]
    contains [s], [list([s1..sn])] matches [t] iff some [si = t],
    [always_true] matches every [t] and [always_false] matches none. *)
Theorem C5_matchers (s t : string) (l : List.list string) :
  no_nul s -> no_nul t -> Forall no_nul l ->
  (call (of_matcher (equal s)) t = true <-> s = t) /\
  (call (of_matcher (prefix s)) t = true <-> is_prefix_of s t) /\
  (call (of_matcher (substring s)) t = true <-> is_substring_of s t) /\
  (call (of_matcher (list l)) t = true <-> In t l) /\
  call (of_matcher always_true) t = true /\
  call (of_matcher always_false) t = false.
Proof.
  intros Hs Ht Hl. unfold call, of_matcher. cbn [m_matcher matcher_match].
  repeat split; try reflexivity.
  - intros H. apply equal_match_spec in H. rewrite Hs, Ht in H. exact H.
  - intros ->. apply equal_match_spec. reflexivity.
  - intros H. apply prefix_match_spec in H. rewrite Ht in H. exact H.
  - intros H. apply prefix_match_spec. rewrite Ht. exact H.
  - intros H. apply substring_match_spec in H. rewrite Hs, Ht in H. exact H.
  - intros H. apply substring_match_spec. rewrite Hs, Ht. exact H.
  - intros H. apply list_match_spec in H. destruct H as [s' [Hin Hs']].
    rewrite Forall_forall in Hl. rewrite (Hl s' Hin), Ht in Hs'. subst s'. exact Hin.
  - intros H. apply list_match_spec. exists t. split; [exact H | reflexivity].
Qed.

Lemma C5_matchers_witness :
  (call (of_matcher (equal "ab")) "abc" = true <-> "ab" = "abc") /\
  (call (of_matcher (prefix "ab")) "abc" = true <-> is_prefix_of "ab" "abc") /\
  (call (of_matcher (substring "ab")) "abc" = true <-> is_substring_of "ab" "abc") /\
  (call (of_matcher (list ["x"; "abc"])) "abc" = true <-> In "abc" ["x"; "abc"]) /\
  call (of_matcher always_true) "abc" = true /\
  call (of_matcher always_false) "abc" = false.
Proof.
  apply (C5_matchers "ab" "abc" ["x"; "abc"]).
  - reflexivity.
  - reflexivity.
  - repeat constructor.
Defined.

(** C10: a default-constructed StringMatcher holds [always_false] and
    matches no string, through either [operator()]. *)
Theorem C10_default_matches_nothing (t : string) :
  m_matcher default = always_false /\
  call default t = false /\ call_string default t = false.
Proof. repeat split. Qed.

End StringMatcherClaims.

Section StringMatcherMore.

Import StringMatcher.
Local Open Scope string_scope.

(** X10: what the matchers do with arbitrary bytes, an embedded NUL
    included: [equal(s)] matches [t] iff the two agree up to their first
    NUL; [prefix(s)] iff the bytes of [t] before its first NUL start
    with all of [s]; [substring(s)] iff [s] up to its first NUL occurs
    in [t] before the first NUL of [t]; [list] iff some stored string
    agrees with [t] up to the first NUL. *)
Theorem matchers_on_c_strings (s t : string) (l : List.list string) :
  (call (of_matcher (equal s)) t = true <-> cstr s = cstr t) /\
  (call (of_matcher (prefix s)) t = true <-> is_prefix_of s (cstr t)) /\
  (call (of_matcher (substring s)) t = true <-> is_substring_of (cstr s) (cstr t)) /\
  (call (of_matcher (list l)) t = true <-> exists s', In s' l /\ cstr s' = cstr t).
Proof.
  unfold call, of_matcher. cbn [m_matcher matcher_match].
  split; [apply equal_match_spec|]. split; [apply prefix_match_spec|].
  split; [apply substring_match_spec | apply list_match_spec].
Qed.

Lemma bool_eq_iff (a b : bool) : (a = true <-> b = true) -> a = b.
Proof.
  destruct a, b; intros [H1 H2]; try reflexivity.
  - symmetry. apply H1. reflexivity.
  - apply H2. reflexivity.
Qed.

Lemma matcher_match_cstr (m : matcher_type) (t1 t2 : string) :
  cstr t1 = cstr t2 -> matcher_match m t1 = matcher_match m t2.
Proof.
  intros E. destruct m as [| |s|s|s|l]; cbn [matcher_match]; try reflexivity;
    apply bool_eq_iff.
  - rewrite !equal_match_spec, E. tauto.
  - rewrite !prefix_match_spec, E. tauto.
  - rewrite !substring_match_spec, E. tauto.
  - rewrite !list_match_spec, E. tauto.
Qed.

(** X11: every matcher, through either [operator()], reads the test
    string up to its first NUL only: two test strings that agree up to
    there get the same answer. *)
Theorem test_string_read_up_to_nul (m : t) (t1 t2 : string) :
  cstr t1 = cstr t2 ->
  call m t1 = call m t2 /\ call_string m t1 = call_string m t2.
Proof.
  intros E. unfold call_string, c_str, call. split; apply matcher_match_cstr; exact E.
Qed.

Lemma cstr_no_nul (s : string) : no_nul (cstr s).
Proof. apply cstr_idem. Qed.

Lemma prefix_no_nul (s t : string) : is_prefix_of s (cstr t) -> no_nul s.
Proof.
  intros [v Hv]. pose proof (cstr_no_nul t) as H. rewrite Hv in H.
  apply no_nul_app in H. tauto.
Qed.

(** X12: whatever [prefix(s)] matches, [substring(s)] matches too. *)
Theorem prefix_implies_substring (s t : string) :
  call (of_matcher (prefix s)) t = true -> call (of_matcher (substring s)) t = true.
Proof.
  unfold call, of_matcher. cbn [m_matcher matcher_match]. intros H.
  apply prefix_match_spec in H. apply substring_match_spec.
  rewrite (prefix_no_nul s t H). destruct H as [v Hv]. exists "", v. exact Hv.
Qed.

(** X13: for a stored string without an embedded NUL, whatever
    [equal(s)] matches, [prefix(s)] matches too. *)
Theorem equal_implies_prefix (s t : string) :
  no_nul s ->
  call (of_matcher (equal s)) t = true -> call (of_matcher (prefix s)) t = true.
Proof.
  unfold call, of_matcher. cbn [m_matcher matcher_match]. intros Hs H.
  apply equal_match_spec in H. apply prefix_match_spec. rewrite <- H, Hs.
  exists "". clear. induction s as [|c s IH]; [reflexivity|]. simpl. f_equal. exact IH.
Qed.

(** X14: [prefix] with a stored [std::string] that has an embedded NUL
    matches no test string at all, because the comparison is on all the
    stored bytes while the test string ends at its first NUL. *)
Theorem prefix_with_nul_never_matches (s t : string) :
  ~ no_nul s -> call (of_matcher (prefix s)) t = false.
Proof.
  unfold call, of_matcher. cbn [m_matcher matcher_match]. intros Hs.
  destruct (prefix_match s t) eqn:E; [|reflexivity].
  apply prefix_match_spec in E. apply prefix_no_nul in E. contradiction.
Qed.

Lemma list_match_app (l1 l2 : List.list string) (t : string) :
  list_match (l1 ++ l2) t = list_match l1 t || list_match l2 t.
Proof.
  induction l1 as [|s l1 IH]; [reflexivity|]. cbn [list_match app].
  destruct (strcmp (c_str s) t =? 0)%Z; [reflexivity | exact IH].
Qed.

Lemma list_match_single (s t : string) : list_match [s] t = equal_match s t.
Proof. unfold equal_match. cbn. destruct (strcmp (c_str s) t =? 0)%Z; reflexivity. Qed.

(** X15: a [list] matcher is the disjunction of [equal] matchers in any
    grouping: the list of two lists matches what either matches, and
    after [add_string(s)] it matches what it matched before and what
    [equal(s)] matches; it makes no difference whether the string was
    added as a [const char*] or as the [std::string] with those
    bytes. *)
Theorem list_is_any_of (l1 l2 : List.list string) (s t : string) :
  call (of_strings (l1 ++ l2)) t = call (of_strings l1) t || call (of_strings l2) t /\
  call (of_strings (add_string l1 s)) t
    = call (of_strings l1) t || call (of_string s) t /\
  call (of_strings (add_string_cstr l1 s)) t = call (of_strings (add_string l1 s)) t /\
  call (of_strings []) t = call default t.
Proof.
  unfold call, of_strings, of_string, add_string, add_string_cstr, default.
  cbn [m_matcher matcher_match].
  split; [apply list_match_app|].
  split; [rewrite list_match_app, list_match_single; reflexivity|].
  split; [|reflexivity].
  rewrite !list_match_app, !list_match_single. f_equal.
  apply bool_eq_iff. rewrite !equal_match_spec. unfold string_of_cstr.
  rewrite cstr_idem. tauto.
Qed.

(** *** Printing *)

Lemma string_app_assoc (a b c : string) : (a ++ b) ++ c = a ++ (b ++ c).
Proof. induction a as [|x a IH]; simpl; [reflexivity | rewrite IH; reflexivity]. Qed.

Lemma string_app_inv_head (a b c : string) : a ++ b = a ++ c -> b = c.
Proof.
  induction a as [|x a IH]; simpl; intros H; [exact H|]. injection H as H. apply IH. exact H.
Qed.

Lemma string_app_inv_bracket (a b : string) : a ++ "]" = b ++ "]" -> a = b.
Proof.
  revert b. induction a as [|x a IH]; intros [|y b] H; simpl in H.
  - reflexivity.
  - injection H as _ H. destruct b; discriminate H.
  - injection H as _ H. destruct a; discriminate H.
  - injection H as -> H. f_equal. apply IH. exact H.
Qed.

Lemma list_print_fold (l : List.list string) : forall acc,
  fold_left (fun o s => ((o ++ "[") ++ s) ++ "]") l acc = acc ++ bracketed l.
Proof.
  induction l as [|s l IH]; intros acc; cbn [fold_left bracketed].
  - clear. induction acc as [|x acc IH]; simpl; [reflexivity | rewrite <- IH; reflexivity].
  - rewrite IH, !string_app_assoc. reflexivity.
Qed.

Lemma matcher_print_app (m : matcher_type) (out : string) :
  matcher_print m out = out ++ matcher_print m "".
Proof.
  destruct m as [| |s|s|s|l]; cbn [matcher_print]; try reflexivity;
    unfold equal_print, prefix_print, substring_print, list_print;
    rewrite ?list_print_fold, ?string_app_assoc; reflexivity.
Qed.

Lemma list_print_empty (l : List.list string) :
  matcher_print (list l) "" = "list[" ++ bracketed l ++ "]".
Proof.
  cbn [matcher_print]. unfold list_print. rewrite list_print_fold, string_app_assoc.
  reflexivity.
Qed.

(** X16: what [print_visitor] (and so [print] and [operator<<]) leaves
    in a stream tells the matchers apart, as far as their [print]
    methods allow, the [regex] of a build with [OSMIUM_WITH_REGEX]
    included: two matchers that leave the same bytes in a stream that
    held the same bytes before are the same matcher, unless both are
    [list] matchers, whose strings are then the same once each is put in
    brackets and all are joined, or both are [regex] matchers, which all
    print alike.  The stream is one in which every write succeeds and
    no field width is set. *)
Theorem print_tells_matchers_apart (R : Type) (m1 m2 : matcher_type_with_regex R)
        (out : string) :
  matcher_print_with_regex m1 out = matcher_print_with_regex m2 out ->
  m1 = m2 \/
  (exists l1 l2, m1 = without_regex (list l1) /\ m2 = without_regex (list l2) /\
                 bracketed l1 = bracketed l2) \/
  (exists r1 r2, m1 = regex r1 /\ m2 = regex r2).
Proof.
  destruct m1 as [m1 | r1], m2 as [m2 | r2]; cbn [matcher_print_with_regex]; intros H.
  - rewrite (matcher_print_app m1), (matcher_print_app m2) in H.
    apply string_app_inv_head in H.
    destruct m1 as [| |s1|s1|s1|l1], m2 as [| |s2|s2|s2|l2];
      try rewrite !list_print_empty in H;
      try (left; reflexivity);
      try (cbn in H; discriminate H).
    + left. cbn in H. injection H as H. apply string_app_inv_bracket in H. subst. reflexivity.
    + left. cbn in H. injection H as H. apply string_app_inv_bracket in H. subst. reflexivity.
    + left. cbn in H. injection H as H. apply string_app_inv_bracket in H. subst. reflexivity.
    + right. left. exists l1, l2. split; [reflexivity|]. split; [reflexivity|].
      cbn in H. injection H as H. apply string_app_inv_bracket in H. exact H.
  - exfalso. rewrite (matcher_print_app m1) in H. unfold regex_print in H.
    apply string_app_inv_head in H.
    destruct m1 as [| |s1|s1|s1|l1]; try rewrite list_print_empty in H;
      cbn in H; discriminate H.
  - exfalso. rewrite (matcher_print_app m2) in H. unfold regex_print in H.
    apply string_app_inv_head in H.
    destruct m2 as [| |s2|s2|s2|l2]; try rewrite list_print_empty in H;
      cbn in H; discriminate H.
  - right. right. exists r1, r2. split; reflexivity.
Qed.

(** Without [OSMIUM_WITH_REGEX], [operator<<] is [print_visitor] on one
    of the six classes. *)
Lemma shift_left_without_regex (R : Type) (m : t) (out : string) :
  shift_left out m = matcher_print_with_regex (R := R) (without_regex (m_matcher m)) out.
Proof. reflexivity. Qed.

(** Two [list] matchers that differ can print the same. *)
Lemma print_list_ambiguous :
  print (of_strings ["a][b"]) "" = print (of_strings ["a"; "b"]) "" /\
  call (of_strings ["a][b"]) "a" <> call (of_strings ["a"; "b"]) "a".
Proof. split; [reflexivity | discriminate]. Qed.

End StringMatcherMore.

(* ================================================================== *)
(** * Part IV: properties of the collector                             *)
(* ================================================================== *)

Import Relations.

(** ** Frame lemmas: what the setters leave alone *)

Lemma member_meta_set_same c t v : member_meta (set_member_meta c t v) t = v.
Proof. destruct t; reflexivity. Qed.

Lemma member_meta_set_other c t t' v :
  t <> t' -> member_meta (set_member_meta c t v) t' = member_meta c t'.
Proof. destruct t, t'; intros H; try reflexivity; contradiction. Qed.

Lemma member_meta_set_members_buffer c b t :
  member_meta (set_members_buffer c b) t = member_meta c t.
Proof. destruct t; reflexivity. Qed.

Lemma item_type_eq_dec (a b : item_type) : {a = b} + {a <> b}.
Proof. decide equality. Defined.

Lemma set_member_meta_frame c t v :
  m_relations_buffer (set_member_meta c t v) = m_relations_buffer c /\
  m_members_buffer (set_member_meta c t v) = m_members_buffer c /\
  m_relations (set_member_meta c t v) = m_relations c /\
  m_count_complete (set_member_meta c t v) = m_count_complete c /\
  m_log (set_member_meta c t v) = m_log c.
Proof. destruct t; repeat split. Qed.

Lemma moving_in_buffer_frame c old new :
  m_relations_buffer (moving_in_buffer c old new) = m_relations_buffer c /\
  m_members_buffer (moving_in_buffer c old new) = m_members_buffer c /\
  m_relations (moving_in_buffer c old new) = m_relations c /\
  m_count_complete (moving_in_buffer c old new) = m_count_complete c /\
  m_log (moving_in_buffer c old new) = m_log c.
Proof.
  unfold moving_in_buffer. destruct (buffer_get (m_members_buffer c) old).
  - apply set_member_meta_frame.
  - repeat split.
Qed.

Lemma purge_loop_frame items : forall read write c,
  let c' := snd (purge_loop items read write c) in
  m_relations_buffer c' = m_relations_buffer c /\
  m_members_buffer c' = m_members_buffer c /\
  m_relations c' = m_relations c /\
  m_count_complete c' = m_count_complete c /\
  m_log c' = m_log c.
Proof.
  induction items as [|o items IH]; intros read write c; simpl.
  - repeat split.
  - destruct (obj_removed o).
    + apply IH.
    + specialize (IH (read + obj_padded_size o) (write + obj_padded_size o)
                     (if read =? write then c else moving_in_buffer c read write)).
      destruct (purge_loop items _ _ _) as [kept c''] eqn:E. simpl in *.
      destruct (read =? write); [exact IH|].
      pose proof (moving_in_buffer_frame c read write) as F.
      destruct IH as (A & B & C & D & G), F as (A' & B' & C' & D' & G').
      repeat split; congruence.
Qed.

Lemma purge_removed_frame c :
  m_relations_buffer (purge_removed c) = m_relations_buffer c /\
  m_relations (purge_removed c) = m_relations c /\
  m_count_complete (purge_removed c) = m_count_complete c /\
  m_log (purge_removed c) = m_log c.
Proof.
  unfold purge_removed.
  pose proof (purge_loop_frame (committed_items (m_members_buffer c)) 0 0 c) as F.
  destruct (purge_loop _ 0 0 c) as [kept c']. simpl in F.
  destruct F as (A & B & C & D & G). repeat split; assumption.
Qed.

(** ** The completion counter (C4) *)

Lemma possibly_purge_step c :
  events (possibly_purge_removed_members c) =
    events c ++ (if (10000 <? m_count_complete c + 1)%Z then [ev_purge_removed] else []) /\
  m_count_complete (possibly_purge_removed_members c) =
    (if (10000 <? m_count_complete c + 1)%Z then 0 else m_count_complete c + 1)%Z.
Proof.
  unfold possibly_purge_removed_members, events. cbn [m_count_complete set_count_complete].
  rewrite Z.gtb_ltb. destruct (10000 <? m_count_complete c + 1)%Z.
  - cbn [m_log set_count_complete m_count_complete].
    destruct (purge_removed_frame
                (log_event (set_count_complete c (m_count_complete c + 1)) ev_purge_removed))
      as (_ & _ & _ & L).
    rewrite L. simpl. split; reflexivity.
  - simpl. rewrite app_nil_r. split; reflexivity.
Qed.

Lemma purge_count_step c :
  purge_count (possibly_purge_removed_members c) =
    purge_count c + (if (10000 <? m_count_complete c + 1)%Z then 1 else 0).
Proof.
  unfold purge_count. destruct (possibly_purge_step c) as [E _]. rewrite E.
  rewrite filter_app, length_app. destruct (10000 <? m_count_complete c + 1)%Z; reflexivity.
Qed.

(** C4, as stated, fails: 10 000 completions on a new collector do not
    issue a single purge (the counter stands at 10 000), and 20 000
    completions issue one purge, not two. *)
Lemma C4_no_purge_in_10000 :
  purge_count (completions 10000 Collector_new) = 0 /\
  m_count_complete (completions 10000 Collector_new) = 10000%Z /\
  purge_count (completions 20000 Collector_new) = 1.
Proof. vm_compute. repeat split. Qed.

(** C4 (amended): [possibly_purge_removed_members] increments the
    counter on each call, asks the members arena to compact on exactly
    those calls on which the incremented counter exceeds 10 000, and
    then resets the counter to zero; with the counter between 0 and
    10 000 at the start, [n] calls issue [(counter + n) / 10001] purges
    and leave the counter at [(counter + n) mod 10001], so a purge is
    issued once per 10 001 completions. *)
Theorem C4_purge_every_10001 (c : Collector) (n : nat) :
  (0 <= m_count_complete c <= 10000)%Z ->
  (events (possibly_purge_removed_members c) =
     events c ++ (if (10000 <? m_count_complete c + 1)%Z then [ev_purge_removed] else []) /\
   m_count_complete (possibly_purge_removed_members c) =
     (if (10000 <? m_count_complete c + 1)%Z then 0 else m_count_complete c + 1)%Z) /\
  Z.of_nat (purge_count (completions n c)) =
    (Z.of_nat (purge_count c) + (m_count_complete c + Z.of_nat n) / 10001)%Z /\
  m_count_complete (completions n c) = ((m_count_complete c + Z.of_nat n) mod 10001)%Z.
Proof.
  intros Hc. split; [apply possibly_purge_step|].
  induction n as [|n IH].
  - simpl. rewrite Z.add_0_r, Z.div_small, Z.mod_small by lia. lia.
  - unfold completions in *. rewrite Nat.iter_succ.
    set (c' := Nat.iter n possibly_purge_removed_members c) in *.
    destruct IH as [IHp IHc].
    pose proof (Z.mod_pos_bound (m_count_complete c + Z.of_nat n) 10001 ltac:(lia)) as Hb.
    pose proof (Z.div_mod (m_count_complete c + Z.of_nat n) 10001 ltac:(lia)) as Hdm.
    set (k := (m_count_complete c + Z.of_nat n)%Z) in *.
    replace (m_count_complete c + Z.of_nat (S n))%Z with (k + 1)%Z by (unfold k; lia).
    rewrite purge_count_step. destruct (possibly_purge_step c') as [_ ->].
    rewrite IHc. destruct (10000 <? k mod 10001 + 1)%Z eqn:E.
    + apply Z.ltb_lt in E. assert (k mod 10001 = 10000)%Z as Hm by lia.
      assert (k + 1 = 10001 * (k / 10001 + 1) + 0)%Z as Hk by lia.
      assert ((k + 1) / 10001 = k / 10001 + 1)%Z as Hq
        by (symmetry; apply (Z.div_unique (k + 1) 10001 (k / 10001 + 1) 0); [lia | exact Hk]).
      assert ((k + 1) mod 10001 = 0)%Z as Hr
        by (symmetry; apply (Z.mod_unique (k + 1) 10001 (k / 10001 + 1) 0); [lia | exact Hk]).
      rewrite Hq, Hr, Nat2Z.inj_add, IHp. split; [simpl; lia | reflexivity].
    + apply Z.ltb_ge in E.
      assert (k + 1 = 10001 * (k / 10001) + (k mod 10001 + 1))%Z as Hk by lia.
      assert ((k + 1) / 10001 = k / 10001)%Z as Hq
        by (symmetry; apply (Z.div_unique (k + 1) 10001 (k / 10001) (k mod 10001 + 1));
            [lia | exact Hk]).
      assert ((k + 1) mod 10001 = k mod 10001 + 1)%Z as Hr
        by (symmetry; apply (Z.mod_unique (k + 1) 10001 (k / 10001) (k mod 10001 + 1));
            [lia | exact Hk]).
      rewrite Hq, Hr, Nat2Z.inj_add, IHp. split; [simpl; lia | reflexivity].
Qed.

Lemma C4_purge_every_10001_witness :
  Z.of_nat (purge_count (completions 3 Collector_new)) =
    (Z.of_nat (purge_count Collector_new)
     + (m_count_complete Collector_new + Z.of_nat 3) / 10001)%Z /\
  m_count_complete (completions 3 Collector_new) =
    ((m_count_complete Collector_new + Z.of_nat 3) mod 10001)%Z.
Proof.
  refine (proj2 (C4_purge_every_10001 Collector_new 3 _)). simpl. lia.
Defined.

(** ** The arena buffer *)

Lemma get_at_app_end items o :
  Forall (fun x => 0 < obj_padded_size x) items ->
  get_at (items ++ [o]) (bytes items) = Some o.
Proof.
  induction 1 as [|x items Hx _ IH]; simpl; [reflexivity|].
  destruct (obj_padded_size x + bytes items =? 0) eqn:E0.
  - apply Nat.eqb_eq in E0. lia.
  - destruct (obj_padded_size x + bytes items <? obj_padded_size x) eqn:E1.
    + apply Nat.ltb_lt in E1. lia.
    + replace (obj_padded_size x + bytes items - obj_padded_size x) with (bytes items) by lia.
      exact IH.
Qed.

Lemma update_at_app_end items o f :
  Forall (fun x => 0 < obj_padded_size x) items ->
  update_at (items ++ [o]) (bytes items) f = items ++ [f o].
Proof.
  induction 1 as [|x items Hx _ IH]; simpl; [reflexivity|].
  destruct (obj_padded_size x + bytes items =? 0) eqn:E0.
  - apply Nat.eqb_eq in E0. lia.
  - destruct (obj_padded_size x + bytes items <? obj_padded_size x) eqn:E1.
    + apply Nat.ltb_lt in E1. lia.
    + replace (obj_padded_size x + bytes items - obj_padded_size x) with (bytes items) by lia.
      rewrite IH. reflexivity.
Qed.

Lemma committed_wf b : buffer_wf b -> committed b = bytes (b_items b).
Proof. intros [H _]. unfold committed. rewrite H, firstn_all. reflexivity. Qed.

(** ** A relation without interesting members (C7) *)

Section AddRelation.

Context {hooks : Hooks}.

Lemma set_relations_buffer_twice c b b' :
  set_relations_buffer (set_relations_buffer c b) b' = set_relations_buffer c b'.
Proof. reflexivity. Qed.

Lemma add_members_none_kept ms : forall n c rm items r,
  Forall (fun x => 0 < obj_padded_size x) items ->
  b_items (m_relations_buffer c) = items ++ [r] ->
  (forall rm' m, In m ms -> keep_member rm' m = false) ->
  exists r',
    add_members ms n (bytes items) (c, rm) =
      (set_relations_buffer c
         (mkBuffer (items ++ [r']) (b_ncommitted (m_relations_buffer c))), rm).
Proof.
  induction ms as [|m ms IH]; intros n c rm items r Hpos Hitems Hkeep.
  - exists r. simpl. rewrite <- Hitems. destruct c as [[] ? ? ? ? ? ? ?]. reflexivity.
  - cbn [add_members]. rewrite (Hkeep rm m (or_introl eq_refl)).
    set (c1 := set_relations_buffer c _).
    destruct (IH (S n) c1 rm items (set_member_ref_zero r n) Hpos) as [r' Hr'].
    + unfold c1, buffer_update. cbn. rewrite Hitems. apply update_at_app_end. exact Hpos.
    + intros rm' m' Hin. apply Hkeep. right. exact Hin.
    + exists r'. rewrite Hr'. reflexivity.
Qed.

(** C7: a kept relation none of whose members is kept leaves no trace:
    the arena append is rolled back, and the committed contents of the
    relations buffer, [m_relations] and the three MemberMeta vectors are
    as before the call (the whole collector is). *)
Theorem C7_add_relation_rolls_back (c : Collector) (rel : OSMObject) :
  buffer_wf (m_relations_buffer c) ->
  (forall rm m, In m (obj_members rel) -> keep_member rm m = false) ->
  committed_items (m_relations_buffer (add_relation c rel))
    = committed_items (m_relations_buffer c) /\
  committed (m_relations_buffer (add_relation c rel)) = committed (m_relations_buffer c) /\
  m_relations (add_relation c rel) = m_relations c /\
  (forall t, member_meta (add_relation c rel) t = member_meta c t) /\
  add_relation c rel = c.
Proof.
  intros Hwf Hkeep.
  assert (add_relation c rel = c) as E.
  { unfold add_relation. destruct Hwf as [Hn Hpos].
    assert (committed (m_relations_buffer c) = bytes (b_items (m_relations_buffer c))) as Hc
      by (apply committed_wf; split; assumption).
    rewrite Hc.
    set (c0 := set_relations_buffer c (add_item (m_relations_buffer c) rel)).
    assert (buffer_get (m_relations_buffer c0) (bytes (b_items (m_relations_buffer c)))
            = Some rel) as Hget
      by (unfold c0, buffer_get; cbn; apply get_at_app_end; exact Hpos).
    rewrite Hget.
    destruct (add_members_none_kept (obj_members rel) 0 c0
                (RelationMeta_at (bytes (b_items (m_relations_buffer c))))
                (b_items (m_relations_buffer c)) rel Hpos eq_refl Hkeep) as [r' Hr'].
    rewrite Hr'. cbn [has_all_members RelationMeta_at need_members Z.eqb].
    unfold c0, rollback. cbn.
    rewrite Hn, firstn_app, firstn_all, Nat.sub_diag. cbn. rewrite app_nil_r.
    destruct c as [[items k] ? ? ? ? ? ? ?]. cbn in *. subst k. reflexivity. }
  rewrite E. repeat split.
Qed.

End AddRelation.

(** ** Sorting *)

Lemma insert_sorted_perm x v : Permutation (insert_sorted x v) (x :: v).
Proof.
  induction v as [|y v IH]; simpl; [apply Permutation_refl|].
  destruct (mm_less y x).
  - eapply perm_trans; [apply perm_skip, IH | apply perm_swap].
  - apply Permutation_refl.
Qed.

Lemma std_sort_perm v : Permutation (std_sort v) v.
Proof.
  induction v as [|x v IH]; simpl; [apply perm_nil|].
  eapply perm_trans; [apply insert_sorted_perm | apply perm_skip, IH].
Qed.

Lemma insert_sorted_sorted x v : non_decreasing v -> non_decreasing (insert_sorted x v).
Proof.
  unfold non_decreasing. induction 1 as [|y v Hs IH Hy]; simpl.
  - repeat constructor.
  - unfold mm_less. destruct (member_id y <? member_id x)%Z eqn:E.
    + constructor; [exact IH|].
      apply (Permutation_Forall (Permutation_sym (insert_sorted_perm x v))).
      constructor; [unfold mm_le; apply Z.ltb_lt in E; lia | exact Hy].
    + apply Z.ltb_ge in E. constructor; [constructor; assumption|].
      constructor; [exact E|].
      eapply Forall_impl; [|exact Hy]. unfold mm_le. intros a Ha. lia.
Qed.

Lemma std_sort_sorted v : non_decreasing (std_sort v).
Proof.
  induction v as [|x v IH]; simpl; [constructor | apply insert_sorted_sorted, IH].
Qed.

Lemma sort_member_meta_vectors c t :
  member_meta (sort_member_meta c) t = std_sort (member_meta c t).
Proof. destruct t; reflexivity. Qed.

Lemma sort_member_meta_relations c : m_relations (sort_member_meta c) = m_relations c.
Proof. reflexivity. Qed.

(** ** The first pass (C9) *)

Section FirstPass.

Context {hooks : Hooks}.

Lemma add_members_pending ms : forall n offset st,
  pending_ok st -> pending_ok (add_members ms n offset st).
Proof.
  induction ms as [|m ms IH]; intros n offset [c rm] H; [exact H|].
  cbn [add_members]. apply IH. destruct H as (Hn & Hle & Hz). cbn [fst snd] in *.
  destruct (keep_member rm m).
  - unfold pending_ok. cbn [fst snd increment_need_members need_members].
    split; [lia|]. split; [|intros; lia].
    intros t. destruct (item_type_eq_dec (member_type m) t) as [<- | Hne].
    + rewrite member_meta_set_same.
      destruct (set_member_meta_frame c (member_type m)
                  (member_meta c (member_type m) ++
                     [MemberMeta_new (member_ref m) (List.length (m_relations c)) n]))
        as (_ & _ & -> & _).
      apply Forall_app. split; [apply Hle|]. constructor; [simpl; lia | constructor].
    + rewrite member_meta_set_other by exact Hne.
      destruct (set_member_meta_frame c (member_type m)
                  (member_meta c (member_type m) ++
                     [MemberMeta_new (member_ref m) (List.length (m_relations c)) n]))
        as (_ & _ & -> & _).
      apply Hle.
  - unfold pending_ok. cbn [fst snd].
    split; [exact Hn|]. split.
    + intros t. specialize (Hle t). destruct t; exact Hle.
    + intros Hz' t. specialize (Hz Hz' t). destruct t; exact Hz.
Qed.

Lemma add_relation_valid c rel :
  (forall t, valid_relation_pos c (member_meta c t)) ->
  forall t, valid_relation_pos (add_relation c rel) (member_meta (add_relation c rel) t).
Proof.
  intros H. unfold add_relation.
  set (offset := committed (m_relations_buffer c)).
  set (c0 := set_relations_buffer c (add_item (m_relations_buffer c) rel)).
  set (ms := match buffer_get (m_relations_buffer c0) offset with
             | Some r => obj_members r | None => [] end).
  assert (pending_ok (c0, RelationMeta_at offset)) as P0.
  { unfold pending_ok. cbn [fst snd RelationMeta_at need_members]. split; [lia|].
    split.
    - intros t. specialize (H t). unfold valid_relation_pos in H.
      eapply Forall_impl; [|destruct t; exact H]. cbn. intros; lia.
    - intros _ t. specialize (H t). destruct t; exact H. }
  pose proof (add_members_pending ms 0 offset _ P0) as P.
  destruct (add_members ms 0 offset (c0, RelationMeta_at offset)) as [c1 rm1].
  destruct P as (Hn & Hle & Hz). cbn [fst snd] in *.
  unfold has_all_members. destruct (need_members rm1 =? 0)%Z eqn:E.
  - apply Z.eqb_eq in E. intros t. specialize (Hz E t). destruct t; exact Hz.
  - intros t. specialize (Hle t). unfold valid_relation_pos.
    assert (forall v, Forall (fun mm => relation_pos mm <= List.length (m_relations c1)) v ->
                      Forall (fun mm => relation_pos mm <
                                List.length (m_relations c1 ++ [rm1])) v) as W.
    { intros v Hv. eapply Forall_impl; [|exact Hv]. cbn. intros a Ha.
      rewrite length_app. simpl. lia. }
    destruct t; apply W; exact Hle.
Qed.

Lemma handler_pass1_valid c o :
  (forall t, valid_relation_pos c (member_meta c t)) ->
  forall t, valid_relation_pos (handler_pass1 c o) (member_meta (handler_pass1 c o) t).
Proof.
  intros H. unfold handler_pass1. destruct (obj_type o); try exact H.
  destruct (keep_relation o); [apply add_relation_valid; exact H | exact H].
Qed.

Lemma pass1_valid input : forall c,
  (forall t, valid_relation_pos c (member_meta c t)) ->
  forall t, valid_relation_pos (fold_left handler_pass1 input c)
                               (member_meta (fold_left handler_pass1 input c) t).
Proof.
  induction input as [|o input IH]; intros c H; [exact H|].
  simpl. apply IH. apply handler_pass1_valid. exact H.
Qed.

(** C9: after [read_relations] (pass 1 followed by [sort_member_meta]),
    every MemberMeta of the three vectors has a [relation_pos] that is a
    valid index into [m_relations], and each vector is non-decreasing in
    [member_id]. *)
Theorem C9_after_pass1 (input : list OSMObject) (t : item_type) :
  let c := read_relations Collector_new input in
  valid_relation_pos c (member_meta c t) /\ non_decreasing (member_meta c t).
Proof.
  cbv zeta. unfold read_relations. rewrite sort_member_meta_vectors. split.
  - unfold valid_relation_pos. rewrite sort_member_meta_relations.
    apply (Permutation_Forall (Permutation_sym (std_sort_perm _))).
    apply pass1_valid. intros t'. destruct t'; constructor.
  - apply std_sort_sorted.
Qed.

End FirstPass.

(** ** Vectors: assignment through an index *)

Section Vectors.

Variable A : Type.

Lemma update_nth_length (v : list A) i f : List.length (update_nth v i f) = List.length v.
Proof.
  revert i. induction v as [|x v IH]; intros [|i]; simpl; try reflexivity.
  rewrite IH. reflexivity.
Qed.

Lemma nth_error_update_nth (v : list A) i f j :
  nth_error (update_nth v i f) j =
    if j =? i then option_map f (nth_error v j) else nth_error v j.
Proof.
  revert i j. induction v as [|x v IH]; intros i j.
  - destruct i, j; simpl; try reflexivity. destruct (j =? i); reflexivity.
  - destruct i, j; simpl; try reflexivity. apply IH.
Qed.

Lemma update_range_length (v : list A) lo hi f :
  List.length (update_range v lo hi f) = List.length v.
Proof.
  revert lo hi. induction v as [|x v IH]; intros [|lo] [|hi]; simpl; try reflexivity;
    rewrite IH; reflexivity.
Qed.

Lemma nth_error_update_range (v : list A) lo hi f j :
  nth_error (update_range v lo hi f) j =
    if (lo <=? j) && (j <? hi) then option_map f (nth_error v j) else nth_error v j.
Proof.
  revert lo hi j. induction v as [|x v IH]; intros lo hi j.
  - simpl. destruct j; simpl; destruct ((lo <=? _) && (_ <? hi)); reflexivity.
  - destruct lo as [|lo], hi as [|hi], j as [|j]; cbn [update_range nth_error];
      rewrite ?IH; rewrite ?andb_false_r; reflexivity.
Qed.

Lemma update_nth_out (v : list A) i f : List.length v <= i -> update_nth v i f = v.
Proof.
  revert i. induction v as [|x v IH]; intros [|i] H; simpl in *; try reflexivity; try lia.
  rewrite IH by lia. reflexivity.
Qed.

End Vectors.

Lemma update_nth_map (A B : Type) (g : A -> B) (v : list A) i f :
  (forall x, g (f x) = g x) -> map g (update_nth v i f) = map g v.
Proof.
  intros Hf. revert i. induction v as [|x v IH]; intros [|i]; simpl; try reflexivity.
  - rewrite Hf. reflexivity.
  - rewrite IH. reflexivity.
Qed.

Lemma update_range_map (A B : Type) (g : A -> B) (v : list A) lo hi f :
  (forall x, g (f x) = g x) -> map g (update_range v lo hi f) = map g v.
Proof.
  intros Hf. revert lo hi. induction v as [|x v IH]; intros [|lo] [|hi]; simpl;
    try reflexivity; rewrite ?Hf, IH; reflexivity.
Qed.

(** ** Ranges in a sorted vector *)

Lemma lower_bound_ids v v' id : ids v = ids v' -> lower_bound v id = lower_bound v' id.
Proof.
  unfold lower_bound, ids. revert v'. induction v as [|x v IH]; intros [|y v'] H;
    simpl in *; try discriminate; [reflexivity|].
  injection H as Hx H. rewrite Hx, (IH v' H). reflexivity.
Qed.

Lemma upper_bound_ids v v' id : ids v = ids v' -> upper_bound v id = upper_bound v' id.
Proof.
  unfold upper_bound, ids. revert v'. induction v as [|x v IH]; intros [|y v'] H;
    simpl in *; try discriminate; [reflexivity|].
  injection H as Hx H. rewrite Hx, (IH v' H). reflexivity.
Qed.

Lemma equal_range_ids v v' id : ids v = ids v' -> equal_range v id = equal_range v' id.
Proof.
  intros H. unfold equal_range. rewrite (lower_bound_ids v v' id H), (upper_bound_ids v v' id H).
  reflexivity.
Qed.

Lemma non_decreasing_ids v v' : ids v = ids v' -> non_decreasing v -> non_decreasing v'.
Proof.
  unfold non_decreasing, ids. intros H Hs. revert v' H.
  induction Hs as [|x v Hs IH Hx]; intros [|y v'] H; simpl in *; try discriminate;
    constructor.
  - apply IH. injection H; auto.
  - injection H as Hxy H. rewrite Forall_forall in *. intros z Hz.
    apply (in_map member_id) in Hz. rewrite <- H in Hz. apply in_map_iff in Hz.
    destruct Hz as [z' [Hz' Hin]]. specialize (Hx z' Hin). unfold mm_le in *. lia.
Qed.

Lemma lower_bound_le_upper v id : lower_bound v id <= upper_bound v id.
Proof.
  unfold lower_bound, upper_bound. induction v as [|x v IH]; simpl; [lia|].
  destruct (member_id x <? id)%Z eqn:E1, (id <? member_id x)%Z eqn:E2; simpl; lia.
Qed.

Lemma upper_bound_le_length v id : upper_bound v id <= List.length v.
Proof.
  unfold upper_bound. induction v as [|x v IH]; simpl; [lia|].
  destruct (negb (id <? member_id x)%Z); simpl; lia.
Qed.

Lemma lower_bound_zero v id :
  Forall (fun mm => (id <= member_id mm)%Z) v -> lower_bound v id = 0.
Proof.
  unfold lower_bound. destruct 1 as [|x v Hx _]; simpl; [reflexivity|].
  destruct (member_id x <? id)%Z eqn:E; [apply Z.ltb_lt in E; lia | reflexivity].
Qed.

(** In a sorted vector the range found for an id holds exactly the
    records with that id. *)
Lemma equal_range_spec v id i mm :
  non_decreasing v -> nth_error v i = Some mm ->
  (in_range (equal_range v id) i <-> member_id mm = id).
Proof.
  unfold non_decreasing, in_range, equal_range, lower_bound, upper_bound. cbn [fst snd].
  intros Hs. revert i. induction Hs as [|x v Hs IH Hx]; intros i Hi.
  - destruct i; discriminate.
  - cbn [count_while].
    destruct (member_id x <? id)%Z eqn:E1; [apply Z.ltb_lt in E1 | apply Z.ltb_ge in E1];
    (destruct (id <? member_id x)%Z eqn:E2; [apply Z.ltb_lt in E2 | apply Z.ltb_ge in E2]);
    cbn [negb]; try lia.
    + destruct i as [|i]; simpl in Hi.
      * injection Hi as <-. lia.
      * rewrite <- (IH i Hi). lia.
    + destruct i as [|i]; simpl in Hi.
      * injection Hi as <-. lia.
      * apply nth_error_In in Hi. rewrite Forall_forall in Hx.
        specialize (Hx mm Hi). unfold mm_le in Hx. lia.
    + assert (member_id x = id) as Hid by lia.
      destruct i as [|i]; simpl in Hi.
      * injection Hi as <-. lia.
      * rewrite <- (IH i Hi).
        assert (lower_bound v id = 0) as L.
        { apply lower_bound_zero. eapply Forall_impl; [|exact Hx].
          unfold mm_le. intros a Ha. lia. }
        unfold lower_bound in L. rewrite L. lia.
Qed.

(** ** Relocation (C8) *)

Lemma range_nonempty v id :
  non_decreasing v -> (exists mm, In mm v /\ member_id mm = id) ->
  exists first, nth_error v (lower_bound v id) = Some first /\ member_id first = id.
Proof.
  intros Hs [mm [Hin Hid]]. apply In_nth_error in Hin. destruct Hin as [i Hi].
  pose proof (proj2 (equal_range_spec v id i mm Hs Hi) Hid) as R.
  unfold in_range, equal_range in R. cbn [fst snd] in R.
  pose proof (upper_bound_le_length v id) as U.
  destruct (nth_error v (lower_bound v id)) as [first|] eqn:E.
  - exists first. split; [reflexivity|].
    apply (equal_range_spec v id (lower_bound v id) first Hs E).
    unfold in_range, equal_range. cbn [fst snd]. lia.
  - apply nth_error_None in E. lia.
Qed.

Lemma set_buffer_offset_id mm off : member_id (set_buffer_offset mm off) = member_id mm.
Proof. reflexivity. Qed.

Lemma moving_in_buffer_ids c old new t :
  ids (member_meta (moving_in_buffer c old new) t) = ids (member_meta c t).
Proof.
  unfold moving_in_buffer. destruct (buffer_get (m_members_buffer c) old) as [o|];
    [|reflexivity].
  destruct (item_type_eq_dec (obj_type o) t) as [<- | Hne].
  - rewrite member_meta_set_same. apply update_range_map. reflexivity.
  - rewrite member_meta_set_other by exact Hne. reflexivity.
Qed.

(** The callback itself: every record for the moved object gets the new
    offset, and no other record changes. *)
Lemma moving_in_buffer_spec c old new o :
  get_member c old = Some o ->
  non_decreasing (member_meta c (obj_type o)) ->
  forall t i mm, nth_error (member_meta c t) i = Some mm ->
    nth_error (member_meta (moving_in_buffer c old new) t) i =
      Some (if item_type_eqb t (obj_type o) && (member_id mm =? obj_id o)%Z
            then set_buffer_offset mm new else mm).
Proof.
  intros Hget Hs t i mm Hi. unfold moving_in_buffer. unfold get_member in Hget.
  rewrite Hget. destruct (item_type_eq_dec (obj_type o) t) as [<- | Hne].
  - rewrite member_meta_set_same, nth_error_update_range, Hi.
    assert (item_type_eqb (obj_type o) (obj_type o) = true) as ->
      by (unfold item_type_eqb; apply Nat.eqb_refl).
    pose proof (equal_range_spec _ (obj_id o) i mm Hs Hi) as R.
    unfold in_range, find_member_meta in *.
    destruct (member_id mm =? obj_id o)%Z eqn:E.
    + apply Z.eqb_eq in E. apply R in E.
      replace (fst _ <=? i) with true by (symmetry; apply Nat.leb_le; lia).
      replace (i <? snd _) with true by (symmetry; apply Nat.ltb_lt; lia).
      reflexivity.
    + apply Z.eqb_neq in E.
      destruct ((fst (equal_range (member_meta c (obj_type o)) (obj_id o)) <=? i)
                && (i <? snd (equal_range (member_meta c (obj_type o)) (obj_id o)))) eqn:B;
        [|reflexivity].
      apply andb_true_iff in B. destruct B as [B1 B2].
      apply Nat.leb_le in B1. apply Nat.ltb_lt in B2. exfalso. apply E, R. lia.
  - rewrite member_meta_set_other by exact Hne. rewrite Hi.
    assert (item_type_eqb t (obj_type o) = false) as ->.
    { unfold item_type_eqb. apply Nat.eqb_neq. intros H. apply Hne.
      destruct t, (obj_type o); simpl in H; congruence. }
    reflexivity.
Qed.

Lemma get_offset_ids c c' t id first :
  ids (member_meta c' t) = ids (member_meta c t) ->
  nth_error (member_meta c' t) (lower_bound (member_meta c t) id) = Some first ->
  get_offset c' t id = buffer_offset first.
Proof.
  intros Hids H. unfold get_offset, find_member_meta, equal_range. cbn [fst].
  rewrite (lower_bound_ids _ _ id Hids), H. reflexivity.
Qed.

Lemma exists_id_ids v v' id :
  ids v' = ids v -> (exists mm, In mm v /\ member_id mm = id) ->
  exists mm, In mm v' /\ member_id mm = id.
Proof.
  intros Hids [mm [Hin Hid]]. apply (in_map member_id) in Hin.
  fold (ids v) in Hin. rewrite <- Hids in Hin. apply in_map_iff in Hin.
  destruct Hin as [mm' [E Hin]]. exists mm'. split; [exact Hin | congruence].
Qed.

Lemma moving_in_buffer_same_key c old new o :
  get_member c old = Some o ->
  non_decreasing (member_meta c (obj_type o)) ->
  (exists mm, In mm (member_meta c (obj_type o)) /\ member_id mm = obj_id o) ->
  tracks (moving_in_buffer c old new) (obj_type o) (obj_id o) new.
Proof.
  intros Hget Hs Hex.
  pose proof (moving_in_buffer_ids c old new (obj_type o)) as Hids.
  split; [|split].
  - apply (non_decreasing_ids _ _ (eq_sym Hids) Hs).
  - apply (exists_id_ids _ _ _ Hids Hex).
  - destruct (range_nonempty _ _ Hs Hex) as [first [Hf Hid]].
    pose proof (moving_in_buffer_spec c old new o Hget Hs _ _ _ Hf) as H.
    rewrite (get_offset_ids c _ _ _ _ Hids H).
    assert (item_type_eqb (obj_type o) (obj_type o) = true) as ->
      by (unfold item_type_eqb; apply Nat.eqb_refl).
    rewrite Hid, Z.eqb_refl. reflexivity.
Qed.

Lemma tracks_same_vector c c' t id X :
  member_meta c' t = member_meta c t -> tracks c t id X -> tracks c' t id X.
Proof.
  unfold tracks, get_offset, find_member_meta. intros ->. tauto.
Qed.

Lemma moving_in_buffer_other_kind c old new o t :
  get_member c old = Some o -> obj_type o <> t ->
  member_meta (moving_in_buffer c old new) t = member_meta c t.
Proof.
  intros Hget Hne. unfold moving_in_buffer. unfold get_member in Hget. rewrite Hget.
  apply member_meta_set_other. exact Hne.
Qed.

Lemma moving_in_buffer_other_key c old new o t id X :
  get_member c old = Some o ->
  ~ (obj_type o = t /\ obj_id o = id) ->
  tracks c t id X ->
  tracks (moving_in_buffer c old new) t id X.
Proof.
  intros Hget Hkey Ht.
  destruct (item_type_eq_dec (obj_type o) t) as [Heq | Hne];
    [|apply (tracks_same_vector c); [apply (moving_in_buffer_other_kind _ _ _ o) |]; assumption].
  destruct Ht as (Hs & Hex & Hoff).
  pose proof (moving_in_buffer_ids c old new t) as Hids.
  split; [|split].
  - apply (non_decreasing_ids _ _ (eq_sym Hids) Hs).
  - apply (exists_id_ids _ _ _ Hids Hex).
  - destruct (range_nonempty _ _ Hs Hex) as [first [Hf Hid]].
    assert (non_decreasing (member_meta c (obj_type o))) as Hso by (rewrite Heq; exact Hs).
    pose proof (moving_in_buffer_spec c old new o Hget Hso _ _ _ Hf) as H.
    rewrite (get_offset_ids c _ _ _ _ Hids H).
    unfold get_offset, find_member_meta, equal_range in Hoff. cbn [fst] in Hoff.
    rewrite Hf in Hoff.
    destruct (item_type_eqb t (obj_type o) && (member_id first =? obj_id o)%Z) eqn:B;
      [|exact Hoff].
    apply andb_true_iff in B. destruct B as [_ B2]. apply Z.eqb_eq in B2.
    exfalso. apply Hkey. split; [exact Heq | congruence].
Qed.

(** *** The compaction loop *)

Lemma get_at_app_mid pre o post :
  Forall (fun x => 0 < obj_padded_size x) pre ->
  get_at (pre ++ o :: post) (bytes pre) = Some o.
Proof.
  induction 1 as [|x pre Hx _ IH]; simpl; [reflexivity|].
  destruct (obj_padded_size x + bytes pre =? 0) eqn:E0; [apply Nat.eqb_eq in E0; lia|].
  destruct (obj_padded_size x + bytes pre <? obj_padded_size x) eqn:E1;
    [apply Nat.ltb_lt in E1; lia|].
  replace (obj_padded_size x + bytes pre - obj_padded_size x) with (bytes pre) by lia.
  exact IH.
Qed.

Lemma bytes_app xs ys : bytes (xs ++ ys) = bytes xs + bytes ys.
Proof. induction xs as [|x xs IH]; simpl; [reflexivity | rewrite IH; lia]. Qed.

Lemma survivors_app xs ys : survivors (xs ++ ys) = survivors xs ++ survivors ys.
Proof. apply filter_app. Qed.

Lemma bytes_survivors_le xs : bytes (survivors xs) <= bytes xs.
Proof.
  induction xs as [|x xs IH]; simpl; [lia|].
  destruct (obj_removed x); simpl; lia.
Qed.

Lemma survivors_pos xs :
  Forall (fun x => 0 < obj_padded_size x) xs ->
  Forall (fun x => 0 < obj_padded_size x) (survivors xs).
Proof.
  intros H. apply Forall_forall. intros x Hx. apply filter_In in Hx.
  rewrite Forall_forall in H. apply H. tauto.
Qed.

Lemma nothing_removed xs :
  Forall (fun x => 0 < obj_padded_size x) xs ->
  bytes (survivors xs) = bytes xs -> Forall (fun x => obj_removed x = false) xs.
Proof.
  induction 1 as [|x xs Hx _ IH]; simpl; intros Hb; [constructor|].
  pose proof (bytes_survivors_le xs) as L.
  destruct (obj_removed x) eqn:E; simpl in Hb; [lia|].
  constructor; [exact E | apply IH; lia].
Qed.

Lemma purge_loop_kept items : forall read write c,
  fst (purge_loop items read write c) = survivors items.
Proof.
  induction items as [|o items IH]; intros read write c; simpl; [reflexivity|].
  destruct (obj_removed o); simpl; [apply IH|].
  specialize (IH (read + obj_padded_size o) (write + obj_padded_size o)
                 (if read =? write then c else moving_in_buffer c read write)).
  destruct (purge_loop items _ _ _). simpl in *. rewrite IH. reflexivity.
Qed.

Lemma purge_loop_app xs : forall ys read write c,
  snd (purge_loop (xs ++ ys) read write c) =
  snd (purge_loop ys (read + bytes xs) (write + bytes (survivors xs))
                  (snd (purge_loop xs read write c))).
Proof.
  induction xs as [|x xs IH]; intros ys read write c; simpl.
  - rewrite !Nat.add_0_r. reflexivity.
  - destruct (obj_removed x); simpl.
    + rewrite IH. f_equal. f_equal; lia.
    + specialize (IH ys (read + obj_padded_size x) (write + obj_padded_size x)
                     (if read =? write then c else moving_in_buffer c read write)).
      destruct (purge_loop (xs ++ ys) _ _ _) as [k1 c1].
      destruct (purge_loop xs _ _ _) as [k2 c2]. simpl in *.
      rewrite IH. f_equal. f_equal; lia.
Qed.

Lemma purge_loop_nomove xs : forall read c,
  Forall (fun x => obj_removed x = false) xs ->
  snd (purge_loop xs read read c) = c.
Proof.
  induction xs as [|x xs IH]; intros read c H; simpl; [reflexivity|].
  inversion H as [|? ? Hx Hxs]; subst. rewrite Hx, Nat.eqb_refl.
  specialize (IH (read + obj_padded_size x) c Hxs).
  destruct (purge_loop xs _ _ c). simpl in *. exact IH.
Qed.

Lemma purge_loop_ids items t : forall read write c,
  ids (member_meta (snd (purge_loop items read write c)) t) = ids (member_meta c t).
Proof.
  induction items as [|o items IH]; intros read write c; simpl; [reflexivity|].
  destruct (obj_removed o); [apply IH|].
  specialize (IH (read + obj_padded_size o) (write + obj_padded_size o)
                 (if read =? write then c else moving_in_buffer c read write)).
  destruct (purge_loop items _ _ _). simpl in *. rewrite IH.
  destruct (read =? write); [reflexivity | apply moving_in_buffer_ids].
Qed.

(** Survivors with another kind or id leave the records of [(t, id)]
    alone. *)
Lemma purge_loop_other_keys post t id X : forall done read write c,
  b_items (m_members_buffer c) = done ++ post ->
  Forall (fun x => 0 < obj_padded_size x) (done ++ post) ->
  read = bytes done ->
  Forall (fun s => obj_removed s = false -> ~ (obj_type s = t /\ obj_id s = id)) post ->
  tracks c t id X ->
  tracks (snd (purge_loop post read write c)) t id X.
Proof.
  induction post as [|o post IH]; intros done read write c Hb Hpos Hr Hkeys Ht;
    [exact Ht|].
  inversion Hkeys as [|? ? Ho Hpost]; subst. cbn [purge_loop].
  assert (b_items (m_members_buffer c) = (done ++ [o]) ++ post) as Hb'
    by (rewrite <- app_assoc; exact Hb).
  assert (Forall (fun x => 0 < obj_padded_size x) ((done ++ [o]) ++ post)) as Hpos'
    by (rewrite <- app_assoc; exact Hpos).
  assert (bytes done + obj_padded_size o = bytes (done ++ [o])) as Hr'
    by (rewrite bytes_app; simpl; lia).
  destruct (obj_removed o) eqn:E.
  - rewrite Hr'. apply (IH (done ++ [o])); auto.
  - set (c' := if bytes done =? write then c else moving_in_buffer c (bytes done) write).
    assert (m_members_buffer c' = m_members_buffer c) as Hm.
    { unfold c'. destruct (bytes done =? write); [reflexivity|].
      apply moving_in_buffer_frame. }
    assert (tracks c' t id X) as Ht'.
    { unfold c'. destruct (bytes done =? write); [exact Ht|].
      apply (moving_in_buffer_other_key c _ _ o); auto.
      unfold get_member, buffer_get. rewrite Hb. apply get_at_app_mid.
      apply Forall_app in Hpos. tauto. }
    specialize (IH (done ++ [o]) (bytes (done ++ [o])) (write + obj_padded_size o) c').
    rewrite Hr'. destruct (purge_loop post _ _ c') as [k c'']. simpl in *.
    apply IH; auto. rewrite Hm. exact Hb'.
Qed.

(** The compaction in any state: let the members arena hold the objects
    [pre], then [o], then [post], with [o] not removed and no unremoved
    object of the same kind and id behind it, and let [get_offset]
    return the offset [A] of [o].  A compaction moves [o] to [B], the
    size of what survives of [pre].  The callback
    [moving_in_buffer(A, B)] sets the [buffer_offset] of every
    MemberMeta with the kind and id of [o] to [B], so that [get_offset]
    returns [B]; and after the whole compaction [get_offset] returns
    [B] and [get_member] finds there the object that was at [A]
    before. *)
Lemma purge_removed_relocates (c : Collector) (pre post : list OSMObject) (o : OSMObject) :
  let t := obj_type o in
  let id := obj_id o in
  let A := bytes pre in
  let B := bytes (survivors pre) in
  buffer_wf (m_members_buffer c) ->
  b_items (m_members_buffer c) = pre ++ o :: post ->
  obj_removed o = false ->
  Forall (fun s => obj_removed s = false -> ~ (obj_type s = t /\ obj_id s = id)) post ->
  non_decreasing (member_meta c t) ->
  (exists mm, In mm (member_meta c t) /\ member_id mm = id) ->
  get_offset c t id = Some A ->
  (forall i mm, nth_error (member_meta c t) i = Some mm -> member_id mm = id ->
     nth_error (member_meta (moving_in_buffer c A B) t) i = Some (set_buffer_offset mm B)) /\
  get_offset (moving_in_buffer c A B) t id = Some B /\
  get_member c A = Some o /\
  get_offset (purge_removed c) t id = Some B /\
  get_member (purge_removed c) B = Some o.
Proof.
  intros t id A B Hwf Hb Hlive Hkeys Hs Hex Hoff.
  destruct Hwf as [Hn Hpos]. rewrite Hb in Hpos.
  assert (Forall (fun x => 0 < obj_padded_size x) pre) as Hpre
    by (apply Forall_app in Hpos; tauto).
  assert (get_member c A = Some o) as HgetA
    by (unfold get_member, buffer_get; rewrite Hb; apply get_at_app_mid; exact Hpre).
  split; [|split; [|split; [exact HgetA|]]].
  - intros i mm Hi Hid.
    rewrite (moving_in_buffer_spec c A B o HgetA Hs t i mm Hi).
    assert (item_type_eqb t (obj_type o) = true) as ->
      by (unfold item_type_eqb; apply Nat.eqb_refl).
    rewrite Hid. unfold id. rewrite Z.eqb_refl. reflexivity.
  - apply (moving_in_buffer_same_key c A B o HgetA Hs Hex).
  - unfold purge_removed, committed_items. rewrite Hn, firstn_all, Hb.
    pose proof (purge_loop_kept (pre ++ o :: post) 0 0 c) as Hkept.
    pose proof (purge_loop_app pre (o :: post) 0 0 c) as Happ.
    destruct (purge_loop (pre ++ o :: post) 0 0 c) as [kept c'] eqn:E.
    cbn [fst snd] in Hkept, Happ. split.
    + (* the records *)
      assert (get_offset (set_members_buffer c' (mkBuffer kept (List.length kept))) t id
              = get_offset c' t id) as -> by (destruct t; reflexivity).
      rewrite Happ. cbn [Nat.add purge_loop]. rewrite Hlive.
      set (c1 := snd (purge_loop pre 0 0 c)).
      pose proof (purge_loop_frame pre 0 0 c) as F. cbv zeta in F. fold c1 in F.
      destruct F as (_ & Hm1 & _).
      pose proof (purge_loop_ids pre t 0 0 c) as Hids1. fold c1 in Hids1.
      fold A. fold B.
      set (c2 := if A =? B then c1 else moving_in_buffer c1 A B).
      assert (tracks c2 t id B) as T2.
      { unfold c2. destruct (A =? B) eqn:EAB.
        - apply Nat.eqb_eq in EAB.
          assert (c1 = c) as ->.
          { unfold c1. apply purge_loop_nomove. apply nothing_removed; [exact Hpre|].
            unfold A, B in EAB. congruence. }
          rewrite <- EAB. split; [exact Hs | split; [exact Hex | exact Hoff]].
        - apply (moving_in_buffer_same_key c1 A B o).
          + unfold get_member. rewrite Hm1. exact HgetA.
          + apply (non_decreasing_ids _ _ (eq_sym Hids1) Hs).
          + apply (exists_id_ids _ _ _ Hids1 Hex). }
      assert (m_members_buffer c2 = m_members_buffer c) as Hm2.
      { unfold c2. destruct (A =? B); [exact Hm1|].
        destruct (moving_in_buffer_frame c1 A B) as (_ & -> & _). exact Hm1. }
      pose proof (purge_loop_other_keys post t id B (pre ++ [o])
                    (A + obj_padded_size o) (B + obj_padded_size o) c2) as P.
      destruct (purge_loop post _ _ c2) as [k c3]. cbn [snd] in *.
      apply P; auto.
      * rewrite Hm2, Hb, <- app_assoc. reflexivity.
      * rewrite <- app_assoc. exact Hpos.
      * rewrite bytes_app. simpl. unfold A. lia.
    + (* the bytes *)
      unfold get_member, buffer_get. cbn. rewrite Hkept, survivors_app.
      cbn [survivors filter]. rewrite Hlive. cbn [negb].
      apply get_at_app_mid. apply survivors_pos. exact Hpre.
Qed.

(** ** Pass 2: what the pieces leave alone *)

Section Forall2Facts.

Variables (A : Type) (R : A -> A -> Prop).

Lemma Forall2_refl_all (v : list A) : (forall a, R a a) -> Forall2 R v v.
Proof. intros H. induction v; constructor; auto. Qed.

Lemma Forall2_update_nth (v : list A) i f :
  (forall a, R a a) ->
  (forall a, nth_error v i = Some a -> R a (f a)) ->
  Forall2 R v (update_nth v i f).
Proof.
  intros Hr. revert i. induction v as [|x v IH]; intros [|i] H; simpl; constructor;
    auto using Forall2_refl_all.
Qed.

Lemma Forall2_update_range (v : list A) lo hi f :
  (forall a, R a a) -> (forall a, R a (f a)) -> Forall2 R v (update_range v lo hi f).
Proof.
  intros Hr Hf. revert lo hi. induction v as [|x v IH]; intros [|lo] [|hi]; simpl;
    constructor; auto using Forall2_refl_all.
Qed.

Lemma Forall2_trans_all (u v w : list A) :
  (forall a b c, R a b -> R b c -> R a c) ->
  Forall2 R u v -> Forall2 R v w -> Forall2 R u w.
Proof.
  intros Ht H. revert w. induction H as [|a b u v Hab _ IH]; intros w Hw;
    inversion Hw; subst; constructor; eauto.
Qed.

Lemma Forall2_nth_error (u v : list A) i a :
  Forall2 R u v -> nth_error u i = Some a ->
  exists b, nth_error v i = Some b /\ R a b.
Proof.
  intros H. revert i. induction H as [|x y u v Hxy _ IH]; intros [|i] Hi;
    simpl in *; try discriminate.
  - injection Hi as <-. eauto.
  - apply IH. exact Hi.
Qed.

End Forall2Facts.

Lemma mm_evolves_refl a : mm_evolves a a.
Proof. unfold mm_evolves. tauto. Qed.

Lemma mm_evolves_trans a b c : mm_evolves a b -> mm_evolves b c -> mm_evolves a c.
Proof.
  unfold mm_evolves. intros (A1 & A2 & A3 & A4 & A5) (B1 & B2 & B3 & B4 & B5).
  repeat split; try congruence; auto.
Qed.

Lemma evolves_refl c : evolves c c.
Proof. intros t. apply Forall2_refl_all. apply mm_evolves_refl. Qed.

Lemma evolves_trans c1 c2 c3 : evolves c1 c2 -> evolves c2 c3 -> evolves c1 c3.
Proof.
  intros H1 H2 t. apply (Forall2_trans_all _ _ _ _ _ mm_evolves_trans (H1 t) (H2 t)).
Qed.

Lemma evolves_same_vectors c c' :
  (forall t, member_meta c' t = member_meta c t) -> evolves c c'.
Proof. intros H t. rewrite H. apply Forall2_refl_all. apply mm_evolves_refl. Qed.

Lemma removal_evolves c rel a b : removal c rel a b -> mm_evolves a b.
Proof.
  intros [-> | (-> & _)]; [apply mm_evolves_refl|].
  unfold mm_evolves, remove. simpl. tauto.
Qed.

Lemma evolves_ids c c' t : evolves c c' -> ids (member_meta c' t) = ids (member_meta c t).
Proof.
  intros H. specialize (H t). unfold ids.
  induction H as [|a b u v Hab _ IH]; simpl; [reflexivity|].
  destruct Hab as (-> & _). rewrite IH. reflexivity.
Qed.

Lemma evolves_count_pos c c' t i k p :
  evolves c c' -> count_pos (member_meta c' t) i k p = count_pos (member_meta c t) i k p.
Proof.
  intros H. specialize (H t). unfold count_pos. revert i k.
  induction H as [|a b u v Hab _ IH]; intros i k.
  - reflexivity.
  - destruct i as [|i]; simpl.
    + destruct k as [|k]; simpl; [reflexivity|].
      destruct Hab as (_ & -> & _). specialize (IH 0 k). simpl in IH.
      destruct (relation_pos a =? p); simpl; rewrite IH; reflexivity.
    + apply IH.
Qed.

Lemma first_match_some (A : Type) (p : A -> bool) (v : list A) j :
  first_match p v = Some j -> exists a, nth_error v j = Some a /\ p a = true.
Proof.
  revert j. induction v as [|x v IH]; intros j H; simpl in H; [discriminate|].
  destruct (p x) eqn:E.
  - injection H as <-. exists x. split; [reflexivity | exact E].
  - destruct (first_match p v) as [j'|]; [|discriminate]. injection H as <-.
    apply IH. reflexivity.
Qed.

Lemma nth_error_range_elems v r j a :
  nth_error (range_elems v r) j = Some a -> nth_error v (fst r + j) = Some a.
Proof.
  unfold range_elems. intros H.
  assert (j < snd r - fst r) as Hj.
  { destruct (Nat.lt_ge_cases j (snd r - fst r)) as [L|G]; [exact L|].
    rewrite nth_error_firstn in H.
    destruct (j <? snd r - fst r) eqn:E; [apply Nat.ltb_lt in E; lia | discriminate]. }
  rewrite nth_error_firstn in H.
  replace (j <? snd r - fst r) with true in H by (symmetry; apply Nat.ltb_lt; exact Hj).
  rewrite nth_error_skipn in H. exact H.
Qed.

Lemma clear_member_frame c rel m :
  m_relations (clear_member c rel m) = m_relations c /\
  m_relations_buffer (clear_member c rel m) = m_relations_buffer c /\
  m_log (clear_member c rel m) = m_log c /\
  m_count_complete (clear_member c rel m) = m_count_complete c /\
  forall t, Forall2 (removal c rel) (member_meta c t) (member_meta (clear_member c rel m) t).
Proof.
  assert (forall a, removal c rel a a) as Hrefl by (intros a; left; reflexivity).
  unfold clear_member. destruct (member_ref m =? 0)%Z.
  { repeat split. intros t. apply Forall2_refl_all. exact Hrefl. }
  set (t0 := member_type m).
  set (range := find_member_meta c t0 (member_ref m)).
  set (c1 := if count_not_removed (member_meta c t0) range =? 1 then _ else c).
  assert (m_relations c1 = m_relations c /\ m_relations_buffer c1 = m_relations_buffer c /\
          m_log c1 = m_log c /\ m_count_complete c1 = m_count_complete c /\
          forall t, member_meta c1 t = member_meta c t) as (F1 & F2 & F3 & F4 & F5).
  { unfold c1. destruct (count_not_removed (member_meta c t0) range =? 1);
      [|repeat split].
    destruct (nth_error (member_meta c t0) (fst range)) as [first|]; [|repeat split].
    destruct (buffer_offset first); repeat split; intros t; destruct t; reflexivity. }
  assert (forall a, get_relation_of_member c1 a = get_relation_of_member c a) as G.
  { intros a. unfold get_relation_of_member, get_relation_of_meta, get_relation.
    rewrite F1, F2. reflexivity. }
  destruct (first_match _ (range_elems (member_meta c1 t0) range)) as [j|] eqn:E.
  - destruct (set_member_meta_frame c1 t0
                (update_nth (member_meta c1 t0) (fst range + j) remove))
      as (S1 & _ & S3 & S4 & S5).
    rewrite S1, S3, S4, S5. repeat split; try assumption.
    intros t. destruct (item_type_eq_dec t0 t) as [<- | Hne].
    + rewrite member_meta_set_same, F5. apply Forall2_update_nth; [exact Hrefl|].
      intros a Ha. right. apply first_match_some in E. destruct E as [a' [Ha' Hp]].
      apply nth_error_range_elems in Ha'. rewrite F5 in Ha'.
      assert (a' = a) as -> by congruence.
      apply andb_true_iff in Hp. destruct Hp as [Hp1 Hp2]. rewrite G in Hp2.
      apply negb_true_iff in Hp1. auto.
    + rewrite member_meta_set_other by exact Hne. rewrite F5.
      apply Forall2_refl_all. exact Hrefl.
  - repeat split; try assumption. intros t. rewrite F5.
    apply Forall2_refl_all. exact Hrefl.
Qed.

Lemma get_relation_of_member_frame c c' a b :
  m_relations c' = m_relations c -> m_relations_buffer c' = m_relations_buffer c ->
  relation_pos b = relation_pos a ->
  get_relation_of_member c' b = get_relation_of_member c a.
Proof.
  intros H1 H2 H3. unfold get_relation_of_member, get_relation_of_meta, get_relation.
  rewrite H1, H2, H3. reflexivity.
Qed.

Lemma removal_trans c c' rel a b d :
  m_relations c' = m_relations c -> m_relations_buffer c' = m_relations_buffer c ->
  removal c rel a b -> removal c' rel b d -> removal c rel a d.
Proof.
  intros H1 H2 [-> | (-> & Ha & Hs)] [-> | (-> & Hb & Hs')].
  - left. reflexivity.
  - right. repeat split; [exact Hb|].
    rewrite <- (get_relation_of_member_frame c c' a a H1 H2 eq_refl). exact Hs'.
  - right. repeat split; assumption.
  - simpl in Hb. discriminate.
Qed.

Lemma clear_members_frame rel ms : forall c,
  let c' := fold_left (fun c0 member => clear_member c0 rel member) ms c in
  m_relations c' = m_relations c /\
  m_relations_buffer c' = m_relations_buffer c /\
  m_log c' = m_log c /\
  m_count_complete c' = m_count_complete c /\
  forall t, Forall2 (removal c rel) (member_meta c t) (member_meta c' t).
Proof.
  induction ms as [|m ms IH]; intros c; simpl.
  - repeat split. intros t. apply Forall2_refl_all. intros a. left. reflexivity.
  - destruct (clear_member_frame c rel m) as (A1 & A2 & A3 & A4 & A5).
    destruct (IH (clear_member c rel m)) as (B1 & B2 & B3 & B4 & B5).
    repeat split; try congruence.
    intros t. specialize (A5 t). specialize (B5 t).
    revert A5 B5. generalize (member_meta c t) (member_meta (clear_member c rel m) t)
      (member_meta (fold_left (fun c0 member => clear_member c0 rel member) ms
                              (clear_member c rel m)) t).
    intros u v w Huv. revert w. induction Huv as [|a b u v Hab _ IHuv]; intros w Hw;
      inversion Hw; subst; constructor; auto.
    apply (removal_trans c (clear_member c rel m) rel a b); assumption.
Qed.

Lemma clear_member_metas_frame c rm :
  m_relations (clear_member_metas c rm) = m_relations c /\
  m_relations_buffer (clear_member_metas c rm) = m_relations_buffer c /\
  m_log (clear_member_metas c rm) = m_log c /\
  m_count_complete (clear_member_metas c rm) = m_count_complete c /\
  forall t, Forall2 (fun a b => b = a \/ exists rel,
                       get_relation_of_meta c rm = Some rel /\ removal c rel a b)
                    (member_meta c t) (member_meta (clear_member_metas c rm) t).
Proof.
  unfold clear_member_metas. destruct (get_relation_of_meta c rm) as [rel|].
  - destruct (clear_members_frame rel (obj_members rel) c) as (A1 & A2 & A3 & A4 & A5).
    repeat split; try assumption. intros t.
    eapply Forall2_impl; [|apply A5]. intros a b H. right. exists rel. auto.
  - repeat split. intros t. apply Forall2_refl_all. intros a. left. reflexivity.
Qed.

Lemma clear_member_metas_evolves c rm : evolves c (clear_member_metas c rm).
Proof.
  intros t. destruct (clear_member_metas_frame c rm) as (_ & _ & _ & _ & H).
  eapply Forall2_impl; [|apply H]. intros a b [-> | [rel [_ Hr]]];
    [apply mm_evolves_refl | apply (removal_evolves _ _ _ _ Hr)].
Qed.

(** *** Compaction *)

Lemma relocated_refl a : relocated a a.
Proof. left. reflexivity. Qed.

Lemma relocated_trans a b c : relocated a b -> relocated b c -> relocated a c.
Proof.
  intros [-> | [off ->]] [-> | [off' ->]]; try (left; reflexivity);
    right; eauto.
Qed.

Lemma relocated_evolves a b : relocated a b -> mm_evolves a b.
Proof.
  intros [-> | [off ->]]; [apply mm_evolves_refl|].
  unfold mm_evolves. simpl. repeat split; auto. intros _. discriminate.
Qed.

Lemma relocated_removed a b : relocated a b -> removed b = removed a.
Proof. intros [-> | [off ->]]; reflexivity. Qed.

Lemma moving_in_buffer_relocated c old new t :
  Forall2 relocated (member_meta c t) (member_meta (moving_in_buffer c old new) t).
Proof.
  unfold moving_in_buffer. destruct (buffer_get (m_members_buffer c) old) as [o|];
    [|apply Forall2_refl_all, relocated_refl].
  destruct (item_type_eq_dec (obj_type o) t) as [<- | Hne].
  - rewrite member_meta_set_same. apply Forall2_update_range; [apply relocated_refl|].
    intros a. right. eauto.
  - rewrite member_meta_set_other by exact Hne. apply Forall2_refl_all, relocated_refl.
Qed.

Lemma purge_loop_relocated items t : forall read write c,
  Forall2 relocated (member_meta c t) (member_meta (snd (purge_loop items read write c)) t).
Proof.
  induction items as [|o items IH]; intros read write c; simpl;
    [apply Forall2_refl_all, relocated_refl|].
  destruct (obj_removed o); [apply IH|].
  specialize (IH (read + obj_padded_size o) (write + obj_padded_size o)
                 (if read =? write then c else moving_in_buffer c read write)).
  destruct (purge_loop items _ _ _) as [k c'']. simpl in *.
  eapply Forall2_trans_all; [apply relocated_trans | | exact IH].
  destruct (read =? write); [apply Forall2_refl_all, relocated_refl|].
  apply moving_in_buffer_relocated.
Qed.

Lemma possibly_purge_frame c :
  m_relations (possibly_purge_removed_members c) = m_relations c /\
  m_relations_buffer (possibly_purge_removed_members c) = m_relations_buffer c /\
  forall t, Forall2 relocated (member_meta c t)
                    (member_meta (possibly_purge_removed_members c) t).
Proof.
  unfold possibly_purge_removed_members.
  destruct (m_count_complete _ >? 10000)%Z.
  - set (c1 := log_event _ _).
    destruct (purge_removed_frame c1) as (A1 & A2 & _). cbn [m_relations m_relations_buffer
      set_count_complete]. rewrite A1, A2. repeat split.
    intros t. unfold purge_removed.
    pose proof (purge_loop_relocated (committed_items (m_members_buffer c1)) t 0 0 c1) as P.
    destruct (purge_loop _ 0 0 c1) as [k c']. simpl in P.
    destruct t; exact P.
  - repeat split. intros t. destruct t; apply Forall2_refl_all, relocated_refl.
Qed.

(** ** Pass 2: one step of the loop *)

Lemma add_loop_S n t i c :
  add_loop (S n) t i c =
    match nth_error (member_meta c t) i with
    | None => c
    | Some mm =>
        if removed mm then c
        else match nth_error (m_relations c) (relation_pos mm) with
             | None => add_loop n t (S i) c
             | Some rm0 => add_loop n t (S i) (member_found t i mm rm0 c)
             end
    end.
Proof. reflexivity. Qed.

Lemma update_nth_twice (A : Type) (v : list A) i (x y : A) :
  update_nth (update_nth v i (fun _ => x)) i (fun _ => y) = update_nth v i (fun _ => y).
Proof.
  revert i. induction v as [|a v IH]; intros [|i]; simpl; try reflexivity.
  rewrite IH. reflexivity.
Qed.

Lemma member_found_spec t i mm rm0 c :
  let c2 := member_found t i mm rm0 c in
  m_relations_buffer c2 = m_relations_buffer c /\
  (exists rm', m_relations c2 = update_nth (m_relations c) (relation_pos mm) (fun _ => rm') /\
               need_members rm' = (need_members rm0 - 1)%Z /\
               (rm' = RelationMeta_empty \/ relation_offset rm' = relation_offset rm0)) /\
  evolves c c2 /\
  events c2 = events c ++ member_found_events t i mm rm0 c.
Proof.
  unfold member_found, member_found_events.
  set (rm := got_one_member rm0).
  set (c1 := set_relations c _).
  destruct (has_all_members rm) eqn:E.
  - unfold on_complete.
    set (c3 := log_event c1 _). set (c4 := clear_member_metas c3 rm).
    set (c5 := set_relations c4 _).
    destruct (clear_member_metas_frame c3 rm) as (A1 & A2 & A3 & A4 & _).
    fold c4 in A1, A2, A3, A4.
    destruct (possibly_purge_frame c5) as (B1 & B2 & B3).
    destruct (possibly_purge_step c5) as (B4 & _).
    cbv zeta. split; [|split; [|split]].
    + rewrite B2. unfold c5. cbn. rewrite A2. reflexivity.
    + exists RelationMeta_empty. split; [|split; [|left; reflexivity]].
      * rewrite B1. unfold c5. cbn. rewrite A1. unfold c3, c1. cbn.
        apply update_nth_twice.
      * unfold has_all_members in E. apply Z.eqb_eq in E. unfold rm in E.
        simpl in E. simpl. lia.
    + apply (evolves_trans c c4).
      * apply (evolves_trans c c3); [apply evolves_same_vectors; intros []; reflexivity|].
        apply clear_member_metas_evolves.
      * intros t'. specialize (B3 t').
        assert (member_meta c5 t' = member_meta c4 t') as Hv by (destruct t'; reflexivity).
        rewrite Hv in B3. eapply Forall2_impl; [|exact B3]. apply relocated_evolves.
    + rewrite B4. unfold events. unfold c5. cbn [m_log set_relations m_count_complete].
      rewrite A3, A4. unfold c3, c1. cbn. rewrite <- app_assoc. reflexivity.
  - cbv zeta. split; [reflexivity|]. split; [|split].
    + exists rm. split; [reflexivity|]. split; [reflexivity | right; reflexivity].
    + apply evolves_same_vectors. intros []; reflexivity.
    + rewrite app_nil_r. reflexivity.
Qed.

(** ** Pass 2: the loop of [find_and_add_object] (C3) *)

Lemma skipn_nth_error (A : Type) (v : list A) i a :
  nth_error v i = Some a -> skipn i v = a :: skipn (S i) v.
Proof.
  revert i. induction v as [|x v IH]; intros [|i] H; simpl in *; try discriminate.
  - injection H as ->. reflexivity.
  - apply IH. exact H.
Qed.

Lemma count_pos_0 v i p : count_pos v i 0 p = 0.
Proof. reflexivity. Qed.

Lemma count_pos_S v i k p mm :
  nth_error v i = Some mm ->
  count_pos v i (S k) p = (if relation_pos mm =? p then 1 else 0) + count_pos v (S i) k p.
Proof.
  intros H. unfold count_pos. rewrite (skipn_nth_error _ v i mm H).
  cbn [firstn filter]. destruct (relation_pos mm =? p); reflexivity.
Qed.

Lemma completed_mm_indices_app l1 l2 :
  completed_mm_indices (l1 ++ l2) = completed_mm_indices l1 ++ completed_mm_indices l2.
Proof.
  induction l1 as [|e l1 IH]; simpl; [reflexivity|].
  destruct e; simpl; rewrite IH; reflexivity.
Qed.

Lemma completed_positions_app l1 l2 :
  completed_positions (l1 ++ l2) = completed_positions l1 ++ completed_positions l2.
Proof.
  induction l1 as [|e l1 IH]; simpl; [reflexivity|].
  destruct e; simpl; rewrite IH; reflexivity.
Qed.

Lemma evolves_nth_error_back c c' t j b :
  evolves c c' -> nth_error (member_meta c' t) j = Some b ->
  exists a, nth_error (member_meta c t) j = Some a /\ mm_evolves a b.
Proof.
  intros H. specialize (H t). revert j.
  induction H as [|x y u v Hxy _ IH]; intros [|j] Hj; simpl in *; try discriminate.
  - injection Hj as <-. eauto.
  - apply IH. exact Hj.
Qed.

Lemma evolves_nth_error c c' t j a :
  evolves c c' -> nth_error (member_meta c t) j = Some a ->
  exists b, nth_error (member_meta c' t) j = Some b /\ mm_evolves a b.
Proof. intros H. apply Forall2_nth_error. apply H. Qed.

Lemma completion_ok_back c c' t e :
  evolves c c' -> completion_ok t (member_meta c' t) e -> completion_ok t (member_meta c t) e.
Proof.
  intros H. destruct e; simpl; auto. intros (E1 & E2 & mm & Hmm & Hp).
  destruct (evolves_nth_error_back c c' t _ _ H Hmm) as [a [Ha (_ & Hpos & _)]].
  repeat split; auto. exists a. split; [exact Ha | congruence].
Qed.

Lemma member_found_events_indices t i mm rm0 c :
  completed_mm_indices (member_found_events t i mm rm0 c) =
    if has_all_members (got_one_member rm0) then [i] else [].
Proof.
  unfold member_found_events. destruct (has_all_members (got_one_member rm0));
    [|reflexivity].
  simpl. destruct (10000 <? m_count_complete c + 1)%Z; reflexivity.
Qed.

Lemma member_found_events_ok t i mm rm0 c :
  nth_error (member_meta c t) i = Some mm ->
  Forall (completion_ok t (member_meta c t)) (member_found_events t i mm rm0 c).
Proof.
  intros Hmm. unfold member_found_events.
  destruct (has_all_members (got_one_member rm0)) eqn:E; [|constructor].
  constructor.
  - simpl. repeat split; [apply Z.eqb_eq; exact E | eauto].
  - destruct (10000 <? m_count_complete c + 1)%Z; repeat constructor.
Qed.

Lemma add_loop_spec n t : forall i c,
  exists k new,
    k <= n /\
    events (add_loop n t i c) = events c ++ new /\
    evolves c (add_loop n t i c) /\
    m_relations_buffer (add_loop n t i c) = m_relations_buffer c /\
    List.length (m_relations (add_loop n t i c)) = List.length (m_relations c) /\
    (forall p rm, nth_error (m_relations c) p = Some rm ->
       exists rm', nth_error (m_relations (add_loop n t i c)) p = Some rm' /\
         need_members rm' =
           (need_members rm - Z.of_nat (count_pos (member_meta c t) i k p))%Z) /\
    (k = n \/ nth_error (member_meta c t) (i + k) = None \/
     exists mm, nth_error (member_meta (add_loop n t i c) t) (i + k) = Some mm /\
                removed mm = true) /\
    StronglySorted lt (completed_mm_indices new) /\
    Forall (fun j => i <= j < i + k) (completed_mm_indices new) /\
    Forall (completion_ok t (member_meta c t)) new.
Proof.
  induction n as [|n IH]; intros i c.
  - exists 0, []. simpl. rewrite app_nil_r.
    split; [lia|]. split; [reflexivity|]. split; [apply evolves_refl|].
    split; [reflexivity|]. split; [reflexivity|].
    split; [intros p rm H; exists rm; split; [exact H | lia]|].
    split; [left; reflexivity|]. split; [constructor|]. split; constructor.
  - rewrite add_loop_S. destruct (nth_error (member_meta c t) i) as [mm|] eqn:Hmm.
    2:{ exists 0, []. rewrite app_nil_r, Nat.add_0_r.
        split; [lia|]. split; [reflexivity|]. split; [apply evolves_refl|].
        split; [reflexivity|]. split; [reflexivity|].
        split; [intros p rm H; exists rm; split; [exact H | simpl; lia]|].
        split; [right; left; exact Hmm|]. split; [constructor|]. split; constructor. }
    destruct (removed mm) eqn:Hrem.
    { exists 0, []. rewrite app_nil_r, Nat.add_0_r.
      split; [lia|]. split; [reflexivity|]. split; [apply evolves_refl|].
      split; [reflexivity|]. split; [reflexivity|].
      split; [intros p rm H; exists rm; split; [exact H | simpl; lia]|].
      split; [right; right; eauto|]. split; [constructor|]. split; constructor. }
    destruct (nth_error (m_relations c) (relation_pos mm)) as [rm0|] eqn:Hrm0.
    + (* one step, then the rest of the loop *)
      destruct (member_found_spec t i mm rm0 c) as (S1 & (rm1 & S2 & S3 & _) & S4 & S5).
      set (c2 := member_found t i mm rm0 c) in *.
      destruct (IH (S i) c2) as (k & new & K1 & K2 & K3 & K4 & K5 & K6 & K7 & K8 & K9 & K10).
      exists (S k), (member_found_events t i mm rm0 c ++ new).
      split; [lia|]. split; [rewrite K2, S5, app_assoc; reflexivity|].
      split; [apply (evolves_trans _ _ _ S4 K3)|].
      split; [congruence|].
      split; [rewrite K5, S2, update_nth_length; reflexivity|].
      split; [|split; [|split; [|split]]].
      * intros p rm Hp.
        assert (nth_error (m_relations c2) p =
                Some (if p =? relation_pos mm then rm1 else rm)) as Hp2.
        { rewrite S2, nth_error_update_nth, Hp. destruct (p =? relation_pos mm); reflexivity. }
        destruct (K6 p _ Hp2) as (rm' & R1 & R2). exists rm'. split; [exact R1|].
        rewrite R2, (evolves_count_pos c c2 t (S i) k p S4), (count_pos_S _ _ k p mm Hmm).
        destruct (p =? relation_pos mm) eqn:E.
        -- apply Nat.eqb_eq in E. subst p. rewrite Nat.eqb_refl.
           assert (rm = rm0) as -> by congruence. lia.
        -- rewrite Nat.eqb_sym, E. lia.
      * replace (i + S k) with (S i + k) by lia.
        destruct K7 as [-> | [K7 | K7]]; [left; reflexivity | right; left | right; right; exact K7].
        destruct (nth_error (member_meta c t) (S i + k)) as [a|] eqn:Ha; [|reflexivity].
        destruct (evolves_nth_error c c2 t _ _ S4 Ha) as [b [Hb _]]. congruence.
      * rewrite completed_mm_indices_app, member_found_events_indices.
        destruct (has_all_members (got_one_member rm0)); [|exact K8].
        simpl. constructor; [exact K8|].
        eapply Forall_impl; [|exact K9]. simpl. intros; lia.
      * rewrite completed_mm_indices_app, member_found_events_indices.
        apply Forall_app. split.
        -- destruct (has_all_members (got_one_member rm0)); repeat constructor; lia.
        -- eapply Forall_impl; [|exact K9]. simpl. intros; lia.
      * apply Forall_app. split; [apply member_found_events_ok; exact Hmm|].
        eapply Forall_impl; [|exact K10]. intros e. apply completion_ok_back. exact S4.
    + (* a relation_pos out of range: nothing is done for this record *)
      destruct (IH (S i) c) as (k & new & K1 & K2 & K3 & K4 & K5 & K6 & K7 & K8 & K9 & K10).
      exists (S k), new.
      split; [lia|]. split; [exact K2|]. split; [exact K3|]. split; [exact K4|].
      split; [exact K5|]. split; [|split; [|split; [|split]]].
      * intros p rm Hp. destruct (K6 p rm Hp) as (rm' & R1 & R2). exists rm'.
        split; [exact R1|]. rewrite R2, (count_pos_S _ _ k p mm Hmm).
        destruct (relation_pos mm =? p) eqn:E; [|lia].
        apply Nat.eqb_eq in E. congruence.
      * replace (i + S k) with (S i + k) by lia.
        destruct K7 as [-> | K7]; [left; reflexivity | right; exact K7].
      * exact K8.
      * eapply Forall_impl; [|exact K9]. simpl. intros; lia.
      * exact K10.
Qed.

Lemma set_buffer_offset_evolves a off : mm_evolves a (set_buffer_offset a off).
Proof. apply relocated_evolves. right. eauto. Qed.

(** The state in which the second loop of [find_and_add_object] starts:
    the object is stored and the offsets of the range are set. *)
Lemma find_and_add_object_found c object :
  let t := obj_type object in
  let r := find_member_meta c t (obj_id object) in
  count_not_removed (member_meta c t) r <> 0 ->
  find_and_add_object c object =
    (true,
     add_loop (snd r - fst r) t (fst r)
       (set_member_meta
          (set_members_buffer c (snd (commit (add_item (m_members_buffer c) object)))) t
          (update_range (member_meta c t) (fst r) (snd r)
             (fun mm => set_buffer_offset mm
                          (fst (commit (add_item (m_members_buffer c) object))))))).
Proof.
  intros t r H. unfold find_and_add_object. fold t. fold r.
  destruct (count_not_removed (member_meta c t) r =? 0) eqn:E;
    [apply Nat.eqb_eq in E; contradiction|].
  unfold commit. cbn [fst snd]. rewrite member_meta_set_members_buffer.
  reflexivity.
Qed.

Lemma find_and_add_object_not_found c object :
  count_not_removed (member_meta c (obj_type object))
    (find_member_meta c (obj_type object) (obj_id object)) = 0 ->
  find_and_add_object c object = (false, c).
Proof. intros H. unfold find_and_add_object. rewrite H. reflexivity. Qed.

Lemma find_and_add_object_evolves c object : evolves c (snd (find_and_add_object c object)).
Proof.
  destruct (Nat.eq_dec (count_not_removed (member_meta c (obj_type object))
              (find_member_meta c (obj_type object) (obj_id object))) 0) as [E | E].
  - rewrite (find_and_add_object_not_found c object E). apply evolves_refl.
  - rewrite (find_and_add_object_found c object E). cbn [snd].
    set (r := find_member_meta c (obj_type object) (obj_id object)).
    set (c2 := set_member_meta _ (obj_type object) _).
    destruct (add_loop_spec (snd r - fst r) (obj_type object) (fst r) c2)
      as (k & new & _ & _ & K3 & _).
    apply (evolves_trans c c2); [|exact K3].
    intros t'. unfold c2. destruct (item_type_eq_dec (obj_type object) t') as [<- | Hne].
    + rewrite member_meta_set_same. apply Forall2_update_range;
        [apply mm_evolves_refl | intros a; apply set_buffer_offset_evolves].
    + rewrite member_meta_set_other by exact Hne. rewrite member_meta_set_members_buffer.
      apply Forall2_refl_all, mm_evolves_refl.
Qed.



(** ** No relation is completed twice (C2) *)

Lemma member_found_events_positions t i mm rm0 c :
  completed_positions (member_found_events t i mm rm0 c) =
    if has_all_members (got_one_member rm0) then [relation_pos mm] else [].
Proof.
  unfold member_found_events. destruct (has_all_members (got_one_member rm0));
    [|reflexivity].
  simpl. destruct (10000 <? m_count_complete c + 1)%Z; reflexivity.
Qed.

Lemma member_found_once t i mm rm0 c :
  nth_error (m_relations c) (relation_pos mm) = Some rm0 ->
  completed_once c -> completed_once (member_found t i mm rm0 c).
Proof.
  intros Hrm0 [Hnd Hle].
  destruct (member_found_spec t i mm rm0 c) as (_ & (rm1 & S2 & S3 & _) & _ & S5).
  unfold completed_once. rewrite S5, completed_positions_app, member_found_events_positions, S2.
  destruct (has_all_members (got_one_member rm0)) eqn:E.
  - unfold has_all_members in E. apply Z.eqb_eq in E. simpl in E.
    assert (~ In (relation_pos mm) (completed_positions (events c))) as Hnew.
    { intros Hin. specialize (Hle _ _ Hin Hrm0). lia. }
    split.
    + apply NoDup_app; [exact Hnd | repeat constructor; intros [] |].
      intros p Hp [<- | []]. contradiction.
    + intros p rm Hp Hn. rewrite nth_error_update_nth in Hn.
      destruct (p =? relation_pos mm) eqn:Ep.
      * apply Nat.eqb_eq in Ep. subst p. rewrite Hrm0 in Hn. simpl in Hn.
        injection Hn as <-. lia.
      * apply in_app_or in Hp. destruct Hp as [Hp | [<- | []]].
        -- apply (Hle p rm Hp Hn).
        -- rewrite Nat.eqb_refl in Ep. discriminate.
  - rewrite app_nil_r. split; [exact Hnd|].
    intros p rm Hp Hn. rewrite nth_error_update_nth in Hn.
    destruct (p =? relation_pos mm) eqn:Ep.
    + apply Nat.eqb_eq in Ep. subst p. rewrite Hrm0 in Hn. simpl in Hn.
      injection Hn as <-. specialize (Hle _ _ Hp Hrm0). lia.
    + apply (Hle p rm Hp Hn).
Qed.


Lemma completed_once_same c c' :
  m_relations c' = m_relations c -> completed_positions (events c') = completed_positions (events c) ->
  completed_once c -> completed_once c'.
Proof. unfold completed_once. intros -> ->. tauto. Qed.


Section SecondPassOnce.

Context {hooks : Hooks}.



Lemma add_members_log ms : forall n offset st,
  m_log (fst (add_members ms n offset st)) = m_log (fst st).
Proof.
  induction ms as [|m ms IH]; intros n offset [c rm]; [reflexivity|].
  cbn [add_members]. rewrite IH. destruct (keep_member rm m); [|reflexivity].
  cbn [fst]. apply set_member_meta_frame.
Qed.

Lemma read_relations_log input : forall c, m_log (read_relations c input) = m_log c.
Proof.
  unfold read_relations. intros c.
  assert (forall c', m_log (sort_member_meta c') = m_log c') as -> by reflexivity.
  revert c. induction input as [|o input IH]; intros c; [reflexivity|].
  simpl. rewrite IH. unfold handler_pass1. destruct (obj_type o); try reflexivity.
  destruct (keep_relation o); [|reflexivity].
  unfold add_relation.
  set (st := add_members _ 0 _ _).
  pose proof (add_members_log
    (match buffer_get (m_relations_buffer
        (set_relations_buffer c (add_item (m_relations_buffer c) o)))
        (committed (m_relations_buffer c)) with
     | Some r => obj_members r | None => [] end) 0 (committed (m_relations_buffer c))
    (set_relations_buffer c (add_item (m_relations_buffer c) o),
     RelationMeta_at (committed (m_relations_buffer c)))) as L.
  fold st in L. destruct st as [c1 rm1]. cbn [fst] in L.
  destruct (has_all_members rm1); cbn; exact L.
Qed.


End SecondPassOnce.

(** ** Without a compaction the offsets stay (C2) *)

Lemma flagged_refl a : flagged a a.
Proof. left. reflexivity. Qed.

Lemma flagged_trans a b c : flagged a b -> flagged b c -> flagged a c.
Proof.
  intros [-> | ->] [-> | ->]; try (left; reflexivity); right; reflexivity.
Qed.

Lemma flagged_size a b : flagged a b -> obj_padded_size b = obj_padded_size a.
Proof. intros [-> | ->]; reflexivity. Qed.

Lemma update_at_flagged items : forall off,
  Forall2 flagged items (update_at items off (fun o => set_removed o true)).
Proof.
  induction items as [|x items IH]; intros off; simpl; [constructor|].
  destruct (off =? 0).
  - constructor; [right; reflexivity | apply Forall2_refl_all, flagged_refl].
  - destruct (off <? obj_padded_size x).
    + apply Forall2_refl_all, flagged_refl.
    + constructor; [apply flagged_refl | apply IH].
Qed.

Lemma get_at_flagged items items' : Forall2 flagged items items' ->
  forall off a, get_at items off = Some a ->
  exists b, get_at items' off = Some b /\ flagged a b.
Proof.
  induction 1 as [|x y items items' Hxy _ IH]; intros off a Ha; simpl in *; [discriminate|].
  rewrite (flagged_size _ _ Hxy). destruct (off =? 0).
  - injection Ha as <-. eauto.
  - destruct (off <? obj_padded_size x); [discriminate|]. apply IH. exact Ha.
Qed.

Lemma quiet_refl c : quiet c c.
Proof.
  split; [|split; [|reflexivity]].
  - intros t. apply Forall2_refl_all. reflexivity.
  - apply Forall2_refl_all, flagged_refl.
Qed.

Lemma quiet_trans c1 c2 c3 : quiet c1 c2 -> quiet c2 c3 -> quiet c1 c3.
Proof.
  intros (A1 & A2 & A3) (B1 & B2 & B3). split; [|split; [|congruence]].
  - intros t. eapply Forall2_trans_all; [|apply A1|apply B1].
    intros a b c H1 H2. cbv beta in *. congruence.
  - eapply Forall2_trans_all; [apply flagged_trans | exact A2 | exact B2].
Qed.

Lemma quiet_same c c' :
  (forall t, member_meta c' t = member_meta c t) ->
  m_members_buffer c' = m_members_buffer c -> quiet c c'.
Proof.
  intros H1 H2. split; [|split; [|rewrite H2; reflexivity]].
  - intros t. rewrite H1. apply Forall2_refl_all. reflexivity.
  - rewrite H2. apply Forall2_refl_all, flagged_refl.
Qed.

Lemma clear_member_quiet c rel m : quiet c (clear_member c rel m).
Proof.
  unfold clear_member. destruct (member_ref m =? 0)%Z; [apply quiet_refl|].
  set (t0 := member_type m).
  set (range := find_member_meta c t0 (member_ref m)).
  set (c1 := if count_not_removed (member_meta c t0) range =? 1 then _ else c).
  assert (quiet c c1) as Q1.
  { unfold c1. destruct (count_not_removed (member_meta c t0) range =? 1);
      [|apply quiet_refl].
    destruct (nth_error (member_meta c t0) (fst range)) as [first|]; [|apply quiet_refl].
    destruct (buffer_offset first) as [off|]; [|apply quiet_refl].
    split; [|split; [|reflexivity]].
    - intros t. rewrite member_meta_set_members_buffer. apply Forall2_refl_all. reflexivity.
    - cbn. apply update_at_flagged. }
  destruct (first_match _ (range_elems (member_meta c1 t0) range)) as [j|];
    [|exact Q1].
  apply (quiet_trans c c1); [exact Q1|].
  split; [|split].
  - intros t. destruct (item_type_eq_dec t0 t) as [<- | Hne].
    + rewrite member_meta_set_same. apply Forall2_update_nth; reflexivity.
    + rewrite member_meta_set_other by exact Hne. apply Forall2_refl_all. reflexivity.
  - destruct (set_member_meta_frame c1 t0
                (update_nth (member_meta c1 t0) (fst range + j) remove)) as (_ & -> & _).
    apply Forall2_refl_all, flagged_refl.
  - destruct (set_member_meta_frame c1 t0
                (update_nth (member_meta c1 t0) (fst range + j) remove)) as (_ & -> & _).
    reflexivity.
Qed.

Lemma clear_member_metas_quiet c rm : quiet c (clear_member_metas c rm).
Proof.
  unfold clear_member_metas. destruct (get_relation_of_meta c rm) as [rel|];
    [|apply quiet_refl].
  generalize (obj_members rel). intros ms. revert c.
  induction ms as [|m ms IH]; intros c; simpl; [apply quiet_refl|].
  apply (quiet_trans c (clear_member c rel m)); [apply clear_member_quiet | apply IH].
Qed.

Lemma member_found_quiet t i mm rm0 c :
  (m_count_complete c + 1 <= 10000)%Z ->
  quiet c (member_found t i mm rm0 c) /\
  (m_count_complete (member_found t i mm rm0 c) <= m_count_complete c + 1)%Z.
Proof.
  intros Hc. unfold member_found.
  set (rm := got_one_member rm0). set (c1 := set_relations c _).
  destruct (has_all_members rm).
  - unfold on_complete.
    set (c3 := log_event c1 _). set (c4 := clear_member_metas c3 rm).
    set (c5 := set_relations c4 _).
    destruct (clear_member_metas_frame c3 rm) as (_ & _ & _ & A4 & _). fold c4 in A4.
    assert (m_count_complete c5 = m_count_complete c) as H5 by (unfold c5; cbn; exact A4).
    unfold possibly_purge_removed_members. cbn [m_count_complete set_count_complete].
    rewrite H5. destruct (m_count_complete c + 1 >? 10000)%Z eqn:E;
      [rewrite Z.gtb_ltb in E; apply Z.ltb_lt in E; lia|].
    split; [|cbn; lia].
    apply (quiet_trans c c4).
    + apply (quiet_trans c c3); [apply quiet_same; [intros []|]; reflexivity|].
      apply clear_member_metas_quiet.
    + apply quiet_same; [intros []|]; reflexivity.
  - split; [apply quiet_same; [intros []|]; reflexivity | cbn; lia].
Qed.



Section Duplicates.

Context {hooks : Hooks}.


End Duplicates.

(** ** Pass 1 in detail (C6) *)

Lemma same_header_refl a : same_header a a.
Proof. unfold same_header. tauto. Qed.

Lemma same_header_trans a b c : same_header a b -> same_header b c -> same_header a c.
Proof. unfold same_header. intros (A1 & A2 & A3) (B1 & B2 & B3). repeat split; congruence. Qed.

Lemma update_at_same_header items f : forall off,
  (forall o, same_header o (f o)) -> Forall2 same_header items (update_at items off f).
Proof.
  induction items as [|x items IH]; intros off Hf; simpl; [constructor|].
  destruct (off =? 0).
  - constructor; [apply Hf | apply Forall2_refl_all, same_header_refl].
  - destruct (off <? obj_padded_size x).
    + apply Forall2_refl_all, same_header_refl.
    + constructor; [apply same_header_refl | apply IH; exact Hf].
Qed.

Lemma outstanding_in_app A t u v p :
  outstanding_in A t (u ++ v) p = outstanding_in A t u p + outstanding_in A t v p.
Proof. unfold outstanding_in. rewrite filter_app, length_app. reflexivity. Qed.

Lemma outstanding_in_perm A t u v p :
  Permutation u v -> outstanding_in A t u p = outstanding_in A t v p.
Proof.
  unfold outstanding_in. intros H. induction H; simpl.
  - reflexivity.
  - destruct (_ && _); simpl; rewrite IHPermutation; reflexivity.
  - destruct ((relation_pos y =? p) && _), ((relation_pos x =? p) && _); reflexivity.
  - rewrite IHPermutation1. exact IHPermutation2.
Qed.

Lemma outstanding_in_none A t v p :
  Forall (fun mm => relation_pos mm <> p) v -> outstanding_in A t v p = 0.
Proof.
  unfold outstanding_in. induction 1 as [|x v Hx _ IH]; simpl; [reflexivity|].
  apply Nat.eqb_neq in Hx. rewrite Hx. simpl. exact IH.
Qed.

Lemma outstanding_in_new t v p :
  Forall (fun mm => relation_pos mm = p /\ removed mm = false) v ->
  outstanding_in [] t v p = List.length v.
Proof.
  unfold outstanding_in. induction 1 as [|x v [Hx _] _ IH]; [reflexivity|].
  cbn [filter]. rewrite Hx, Nat.eqb_refl.
  change (negb (arrivedb [] t (member_id x))) with true. cbn [andb List.length].
  rewrite IH. reflexivity.
Qed.

Lemma same_header_lists u u' :
  Forall2 same_header u u' ->
  map key u' = map key u /\
  bytes u' = bytes u /\
  (forall b, offsets_from b u' = offsets_from b u) /\
  (Forall (fun x => 0 < obj_padded_size x) u -> Forall (fun x => 0 < obj_padded_size x) u').
Proof.
  induction 1 as [|x y u u' (H1 & H2 & H3) _ (I1 & I2 & I3 & I4)]; simpl.
  - repeat split; auto.
  - unfold key at 1 3. rewrite H1, H2, H3, I1, I2. repeat split.
    + intros b. rewrite I3. reflexivity.
    + intros H. inversion H; subst. constructor; [lia | auto].
Qed.

Lemma offsets_from_app u v b :
  offsets_from b (u ++ v) = offsets_from b u ++ offsets_from (b + bytes u) v.
Proof.
  revert b. induction u as [|x u IH]; intros b; simpl.
  - rewrite Nat.add_0_r. reflexivity.
  - rewrite IH. do 3 f_equal. lia.
Qed.

Section FirstPassDetail.

Context {hooks : Hooks}.

Lemma add_members_spec ms : forall n offset c rm,
  let st := add_members ms n offset (c, rm) in
  m_relations (fst st) = m_relations c /\
  m_log (fst st) = m_log c /\
  b_ncommitted (m_relations_buffer (fst st)) = b_ncommitted (m_relations_buffer c) /\
  Forall2 same_header (b_items (m_relations_buffer c))
                      (b_items (m_relations_buffer (fst st))) /\
  relation_offset (snd st) = relation_offset rm /\
  exists new : item_type -> list MemberMeta,
    (forall t, member_meta (fst st) t = member_meta c t ++ new t) /\
    (forall t, Forall (fun mm => relation_pos mm = List.length (m_relations c) /\
                                 removed mm = false) (new t)) /\
    need_members (snd st) =
      (need_members rm +
       Z.of_nat (List.length (new node) + List.length (new way)
                 + List.length (new relation)))%Z.
Proof.
  induction ms as [|m ms IH]; intros n offset c rm; cbv zeta.
  - simpl. repeat split; try reflexivity.
    + apply Forall2_refl_all, same_header_refl.
    + exists (fun _ => []). split; [|split].
      * intros t. rewrite app_nil_r. reflexivity.
      * intros t. constructor.
      * cbn. lia.
  - cbn [add_members]. destruct (keep_member rm m).
    + set (mm0 := MemberMeta_new (member_ref m) (List.length (m_relations c)) n).
      set (c' := set_member_meta c (member_type m) (member_meta c (member_type m) ++ [mm0])).
      destruct (set_member_meta_frame c (member_type m)
                  (member_meta c (member_type m) ++ [mm0])) as (F1 & _ & F3 & _ & F5).
      fold c' in F1, F3, F5.
      specialize (IH (S n) offset c' (increment_need_members rm)). cbv zeta in IH.
      destruct IH as (A1 & A2 & A3 & A4 & A5 & new & A6 & A7 & A8).
      rewrite A1, A2, A3, A5, F3, F5, F1. rewrite F1 in A4.
      repeat split; try assumption.
      exists (fun t => (if item_type_eq_dec (member_type m) t then [mm0] else []) ++ new t).
      split; [|split].
      * intros t. rewrite A6. unfold c'.
        destruct (item_type_eq_dec (member_type m) t) as [<- | Hne].
        -- rewrite member_meta_set_same, <- app_assoc. reflexivity.
        -- rewrite member_meta_set_other by exact Hne. reflexivity.
      * intros t. apply Forall_app. split.
        -- destruct (item_type_eq_dec (member_type m) t); repeat constructor.
        -- rewrite F3 in A7. apply A7.
      * rewrite A8. cbn [increment_need_members need_members].
        rewrite !length_app. destruct (member_type m); simpl; lia.
    + set (c' := set_relations_buffer c _).
      specialize (IH (S n) offset c' rm). cbv zeta in IH.
      destruct IH as (A1 & A2 & A3 & A4 & A5 & new & A6 & A7 & A8).
      rewrite A1, A2, A3, A5. repeat split; try reflexivity.
      * eapply Forall2_trans_all; [apply same_header_trans | | exact A4].
        unfold c'. cbn. apply update_at_same_header. intros o. unfold same_header. tauto.
      * exists new. split; [|split; assumption].
        intros t. rewrite A6. unfold c'. destruct t; reflexivity.
Qed.

End FirstPassDetail.

Lemma outstanding_same_vectors c c' A p :
  (forall t, member_meta c' t = member_meta c t) -> outstanding c' A p = outstanding c A p.
Proof. intros H. unfold outstanding. rewrite !H. reflexivity. Qed.

Lemma outstanding_added c c' new p :
  (forall t, member_meta c' t = member_meta c t ++ new t) ->
  outstanding c' [] p =
    outstanding c [] p + (outstanding_in [] node (new node) p
                          + outstanding_in [] way (new way) p
                          + outstanding_in [] relation (new relation) p).
Proof.
  intros H. unfold outstanding. rewrite !H, !outstanding_in_app. lia.
Qed.

Lemma outstanding_in_valid A t v p n :
  Forall (fun mm => removed mm = false /\ relation_pos mm < n) v -> n <= p ->
  outstanding_in A t v p = 0.
Proof.
  intros H Hp. apply outstanding_in_none. eapply Forall_impl; [|exact H].
  cbv beta. intros a [_ Ha]. lia.
Qed.

Section FirstPassInvariant.

Context {hooks : Hooks}.

Lemma add_relation_pass1 done c rel :
  pass1_ok done c -> obj_type rel = relation ->
  ~ In (key rel) (map key done) -> 0 < obj_padded_size rel ->
  pass1_ok (done ++ [rel]) (add_relation c rel).
Proof.
  intros (Hwf & Hkeys & Hnd & Hoff & Hmm & Hneed & Hlog) Hrel Hnew Hpos.
  assert (Forall (fun k => fst k = relation /\ In k (map key (done ++ [rel])))
                 (map key (b_items (m_relations_buffer c)))) as Hkeys'.
  { eapply Forall_impl; [|exact Hkeys]. cbv beta. intros k [Hk1 Hk2].
    split; [exact Hk1 | rewrite map_app; apply in_or_app; left; exact Hk2]. }
  unfold add_relation.
  set (offset := committed (m_relations_buffer c)).
  set (c0 := set_relations_buffer c (add_item (m_relations_buffer c) rel)).
  set (ms := match buffer_get (m_relations_buffer c0) offset with
             | Some r => obj_members r | None => [] end).
  pose proof (add_members_spec ms 0 offset c0 (RelationMeta_at offset)) as S.
  cbv zeta in S.
  destruct (add_members ms 0 offset (c0, RelationMeta_at offset)) as [c1 rm1].
  cbn [fst snd] in S. destruct S as (A1 & A2 & A3 & A4 & A5 & new & A6 & A7 & A8).
  change (m_relations c0) with (m_relations c) in *.
  change (m_log c0) with (m_log c) in *.
  change (b_items (m_relations_buffer c0)) with (b_items (m_relations_buffer c) ++ [rel]) in A4.
  change (b_ncommitted (m_relations_buffer c0))
    with (b_ncommitted (m_relations_buffer c)) in A3.
  assert (forall t, member_meta c1 t = member_meta c t ++ new t) as A6'
    by (intros t; rewrite A6; destruct t; reflexivity).
  clear A6. cbn [RelationMeta_at relation_offset need_members] in A5, A8.
  apply Forall2_app_inv_l in A4. destruct A4 as (u' & x' & HU & HX & E1).
  inversion HX as [|? r' ? ? Hr HX' ]; subst. inversion HX'; subst. clear HX HX'.
  destruct (same_header_lists _ _ HU) as (K1 & K2 & K3 & K4).
  destruct Hwf as [Hn Hp]. pose proof (Forall2_length HU) as HL.
  assert (offset = bytes (b_items (m_relations_buffer c))) as Hoffset
    by (unfold offset; apply committed_wf; split; assumption).
  unfold has_all_members. destruct (need_members rm1 =? 0)%Z eqn:E.
  - (* nothing kept: rolled back *)
    apply Z.eqb_eq in E.
    assert (forall t, new t = []) as Hnone.
    { intros t. apply length_zero_iff_nil. destruct t; lia. }
    set (cR := set_relations_buffer c1 (rollback (m_relations_buffer c1))).
    assert (forall t, member_meta cR t = member_meta c t) as Hv.
    { intros t. transitivity (member_meta c1 t); [destruct t; reflexivity|].
      rewrite A6', Hnone, app_nil_r. reflexivity. }
    assert (m_relations_buffer cR = mkBuffer u' (List.length u')) as HB.
    { unfold cR, rollback. cbn. rewrite E1, A3, Hn, HL, firstn_app, Nat.sub_diag, firstn_all.
      cbn. rewrite app_nil_r. reflexivity. }
    assert (m_relations cR = m_relations c) as HR by exact A1.
    assert (m_log cR = m_log c) as HLg by exact A2.
    unfold pass1_ok, buffer_wf. rewrite HB, HR, HLg. cbn [b_items b_ncommitted].
    split; [split; [reflexivity | apply K4; exact Hp]|].
    split; [rewrite K1; exact Hkeys'|].
    split; [rewrite K1; exact Hnd|]. split; [rewrite K3; exact Hoff|].
    split; [intros t; rewrite Hv; apply Hmm|].
    split; [|exact Hlog].
    intros p rm Hp'. rewrite (Hneed p rm Hp'). f_equal.
    symmetry. apply outstanding_same_vectors. exact Hv.
  - (* kept *)
    apply Z.eqb_neq in E.
    set (cR := set_relations _ _).
    assert (forall t, member_meta cR t = member_meta c t ++ new t) as Hv
      by (intros t; rewrite <- A6'; destruct t; reflexivity).
    assert (m_relations_buffer cR = mkBuffer (u' ++ [r']) (List.length (u' ++ [r']))) as HB
      by (unfold cR, commit; cbn; rewrite E1; reflexivity).
    assert (m_relations cR = m_relations c ++ [rm1]) as HR
      by (unfold cR; cbn; rewrite A1; reflexivity).
    assert (m_log cR = m_log c) as HLg by exact A2.
    unfold pass1_ok, buffer_wf. rewrite HB, HR, HLg. cbn [b_items b_ncommitted].
    destruct Hr as (H1 & H2 & H3).
    split; [split; [reflexivity|]|].
    { apply Forall_app. split; [apply K4; exact Hp | repeat constructor; lia]. }
    assert (key r' = key rel) as Hkr by (unfold key; rewrite H1, H2; reflexivity).
    split.
    { rewrite (map_app key u' [r']), K1. apply Forall_app. split; [exact Hkeys'|].
      repeat constructor.
      - simpl. rewrite H1. exact Hrel.
      - rewrite map_app. apply in_or_app. right. left. symmetry. exact Hkr. }
    split.
    { rewrite (map_app key u' [r']), K1.
      apply NoDup_app; [exact Hnd | repeat constructor; intros [] |].
      intros k Hk [<- | []]. apply Hnew.
      rewrite Forall_forall in Hkeys. destruct (Hkeys _ Hk) as [_ Hin].
      rewrite <- Hkr. exact Hin. }
    split.
    { rewrite map_app, offsets_from_app, K3, K2, Hoff. simpl.
      rewrite A5, Hoffset. reflexivity. }
    split.
    { intros t. rewrite Hv. rewrite length_app. simpl. apply Forall_app. split.
      - eapply Forall_impl; [|apply Hmm]. cbv beta. intros a [Ha1 Ha2]. split; [exact Ha1 | lia].
      - eapply Forall_impl; [|apply A7]. cbv beta. intros a [Ha1 Ha2]. split; [exact Ha2 | lia]. }
    split; [|exact Hlog].
    intros p rm Hp'.
    rewrite (outstanding_added c cR new p Hv).
    destruct (Nat.lt_ge_cases p (List.length (m_relations c))) as [Hlt | Hge].
    + rewrite nth_error_app1 in Hp' by exact Hlt. rewrite (Hneed p rm Hp').
      rewrite !outstanding_in_none; [f_equal; lia | | |];
        (eapply Forall_impl; [|apply A7]; cbv beta; intros a [Ha _]; lia).
    + rewrite nth_error_app2 in Hp' by exact Hge.
      destruct (p - List.length (m_relations c)) as [|d] eqn:Ed;
        [|destruct d; discriminate].
      injection Hp' as <-. assert (p = List.length (m_relations c)) as -> by lia.
      rewrite A8, !outstanding_in_new by (apply A7).
      unfold outstanding.
      rewrite !(outstanding_in_valid [] _ _ _ (List.length (m_relations c)))
        by (try apply Hmm; lia).
      lia.
Qed.

End FirstPassInvariant.

Section FirstPassFacts.

Context {hooks : Hooks}.

Lemma pass1_ok_more done o c : pass1_ok done c -> pass1_ok (done ++ [o]) c.
Proof.
  intros (Hwf & Hkeys & Hrest). split; [exact Hwf|]. split; [|exact Hrest].
  eapply Forall_impl; [|exact Hkeys]. cbv beta. intros k [Hk1 Hk2].
  split; [exact Hk1 | rewrite map_app; apply in_or_app; left; exact Hk2].
Qed.

Lemma handler_pass1_ok done c o :
  pass1_ok done c -> ~ In (key o) (map key done) -> 0 < obj_padded_size o ->
  pass1_ok (done ++ [o]) (handler_pass1 c o).
Proof.
  intros H Hnew Hpos. unfold handler_pass1.
  destruct (obj_type o) eqn:E; try (apply pass1_ok_more; exact H).
  destruct (keep_relation o); [|apply pass1_ok_more; exact H].
  apply add_relation_pass1; assumption.
Qed.

Lemma pass1_fold_ok input : forall done c,
  pass1_ok done c -> NoDup (map key (done ++ input)) ->
  Forall (fun o => 0 < obj_padded_size o) input ->
  pass1_ok (done ++ input) (fold_left handler_pass1 input c).
Proof.
  induction input as [|o input IH]; intros done c H Hnd Hpos.
  - rewrite app_nil_r. exact H.
  - inversion Hpos; subst. simpl.
    replace (done ++ o :: input) with ((done ++ [o]) ++ input) in *
      by (rewrite <- app_assoc; reflexivity).
    apply IH; [|exact Hnd | assumption].
    apply handler_pass1_ok; [exact H | | assumption].
    rewrite !map_app in Hnd. apply NoDup_app_remove_r in Hnd.
    simpl in Hnd. apply NoDup_remove_2 in Hnd. rewrite app_nil_r in Hnd. exact Hnd.
Qed.

Lemma sort_member_meta_ok done c : pass1_ok done c -> pass1_ok done (sort_member_meta c).
Proof.
  intros (Hwf & Hkeys & Hnd & Hoff & Hmm & Hneed & Hlog).
  unfold pass1_ok.
  change (m_relations_buffer (sort_member_meta c)) with (m_relations_buffer c).
  change (m_relations (sort_member_meta c)) with (m_relations c).
  change (m_log (sort_member_meta c)) with (m_log c).
  split; [exact Hwf|]. split; [exact Hkeys|]. split; [exact Hnd|]. split; [exact Hoff|].
  split; [|split; [|exact Hlog]].
  - intros t. rewrite sort_member_meta_vectors.
    apply (Permutation_Forall (Permutation_sym (std_sort_perm _))). apply Hmm.
  - intros p rm Hp. rewrite (Hneed p rm Hp). f_equal. unfold outstanding.
    rewrite !sort_member_meta_vectors.
    rewrite !(outstanding_in_perm [] _ _ _ p (std_sort_perm _)). reflexivity.
Qed.

Lemma read_relations_ok input :
  NoDup (map key input) -> Forall (fun o => 0 < obj_padded_size o) input ->
  pass1_ok input (read_relations Collector_new input) /\
  forall t, non_decreasing (member_meta (read_relations Collector_new input) t).
Proof.
  intros Hnd Hpos. split.
  - unfold read_relations. apply sort_member_meta_ok.
    apply (pass1_fold_ok input [] Collector_new); [|exact Hnd | exact Hpos].
    unfold pass1_ok, buffer_wf. simpl. repeat split; try constructor.
    + intros []; constructor.
    + intros p rm Hp. destruct p; discriminate.
  - intros t. unfold read_relations. rewrite sort_member_meta_vectors. apply std_sort_sorted.
Qed.

End FirstPassFacts.

(** ** Counting the outstanding members (C6) *)

Lemma item_type_eqb_eq a b : item_type_eqb a b = true <-> a = b.
Proof.
  unfold item_type_eqb. rewrite Nat.eqb_eq. split; [|intros ->; reflexivity].
  destruct a, b; simpl; intros H; congruence.
Qed.

Lemma item_type_eqb_refl a : item_type_eqb a a = true.
Proof. apply item_type_eqb_eq. reflexivity. Qed.

Lemma arrivedb_app A k t id :
  arrivedb (A ++ [k]) t id =
    arrivedb A t id || (item_type_eqb (fst k) t && (snd k =? id)%Z).
Proof. unfold arrivedb. rewrite existsb_app. simpl. rewrite orb_false_r. reflexivity. Qed.

Lemma arrivedb_true A t id : arrivedb A t id = true <-> In (t, id) A.
Proof.
  unfold arrivedb. rewrite existsb_exists. split.
  - intros [[t' id'] [Hin H]]. simpl in H. apply andb_true_iff in H. destruct H as [H1 H2].
    apply item_type_eqb_eq in H1. apply Z.eqb_eq in H2. subst. exact Hin.
  - intros H. exists (t, id). split; [exact H|]. simpl.
    rewrite item_type_eqb_refl, Z.eqb_refl. reflexivity.
Qed.

Lemma outstanding_in_arrival A t x v p :
  arrivedb A t x = false ->
  outstanding_in A t v p = outstanding_in (A ++ [(t, x)]) t v p + count_id v x p.
Proof.
  intros Hx. unfold outstanding_in, count_id.
  induction v as [|a v IH]; [reflexivity|].
  cbn [filter]. rewrite arrivedb_app. cbn [fst snd]. rewrite item_type_eqb_refl.
  cbn [andb]. destruct (relation_pos a =? p); cbn [andb]; [|exact IH].
  destruct (x =? member_id a)%Z eqn:E.
  - apply Z.eqb_eq in E. subst x. rewrite Hx, Z.eqb_refl. cbn. rewrite IH. lia.
  - rewrite Z.eqb_sym, E, orb_false_r.
    destruct (arrivedb A t (member_id a)); cbn; rewrite IH; reflexivity.
Qed.

Lemma outstanding_in_other_kind A t x t' v p :
  t <> t' -> outstanding_in (A ++ [(t, x)]) t' v p = outstanding_in A t' v p.
Proof.
  intros Hne. unfold outstanding_in. f_equal. apply filter_ext. intros a.
  rewrite arrivedb_app. cbn [fst snd].
  destruct (item_type_eqb t t') eqn:E; [apply item_type_eqb_eq in E; contradiction|].
  cbn. rewrite orb_false_r. reflexivity.
Qed.

Lemma count_id_none v x p :
  Forall (fun mm => member_id mm <> x) v -> count_id v x p = 0.
Proof.
  unfold count_id. induction 1 as [|a v Ha _ IH]; [reflexivity|].
  cbn [filter]. apply Z.eqb_neq in Ha. rewrite Ha, andb_false_r. exact IH.
Qed.

Lemma count_pos_from_0 v k p :
  count_pos v 0 k p = List.length (filter (fun mm => relation_pos mm =? p) (firstn k v)).
Proof. reflexivity. Qed.

Lemma count_pos_cons a v i k p : count_pos (a :: v) (S i) k p = count_pos v i k p.
Proof. reflexivity. Qed.

(** In a sorted vector the records for an id are those of its range. *)
Lemma count_id_range v x p :
  non_decreasing v ->
  count_id v x p = count_pos v (lower_bound v x) (upper_bound v x - lower_bound v x) p.
Proof.
  unfold non_decreasing. induction 1 as [|a v Hs IH Ha].
  - reflexivity.
  - unfold lower_bound, upper_bound in *. cbn [count_while].
    destruct (member_id a <? x)%Z eqn:E1; [apply Z.ltb_lt in E1 | apply Z.ltb_ge in E1];
    (destruct (x <? member_id a)%Z eqn:E2; [apply Z.ltb_lt in E2 | apply Z.ltb_ge in E2]);
    cbn [negb]; try lia.
    + (* before the range *)
      rewrite count_pos_cons. cbn [Nat.sub]. rewrite <- IH.
      unfold count_id. cbn [filter].
      replace (member_id a =? x)%Z with false by (symmetry; apply Z.eqb_neq; lia).
      rewrite andb_false_r. reflexivity.
    + (* behind the range *)
      cbn [Nat.sub]. rewrite count_pos_0. apply count_id_none. constructor; [lia|].
      eapply Forall_impl; [|exact Ha]. unfold mm_le. intros b Hb. lia.
    + (* in the range *)
      assert (count_while (fun m => (member_id m <? x)%Z) v = 0) as L.
      { apply (lower_bound_zero v x). eapply Forall_impl; [|exact Ha].
        unfold mm_le. intros b Hb. lia. }
      rewrite L in IH. rewrite Nat.sub_0_r in *.
      unfold count_id in *. cbn [filter]. unfold count_pos in *. cbn [skipn firstn filter].
      replace (member_id a =? x)%Z with true by (symmetry; apply Z.eqb_eq; lia).
      rewrite andb_true_r. cbn [skipn] in IH.
      destruct (relation_pos a =? p); cbn [List.length]; rewrite IH; reflexivity.
Qed.

Lemma outstanding_in_zero A t v q a :
  outstanding_in A t v q = 0 -> In a v -> relation_pos a = q ->
  arrivedb A t (member_id a) = true.
Proof.
  unfold outstanding_in. intros H Hin Hq.
  destruct (arrivedb A t (member_id a)) eqn:E; [reflexivity|].
  assert (In a (filter (fun mm => (relation_pos mm =? q)
                                  && negb (arrivedb A t (member_id mm))) v)) as Hf.
  { apply filter_In. split; [exact Hin|]. rewrite Hq, Nat.eqb_refl, E. reflexivity. }
  apply length_zero_iff_nil in H. rewrite H in Hf. contradiction.
Qed.

Lemma outstanding_zero c A q t a :
  outstanding c A q = 0 -> In a (member_meta c t) -> relation_pos a = q ->
  arrivedb A t (member_id a) = true.
Proof.
  unfold outstanding. intros H Hin Hq.
  destruct t; eapply outstanding_in_zero; try eassumption; lia.
Qed.

Lemma count_pos_zero v i k q j a :
  count_pos v i k q = 0 -> i <= j < i + k -> nth_error v j = Some a -> relation_pos a <> q.
Proof.
  unfold count_pos. intros H Hj Ha Hq.
  assert (In a (filter (fun mm => relation_pos mm =? q) (firstn k (skipn i v)))) as Hf.
  { apply filter_In. split; [|rewrite Hq; apply Nat.eqb_refl].
    apply (nth_error_In _ (j - i)). rewrite nth_error_firstn.
    replace (j - i <? k) with true by (symmetry; apply Nat.ltb_lt; lia).
    rewrite nth_error_skipn. replace (i + (j - i)) with j by lia. exact Ha. }
  apply length_zero_iff_nil in H. rewrite H in Hf. contradiction.
Qed.

Lemma evolves_In_back c c' t b :
  evolves c c' -> In b (member_meta c' t) ->
  exists a, In a (member_meta c t) /\ mm_evolves a b.
Proof.
  intros H Hin. apply In_nth_error in Hin. destruct Hin as [j Hj].
  destruct (evolves_nth_error_back c c' t j b H Hj) as [a [Ha He]].
  exists a. split; [apply (nth_error_In _ j Ha) | exact He].
Qed.

Lemma outstanding_arrival_le c A k p : outstanding c (A ++ [k]) p <= outstanding c A p.
Proof.
  assert (forall t v, outstanding_in (A ++ [k]) t v p <= outstanding_in A t v p) as H.
  { intros t v. unfold outstanding_in. induction v as [|a v IH]; [simpl; lia|].
    cbn [filter]. rewrite arrivedb_app.
    destruct (relation_pos a =? p); cbn [andb]; [|exact IH].
    destruct (arrivedb A t (member_id a)); cbn [orb negb List.length]; [exact IH|].
    destruct (negb _); cbn [List.length]; lia. }
  unfold outstanding.
  pose proof (H node (member_meta c node)). pose proof (H way (member_meta c way)).
  pose proof (H relation (member_meta c relation)). lia.
Qed.

(** ** The kept relations in the relations arena (C6) *)

Lemma offsets_lookup items : forall b p off,
  Forall (fun x => 0 < obj_padded_size x) items ->
  nth_error (offsets_from b items) p = Some off ->
  b <= off /\ exists r, nth_error items p = Some r /\ get_at items (off - b) = Some r.
Proof.
  induction items as [|x items IH]; intros b p off Hpos H.
  - destruct p; discriminate.
  - inversion Hpos; subst. destruct p as [|p]; simpl in H.
    + injection H as <-. split; [lia|]. exists x. rewrite Nat.sub_diag. split; reflexivity.
    + destruct (IH _ _ _ H3 H) as (Hle & r & Hr & Hget). split; [lia|].
      exists r. split; [exact Hr|]. simpl.
      destruct (off - b =? 0) eqn:E0; [apply Nat.eqb_eq in E0; lia|].
      destruct (off - b <? obj_padded_size x) eqn:E1; [apply Nat.ltb_lt in E1; lia|].
      replace (off - b - obj_padded_size x) with (off - (b + obj_padded_size x)) by lia.
      exact Hget.
Qed.

Lemma relation_lookup done c1 p rm :
  pass1_ok done c1 -> nth_error (m_relations c1) p = Some rm ->
  exists r, nth_error (b_items (m_relations_buffer c1)) p = Some r /\
            get_relation c1 (relation_offset rm) = Some r.
Proof.
  intros (Hwf & _ & _ & Hoff & _) Hp.
  assert (nth_error (offsets_from 0 (b_items (m_relations_buffer c1))) p
          = Some (relation_offset rm)) as H
    by (rewrite <- Hoff; apply map_nth_error; exact Hp).
  destruct (offsets_lookup _ _ _ _ (proj2 Hwf) H) as (_ & r & Hr & Hget).
  exists r. split; [exact Hr|]. rewrite Nat.sub_0_r in Hget. exact Hget.
Qed.

Lemma relation_ids_injective done c1 p q r r' :
  pass1_ok done c1 ->
  nth_error (b_items (m_relations_buffer c1)) p = Some r ->
  nth_error (b_items (m_relations_buffer c1)) q = Some r' ->
  obj_id r = obj_id r' -> p = q.
Proof.
  intros (_ & Hkeys & Hnd & _) Hp Hq Hid.
  assert (key r = key r') as Hk.
  { rewrite Forall_forall in Hkeys.
    destruct (Hkeys (key r) (in_map key _ _ (nth_error_In _ _ Hp))) as [T1 _].
    destruct (Hkeys (key r') (in_map key _ _ (nth_error_In _ _ Hq))) as [T2 _].
    unfold key in *. simpl in T1, T2. congruence. }
  apply (proj1 (NoDup_nth_error _) Hnd).
  - rewrite length_map. apply nth_error_Some. congruence.
  - rewrite (map_nth_error key _ _ Hp), (map_nth_error key _ _ Hq), Hk. reflexivity.
Qed.

(** ** Which records a step removes (C6) *)

Lemma Forall2_compose (A : Type) (R1 R2 R3 : A -> A -> Prop) (u v w : list A) :
  (forall a b c, R1 a b -> R2 b c -> R3 a c) ->
  Forall2 R1 u v -> Forall2 R2 v w -> Forall2 R3 u w.
Proof.
  intros Hc H. revert w. induction H as [|a b u v Hab _ IH]; intros w Hw;
    inversion Hw; subst; constructor; eauto.
Qed.

Lemma Forall2_update_nth_r (A B : Type) (R : A -> B -> Prop) (u : list A) (v : list B) i f :
  Forall2 R u v ->
  (forall a b, nth_error u i = Some a -> nth_error v i = Some b -> R a (f b)) ->
  Forall2 R u (update_nth v i f).
Proof.
  intros H. revert i. induction H as [|a b u v Hab Huv IH]; intros [|i] Hf; simpl;
    constructor; auto.
Qed.

Lemma member_found_removed t i mm rm0 c t' :
  Forall2 (fun a b =>
             removed b = removed a \/
             (has_all_members (got_one_member rm0) = true /\ removed a = false /\
              exists rel,
                get_relation c (relation_offset rm0) = Some rel /\
                same_id rel
                  (get_relation_of_member
                     (set_relations c (update_nth (m_relations c) (relation_pos mm)
                                                  (fun _ => got_one_member rm0))) a) = true))
          (member_meta c t') (member_meta (member_found t i mm rm0 c) t').
Proof.
  unfold member_found.
  set (rm := got_one_member rm0). set (c1 := set_relations c _).
  destruct (has_all_members rm) eqn:E.
  - unfold on_complete.
    set (c3 := log_event c1 _). set (c4 := clear_member_metas c3 rm).
    set (c5 := set_relations c4 _).
    destruct (clear_member_metas_frame c3 rm) as (_ & _ & _ & _ & A5). fold c4 in A5.
    destruct (possibly_purge_frame c5) as (_ & _ & B3).
    specialize (A5 t'). specialize (B3 t').
    assert (member_meta c3 t' = member_meta c t') as H3 by (destruct t'; reflexivity).
    assert (member_meta c5 t' = member_meta c4 t') as H5 by (destruct t'; reflexivity).
    rewrite H3 in A5. rewrite H5 in B3.
    eapply Forall2_compose; [|exact A5|exact B3].
    cbv beta. intros a b d [-> | (rel & Hrel & [-> | (-> & Ha & Hs)])] Hbd.
    + left. apply relocated_removed. exact Hbd.
    + left. apply relocated_removed. exact Hbd.
    + right. split; [reflexivity|]. split; [exact Ha|]. exists rel. split; [exact Hrel|].
      exact Hs.
  - apply Forall2_refl_all. intros a. left. reflexivity.
Qed.

(** ** One step of the loop keeps the invariant (C6) *)

Lemma Forall2_nth_error_back (A B : Type) (R : A -> B -> Prop) (u : list A) (v : list B) i b :
  Forall2 R u v -> nth_error v i = Some b ->
  exists a, nth_error u i = Some a /\ R a b.
Proof.
  intros H. revert i. induction H as [|x y u v Hxy _ IH]; intros [|i] Hi;
    simpl in *; try discriminate.
  - injection Hi as <-. eauto.
  - apply IH. exact Hi.
Qed.

Lemma get_relation_static c1 c off :
  m_relations_buffer c = m_relations_buffer c1 -> get_relation c off = get_relation c1 off.
Proof. intros H. unfold get_relation. rewrite H. reflexivity. Qed.

Lemma member_found_loop_ok done c1 c A t i hi mm rm0 :
  pass1_ok done c1 ->
  loop_ok c1 c A t i hi ->
  i < hi ->
  nth_error (member_meta c t) i = Some mm ->
  nth_error (m_relations c) (relation_pos mm) = Some rm0 ->
  loop_ok c1 (member_found t i mm rm0 c) A t (S i) hi.
Proof.
  intros P1 ((Sb & Sev & Srm) & La & Lb & Lc & Ld) Hi Hmm Hrm0.
  set (pos := relation_pos mm) in *.
  destruct (evolves_nth_error_back c1 c t i mm Sev Hmm) as [mm1 [Hmm1 (_ & Hpos1 & _)]].
  assert (forall p, count_pos (member_meta c1 t) i (hi - i) p =
                    (if pos =? p then 1 else 0)
                    + count_pos (member_meta c1 t) (S i) (hi - S i) p) as Hcnt.
  { intros p. replace (hi - i) with (S (hi - S i)) by lia.
    rewrite (count_pos_S _ _ _ p mm1 Hmm1). unfold pos. rewrite Hpos1. reflexivity. }
  pose proof (Lb _ _ Hrm0) as Hneed0. rewrite Hcnt, Nat.eqb_refl in Hneed0.
  destruct (member_found_spec t i mm rm0 c) as (S1 & (rm' & S2 & S3 & S4) & S5 & S6).
  pose proof (member_found_removed t i mm rm0 c) as SR.
  fold pos in S2, SR.
  set (c2 := member_found t i mm rm0 c) in *.
  destruct (Forall2_nth_error_back _ _ _ _ _ _ _ Srm Hrm0) as [rm1 [Hrm1 Horig]].
  assert (relation_offset rm0 = relation_offset rm1) as Hoff0.
  { destruct Horig as [-> | H]; [simpl in Hneed0; lia | exact H]. }
  (* a record that this step removes belongs to a relation that needs nothing *)
  assert (forall a,
            has_all_members (got_one_member rm0) = true ->
            (exists rel, get_relation c (relation_offset rm0) = Some rel /\
               same_id rel
                 (get_relation_of_member
                    (set_relations c (update_nth (m_relations c) pos
                                                 (fun _ => got_one_member rm0))) a) = true) ->
            outstanding c1 A (relation_pos a) = 0 /\
            count_pos (member_meta c1 t) (S i) (hi - S i) (relation_pos a) = 0) as Q.
  { intros a Hall (rel & Hrel & Hsame).
    unfold has_all_members in Hall. apply Z.eqb_eq in Hall. simpl in Hall.
    unfold get_relation_of_member in Hsame. cbn [m_relations set_relations] in Hsame.
    rewrite nth_error_update_nth in Hsame.
    destruct (relation_pos a =? pos) eqn:Eq.
    - apply Nat.eqb_eq in Eq. rewrite Eq. lia.
    - destruct (nth_error (m_relations c) (relation_pos a)) as [rmq|] eqn:Hq;
        [|simpl in Hsame; discriminate].
      pose proof (Lb _ _ Hq) as Hnq. rewrite Hcnt, Nat.eqb_sym, Eq in Hnq.
      destruct (Forall2_nth_error_back _ _ _ _ _ _ _ Srm Hq) as [rm1q [Hrm1q [-> | Hoffq]]];
        [simpl in Hnq; lia|].
      exfalso.
      destruct (relation_lookup done c1 _ _ P1 Hrm1q) as (rq & Hrq & Hgq).
      destruct (relation_lookup done c1 _ _ P1 Hrm1) as (rp & Hrp & Hgp).
      rewrite (get_relation_static c1 c _ Sb), Hoff0, Hgp in Hrel. injection Hrel as <-.
      unfold get_relation_of_meta in Hsame.
      assert (get_relation
                (set_relations c (update_nth (m_relations c) pos
                                             (fun _ => got_one_member rm0)))
                (relation_offset rmq) = Some rq) as Hg.
      { rewrite <- Hgq, <- Hoffq. apply get_relation_static. exact Sb. }
      rewrite Hg in Hsame. simpl in Hsame. apply Z.eqb_eq in Hsame.
      apply Nat.eqb_neq in Eq. apply Eq. symmetry.
      apply (relation_ids_injective done c1 _ _ _ _ P1 Hrp Hrq Hsame). }
  unfold loop_ok. split; [|split; [|split; [|split]]].
  - (* what never changes *)
    split; [congruence|]. split; [apply (evolves_trans _ _ _ Sev S5)|].
    rewrite S2. apply Forall2_update_nth_r; [exact Srm|].
    intros a b Ha Hb. fold pos in Ha, Hb. destruct S4 as [-> | S4]; [left; reflexivity|].
    right. assert (a = rm1) as -> by congruence. congruence.
  - (* removed records *)
    intros t' mm2 Hin Hrem. apply In_nth_error in Hin. destruct Hin as [j Hj].
    destruct (Forall2_nth_error_back _ _ _ _ _ _ _ (SR t') Hj) as [a [Ha Hcase]].
    assert (member_id mm2 = member_id a) as Hid2.
    { destruct (evolves_nth_error c c2 t' j a S5 Ha) as [b [Hb (Hidb & _)]].
      assert (b = mm2) as -> by congruence. exact Hidb. }
    rewrite Hid2. destruct Hcase as [Hsame | (Hall & _ & Hrel)].
    + apply (La t' a (nth_error_In _ _ Ha)). congruence.
    + destruct (Q a Hall Hrel) as [Q1 _].
      destruct (evolves_In_back c1 c t' a Sev (nth_error_In _ _ Ha))
        as [a1 [Hin1 (Hid & Hp & _)]].
      rewrite Hp in Q1.
      pose proof (outstanding_zero c1 A _ t' a1 Q1 Hin1 eq_refl) as Harr.
      congruence.
  - (* what the relations need *)
    intros p rm Hp. rewrite S2, nth_error_update_nth in Hp.
    destruct (p =? pos) eqn:Ep.
    + apply Nat.eqb_eq in Ep. subst p. rewrite Hrm0 in Hp. simpl in Hp. injection Hp as <-.
      rewrite S3. lia.
    + rewrite (Lb p rm Hp), Hcnt, Nat.eqb_sym, Ep. reflexivity.
  - (* the records still to visit *)
    intros j mm2 Hj Hmm2.
    destruct (Forall2_nth_error_back _ _ _ _ _ _ _ (SR t) Hmm2) as [a [Ha Hcase]].
    destruct Hcase as [Hsame | (Hall & _ & Hrel)].
    + rewrite Hsame. apply (Lc j a); [lia | exact Ha].
    + exfalso. destruct (Q a Hall Hrel) as [_ Q2].
      destruct (evolves_nth_error_back c1 c t j a Sev Ha) as [a1 [Ha1 (_ & Hp & _)]].
      rewrite Hp in Q2.
      apply (count_pos_zero _ _ _ _ j a1 Q2); [lia | exact Ha1 | reflexivity].
  - (* completed relations *)
    intros p Hp. rewrite S6, completed_positions_app, member_found_events_positions in Hp.
    apply in_app_or in Hp. destruct Hp as [Hp | Hp]; [apply Ld; exact Hp|].
    destruct (has_all_members (got_one_member rm0)) eqn:Hall; [|destruct Hp].
    destruct Hp as [<- | []].
    unfold has_all_members in Hall. apply Z.eqb_eq in Hall. simpl in Hall. fold pos. lia.
Qed.

(** ** The loop and the call keep the invariant (C6) *)

Lemma loop_ok_end c1 c A t hi : loop_ok c1 c A t hi hi -> pass2_ok c1 c A.
Proof.
  intros (St & La & Lb & _ & Ld). split; [exact St|]. split; [exact La|].
  split; [|exact Ld]. intros p rm Hp. rewrite (Lb p rm Hp), Nat.sub_diag, count_pos_0.
  f_equal. lia.
Qed.

Lemma add_loop_pass2_ok done c1 A t hi n : forall i c,
  pass1_ok done c1 ->
  loop_ok c1 c A t i hi ->
  i + n = hi -> hi <= List.length (member_meta c1 t) ->
  pass2_ok c1 (add_loop n t i c) A.
Proof.
  induction n as [|n IH]; intros i c P1 L Hn Hhi.
  - simpl. assert (i = hi) as -> by lia. apply (loop_ok_end _ _ _ t hi). exact L.
  - rewrite add_loop_S.
    pose proof L as ((Sb & Sev & Srm) & La & Lb & Lc & Ld).
    pose proof (Forall2_length (Sev t)) as HLv.
    destruct (nth_error (member_meta c t) i) as [mm|] eqn:Hmm;
      [|apply nth_error_None in Hmm; lia].
    rewrite (Lc i mm ltac:(lia) Hmm).
    destruct (evolves_nth_error_back c1 c t i mm Sev Hmm) as [mm1 [Hmm1 (_ & Hpos1 & _)]].
    pose proof P1 as (_ & _ & _ & _ & P1e & _).
    pose proof (proj1 (Forall_forall _ _) (P1e t) mm1 (nth_error_In _ _ Hmm1)) as [_ Hvalid].
    pose proof (Forall2_length Srm) as HLr.
    destruct (nth_error (m_relations c) (relation_pos mm)) as [rm0|] eqn:Hrm0;
      [|apply nth_error_None in Hrm0; lia].
    apply IH; [exact P1 | | lia | exact Hhi].
    apply (member_found_loop_ok done); try assumption. lia.
Qed.

Lemma outstanding_arrival c1 A t x p :
  arrivedb A t x = false ->
  outstanding c1 A p = outstanding c1 (A ++ [(t, x)]) p + count_id (member_meta c1 t) x p.
Proof.
  intros Hx. unfold outstanding.
  destruct t.
  - rewrite (outstanding_in_arrival A node x _ p Hx).
    rewrite (outstanding_in_other_kind A node x way) by discriminate.
    rewrite (outstanding_in_other_kind A node x relation) by discriminate. lia.
  - rewrite (outstanding_in_arrival A way x _ p Hx).
    rewrite (outstanding_in_other_kind A way x node) by discriminate.
    rewrite (outstanding_in_other_kind A way x relation) by discriminate. lia.
  - rewrite (outstanding_in_arrival A relation x _ p Hx).
    rewrite (outstanding_in_other_kind A relation x node) by discriminate.
    rewrite (outstanding_in_other_kind A relation x way) by discriminate. lia.
Qed.

Lemma arrivedb_more A k t id : arrivedb A t id = true -> arrivedb (A ++ [k]) t id = true.
Proof. intros H. rewrite arrivedb_app, H. reflexivity. Qed.

Lemma nth_error_in_range_elems v r j :
  in_range r j -> nth_error (range_elems v r) (j - fst r) = nth_error v j.
Proof.
  unfold in_range, range_elems. intros Hj. rewrite nth_error_firstn.
  replace (j - fst r <? snd r - fst r) with true by (symmetry; apply Nat.ltb_lt; lia).
  rewrite nth_error_skipn. f_equal. lia.
Qed.

Lemma count_not_removed_zero v r j a :
  count_not_removed v r = 0 -> in_range r j -> nth_error v j = Some a -> removed a = true.
Proof.
  unfold count_not_removed. intros H Hj Ha.
  destruct (removed a) eqn:E; [reflexivity|].
  assert (In a (filter (fun mm => negb (removed mm)) (range_elems v r))) as Hf.
  { apply filter_In. split; [|rewrite E; reflexivity].
    apply (nth_error_In _ (j - fst r)). rewrite nth_error_in_range_elems by exact Hj. exact Ha. }
  apply length_zero_iff_nil in H. rewrite H in Hf. contradiction.
Qed.

Lemma find_and_add_object_pass2_ok done c1 c A o :
  pass1_ok done c1 ->
  (forall t, non_decreasing (member_meta c1 t)) ->
  pass2_ok c1 c A ->
  arrivedb A (obj_type o) (obj_id o) = false ->
  pass2_ok c1 (snd (find_and_add_object c o)) (A ++ [key o]) /\
  (fst (find_and_add_object c o) = false ->
   snd (find_and_add_object c o) = c).
Proof.
  intros P1 Hsorted ((Sb & Sev & Srm) & La & Lb & Ld) Hfresh.
  set (t := obj_type o) in *. set (x := obj_id o) in *.
  change (key o) with (t, x).
  pose proof (evolves_ids c1 c t Sev) as Hids.
  assert (non_decreasing (member_meta c t)) as Hs
    by (apply (non_decreasing_ids _ _ (eq_sym Hids)); apply Hsorted).
  set (r := find_member_meta c t x).
  assert (r = equal_range (member_meta c1 t) x) as Hr
    by (unfold r, find_member_meta; apply equal_range_ids; exact Hids).
  (* the records for this object are not removed *)
  assert (forall j a, nth_error (member_meta c t) j = Some a -> in_range r j ->
                      removed a = false) as Hlive.
  { intros j a Ha Hj. destruct (removed a) eqn:E; [|reflexivity].
    pose proof (La t a (nth_error_In _ _ Ha) E) as Harr.
    rewrite (proj1 (equal_range_spec _ x j a Hs Ha) Hj) in Harr. congruence. }
  assert (forall p, outstanding c1 (A ++ [(t, x)]) p <= outstanding c1 A p) as Hmono
    by (intros p; apply outstanding_arrival_le).
  destruct (Nat.eq_dec (count_not_removed (member_meta c t) r) 0) as [E | E].
  - (* no record for this object *)
    rewrite (find_and_add_object_not_found c o E). cbn [fst snd]. split; [|reflexivity].
    assert (forall p, count_id (member_meta c1 t) x p = 0) as Hnone.
    { intros p. apply count_id_none. apply Forall_forall. intros a1 Hin1 Hid.
      apply In_nth_error in Hin1. destruct Hin1 as [j Hj1].
      destruct (evolves_nth_error c1 c t j a1 Sev Hj1) as [a [Ha (Hida & _)]].
      assert (in_range r j) as Hj
        by (apply (equal_range_spec _ x j a Hs Ha); congruence).
      pose proof (count_not_removed_zero _ _ _ _ E Hj Ha).
      pose proof (Hlive j a Ha Hj). congruence. }
    split; [repeat split; assumption|]. split; [|split].
    + intros t' mm Hin Hrem. apply arrivedb_more. apply (La t' mm Hin Hrem).
    + intros p rm Hp. rewrite (Lb p rm Hp), (outstanding_arrival c1 A t x p Hfresh), Hnone.
      f_equal. lia.
    + intros p Hp. specialize (Ld p Hp). specialize (Hmono p). lia.
  - (* the object is stored and the range is walked *)
    rewrite (find_and_add_object_found c o E). cbn [fst snd].
    split; [|discriminate]. fold t. fold x. fold r.
    set (off := fst (commit (add_item (m_members_buffer c) o))).
    set (c2 := set_member_meta _ t _).
    assert (forall t', Forall2 relocated (member_meta c t') (member_meta c2 t')) as Hrel.
    { intros t'. unfold c2. destruct (item_type_eq_dec t t') as [<- | Hne].
      - rewrite member_meta_set_same. apply Forall2_update_range; [apply relocated_refl|].
        intros a. right. eauto.
      - rewrite member_meta_set_other by exact Hne. rewrite member_meta_set_members_buffer.
        apply Forall2_refl_all, relocated_refl. }
    assert (m_relations c2 = m_relations c /\ m_relations_buffer c2 = m_relations_buffer c
            /\ events c2 = events c) as (R2 & B2 & L2)
      by (unfold c2, events; destruct t; repeat split).
    pose proof (upper_bound_le_length (member_meta c1 t) x) as Hlen.
    pose proof (lower_bound_le_upper (member_meta c1 t) x) as Hlu.
    assert (fst r = lower_bound (member_meta c1 t) x /\
            snd r = upper_bound (member_meta c1 t) x) as [Hlo Hhi]
      by (rewrite Hr; split; reflexivity).
    apply (add_loop_pass2_ok done c1 (A ++ [(t, x)]) t (snd r));
      [exact P1 | | lia | lia].
    split; [|split; [|split; [|split]]].
    + split; [congruence|]. split; [|rewrite R2; exact Srm].
      apply (evolves_trans _ _ _ Sev). intros t'.
      eapply Forall2_impl; [|apply Hrel]. apply relocated_evolves.
    + intros t' mm2 Hin Hrem. apply In_nth_error in Hin. destruct Hin as [j Hj].
      destruct (Forall2_nth_error_back _ _ _ _ _ _ _ (Hrel t') Hj) as [a [Ha Hab]].
      apply arrivedb_more.
      assert (member_id mm2 = member_id a) as -> by (destruct Hab as [-> | [? ->]]; reflexivity).
      apply (La t' a (nth_error_In _ _ Ha)).
      rewrite <- (relocated_removed _ _ Hab). exact Hrem.
    + intros p rm Hp. rewrite R2 in Hp.
      rewrite (Lb p rm Hp), (outstanding_arrival c1 A t x p Hfresh).
      rewrite (count_id_range _ x p (Hsorted t)), <- Hlo, <- Hhi. reflexivity.
    + intros j mm2 Hj Hmm2.
      destruct (Forall2_nth_error_back _ _ _ _ _ _ _ (Hrel t) Hmm2) as [a [Ha Hab]].
      rewrite (relocated_removed _ _ Hab). apply (Hlive j a Ha). exact Hj.
    + intros p Hp. rewrite L2 in Hp. specialize (Ld p Hp). specialize (Hmono p). lia.
Qed.

(** ** The whole of pass 2 (C6) *)

Lemma pass2_ok_log c1 c A e :
  is_complete e = false -> pass2_ok c1 c A -> pass2_ok c1 (log_event c e) A.
Proof.
  intros He ((Sb & Sev & Srm) & La & Lb & Ld).
  split; [split; [exact Sb | split; [|exact Srm]]|split; [|split]].
  - intros t. specialize (Sev t). destruct t; exact Sev.
  - intros t mm Hin. apply (La t mm). destruct t; exact Hin.
  - exact Lb.
  - intros p Hp. apply Ld. unfold events in *. simpl in Hp.
    rewrite completed_positions_app in Hp. apply in_app_or in Hp.
    destruct Hp as [Hp | Hp]; [exact Hp|]. destruct e; try discriminate; destruct Hp.
Qed.

Lemma pass2_ok_init done c1 : pass1_ok done c1 -> pass2_ok c1 c1 [].
Proof.
  intros (_ & _ & _ & _ & Hmm & Hneed & Hlog).
  split; [split; [reflexivity | split]|split; [|split]].
  - apply evolves_refl.
  - apply Forall2_refl_all. intros rm. right. reflexivity.
  - intros t mm Hin Hrem.
    destruct (proj1 (Forall_forall _ _) (Hmm t) mm Hin) as [H _]. congruence.
  - exact Hneed.
  - unfold events. rewrite Hlog. intros p [].
Qed.

Lemma incomplete_list out rms1 rms2 : forall p,
  Forall2 (fun rm1 rm => rm = RelationMeta_empty \/
                         relation_offset rm = relation_offset rm1) rms1 rms2 ->
  (forall j rm, nth_error rms2 j = Some rm -> need_members rm = Z.of_nat (out (p + j))) ->
  map relation_offset (filter (fun rm => negb (has_all_members rm)) rms2) =
    incomplete_from p rms1 out.
Proof.
  intros p H. revert p. induction H as [|a b u v Hab _ IH]; intros p Hneed; [reflexivity|].
  pose proof (Hneed 0 b eq_refl) as Hb. rewrite Nat.add_0_r in Hb.
  assert (map relation_offset (filter (fun rm => negb (has_all_members rm)) v) =
          incomplete_from (S p) u out) as Hrest.
  { apply IH. intros j rm Hj. rewrite (Hneed (S j) rm Hj). f_equal. f_equal. lia. }
  cbn [filter incomplete_from]. unfold has_all_members at 1.
  destruct (out p =? 0) eqn:E.
  - apply Nat.eqb_eq in E. rewrite Hb, E. cbn. exact Hrest.
  - apply Nat.eqb_neq in E.
    replace (need_members b =? 0)%Z with false by (symmetry; apply Z.eqb_neq; lia).
    cbn. rewrite Hrest. f_equal.
    destruct Hab as [-> | Hoff]; [simpl in Hb; lia | exact Hoff].
Qed.

Section SecondPass.

Context {hooks : Hooks}.

Lemma arrivals_snoc done o :
  arrivals (done ++ [o]) =
    if interested_in (obj_type o) then arrivals done ++ [key o] else arrivals done.
Proof.
  unfold arrivals. rewrite filter_app. cbn [filter].
  destruct (interested_in (obj_type o)).
  - rewrite map_app. reflexivity.
  - rewrite app_nil_r. reflexivity.
Qed.

Lemma arrivals_subset done k : In k (arrivals done) -> In k (map key done).
Proof.
  unfold arrivals. intros H. apply in_map_iff in H. destruct H as (o & Hk & Hin).
  apply filter_In in Hin. apply in_map_iff. exists o. tauto.
Qed.

Lemma handler_pass2_ok done done2 c1 c o :
  pass1_ok done c1 ->
  (forall t, non_decreasing (member_meta c1 t)) ->
  pass2_ok c1 c (arrivals done2) ->
  ~ In (key o) (map key done2) ->
  pass2_ok c1 (handler_pass2 c o) (arrivals (done2 ++ [o])).
Proof.
  intros P1 Hsorted P2 Hnew. rewrite arrivals_snoc. unfold handler_pass2.
  destruct (interested_in (obj_type o)); [|exact P2].
  assert (arrivedb (arrivals done2) (obj_type o) (obj_id o) = false) as Hfresh.
  { destruct (arrivedb (arrivals done2) (obj_type o) (obj_id o)) eqn:E; [|reflexivity].
    exfalso. apply Hnew. apply arrivals_subset. apply arrivedb_true. exact E. }
  destruct (find_and_add_object_pass2_ok done c1 c _ o P1 Hsorted P2 Hfresh) as [H _].
  destruct (find_and_add_object c o) as [found c']. cbn [snd] in H.
  destruct found; [exact H|]. apply pass2_ok_log; [reflexivity | exact H].
Qed.

Lemma pass2_fold_ok done c1 input : forall done2 c,
  pass1_ok done c1 ->
  (forall t, non_decreasing (member_meta c1 t)) ->
  pass2_ok c1 c (arrivals done2) ->
  NoDup (map key (done2 ++ input)) ->
  pass2_ok c1 (fold_left handler_pass2 input c) (arrivals (done2 ++ input)).
Proof.
  induction input as [|o input IH]; intros done2 c P1 Hsorted P2 Hnd.
  - rewrite app_nil_r. exact P2.
  - simpl.
    replace (done2 ++ o :: input) with ((done2 ++ [o]) ++ input) in *
      by (rewrite <- app_assoc; reflexivity).
    apply IH; [exact P1 | exact Hsorted | | exact Hnd].
    apply (handler_pass2_ok done); try assumption.
    rewrite !map_app in Hnd. apply NoDup_app_remove_r in Hnd.
    simpl in Hnd. apply NoDup_remove_2 in Hnd. rewrite app_nil_r in Hnd. exact Hnd.
Qed.

(** C6 (amended): for an input in which no two objects have the same
    kind and id (and every object takes up room in the arena), after
    [flush] the relations that [get_incomplete_relations()] points at
    are exactly the kept relations with a kept member that did not
    arrive in pass 2; for each relation [need_members] is the number of
    its kept members that did not arrive; a relation for which
    [complete_relation] was invoked has none and is excluded; and every
    pointer that is returned points at a relation in the relations
    arena. *)
Theorem C6_incomplete_relations (input1 input2 : list OSMObject) :
  let c1 := read_relations Collector_new input1 in
  let c2 := apply_pass2 c1 input2 in
  let missing := outstanding c1 (arrivals input2) in
  Forall (fun o => 0 < obj_padded_size o) input1 ->
  NoDup (map key input1) ->
  NoDup (map key input2) ->
  get_incomplete_relations c2 = incomplete_from 0 (m_relations c1) missing /\
  (forall p rm, nth_error (m_relations c2) p = Some rm ->
     need_members rm = Z.of_nat (missing p)) /\
  (forall p, In p (completed_positions (events c2)) -> missing p = 0) /\
  (forall off, In off (get_incomplete_relations c2) ->
     exists r, get_relation c2 off = Some r /\ obj_type r = relation).
Proof.
  intros c1 c2 missing Hpos Hnd1 Hnd2.
  destruct (read_relations_ok input1 Hnd1 Hpos) as [P1 Hsorted]. fold c1 in P1, Hsorted.
  assert (pass2_ok c1 c2 (arrivals input2)) as P2.
  { unfold c2, apply_pass2, flush. apply pass2_ok_log; [reflexivity|].
    apply (pass2_fold_ok input1 c1 input2 [] c1 P1 Hsorted); [|exact Hnd2].
    apply (pass2_ok_init input1). exact P1. }
  destruct P2 as ((Sb & Sev & Srm) & La & Lb & Ld).
  split; [|split; [exact Lb | split; [exact Ld|]]].
  - unfold get_incomplete_relations. apply incomplete_list; [exact Srm|].
    intros j rm Hj. rewrite (Lb j rm Hj). reflexivity.
  - intros off Hin. unfold get_incomplete_relations in Hin.
    apply in_map_iff in Hin. destruct Hin as (rm & <- & Hin).
    apply filter_In in Hin. destruct Hin as [Hin Hneed].
    apply In_nth_error in Hin. destruct Hin as [p Hp].
    destruct (Forall2_nth_error_back _ _ _ _ _ _ _ Srm Hp) as [rm1 [Hrm1 Horig]].
    destruct Horig as [-> | Hoff]; [discriminate|].
    destruct (relation_lookup input1 c1 p rm1 P1 Hrm1) as (r & Hr & Hget).
    exists r. split; [rewrite (get_relation_static c1 c2 _ Sb), Hoff; exact Hget|].
    destruct P1 as (_ & Hkeys & _). rewrite Forall_forall in Hkeys.
    destruct (Hkeys (key r) (in_map key _ _ (nth_error_In _ _ Hr))) as [T _]. exact T.
Qed.

End SecondPass.

(* ================================================================== *)
(** * Part IV b: further properties of the collector                   *)
(* ================================================================== *)

(** ** Pass 1 counts the kept members *)

Lemma outstanding_in_nil t v p : outstanding_in [] t v p = referring v p.
Proof.
  unfold outstanding_in, referring. f_equal. apply filter_ext. intros a.
  cbn. apply andb_true_r.
Qed.

Lemma outstanding_nil c p : outstanding c [] p = references c p.
Proof. unfold outstanding, references. rewrite !outstanding_in_nil. reflexivity. Qed.

Lemma referring_app u v p : referring (u ++ v) p = referring u p + referring v p.
Proof. unfold referring. rewrite filter_app, length_app. reflexivity. Qed.

Lemma referring_all v p :
  Forall (fun mm => relation_pos mm = p) v -> referring v p = List.length v.
Proof.
  unfold referring. induction 1 as [|a v Ha _ IH]; [reflexivity|].
  cbn [filter]. rewrite Ha, Nat.eqb_refl. cbn. rewrite IH. reflexivity.
Qed.

Lemma referring_none v p :
  Forall (fun mm => relation_pos mm <> p) v -> referring v p = 0.
Proof.
  unfold referring. induction 1 as [|a v Ha _ IH]; [reflexivity|].
  cbn [filter]. apply Nat.eqb_neq in Ha. rewrite Ha. exact IH.
Qed.

Lemma referring_perm u v p : Permutation u v -> referring u p = referring v p.
Proof.
  intros H. rewrite <- !(outstanding_in_nil node). apply outstanding_in_perm. exact H.
Qed.

Section FirstPassCounts.

Context {hooks : Hooks}.

Lemma add_members_fresh ms : forall n offset c rm t,
  Forall fresh (member_meta c t) ->
  Forall fresh (member_meta (fst (add_members ms n offset (c, rm))) t).
Proof.
  induction ms as [|m ms IH]; intros n offset c rm t H; [exact H|].
  cbn [add_members]. destruct (keep_member rm m).
  - apply IH. destruct (item_type_eq_dec (member_type m) t) as [<- | Hne].
    + rewrite member_meta_set_same. apply Forall_app. split; [exact H|].
      repeat constructor.
    + rewrite member_meta_set_other by exact Hne. exact H.
  - apply IH. destruct t; exact H.
Qed.

Lemma add_relation_counted c rel : records_counted c -> records_counted (add_relation c rel).
Proof.
  intros [Hmm Hneed]. unfold add_relation.
  set (offset := committed (m_relations_buffer c)).
  set (c0 := set_relations_buffer c (add_item (m_relations_buffer c) rel)).
  set (ms := match buffer_get (m_relations_buffer c0) offset with
             | Some r => obj_members r | None => [] end).
  pose proof (add_members_spec ms 0 offset c0 (RelationMeta_at offset)) as S.
  pose proof (fun t => add_members_fresh ms 0 offset c0 (RelationMeta_at offset) t) as Fr.
  cbv zeta in S.
  destruct (add_members ms 0 offset (c0, RelationMeta_at offset)) as [c1 rm1].
  cbn [fst snd] in S, Fr. destruct S as (A1 & _ & _ & _ & _ & new & A6 & A7 & A8).
  change (m_relations c0) with (m_relations c) in *.
  assert (forall t, member_meta c1 t = member_meta c t ++ new t) as A6'
    by (intros t; rewrite A6; destruct t; reflexivity).
  assert (forall t, Forall fresh (member_meta c1 t)) as Fr1.
  { intros t. apply Fr. replace (member_meta c0 t) with (member_meta c t)
      by (destruct t; reflexivity).
    eapply Forall_impl; [|apply Hmm]. cbv beta. tauto. }
  cbn [RelationMeta_at need_members] in A8.
  assert (forall t p, p < List.length (m_relations c) -> referring (new t) p = 0) as Hold.
  { intros t p Hp. apply referring_none. eapply Forall_impl; [|apply A7].
    cbv beta. intros a [Ha _]. lia. }
  unfold has_all_members. destruct (need_members rm1 =? 0)%Z eqn:E.
  - apply Z.eqb_eq in E.
    assert (forall t, new t = []) as Hnone
      by (intros t; apply length_zero_iff_nil; destruct t; lia).
    set (cR := set_relations_buffer c1 _).
    assert (forall t, member_meta cR t = member_meta c t) as Hv.
    { intros t. transitivity (member_meta c1 t); [destruct t; reflexivity|].
      rewrite A6', Hnone, app_nil_r. reflexivity. }
    assert (m_relations cR = m_relations c) as HR by exact A1.
    split.
    + intros t. rewrite Hv, HR. apply Hmm.
    + intros p rm Hp. rewrite HR in Hp. unfold references. rewrite !Hv. apply (Hneed p rm Hp).
  - apply Z.eqb_neq in E.
    set (cR := set_relations _ _).
    assert (forall t, member_meta cR t = member_meta c t ++ new t) as Hv
      by (intros t; rewrite <- A6'; destruct t; reflexivity).
    assert (m_relations cR = m_relations c ++ [rm1]) as HR
      by (unfold cR; cbn; rewrite A1; reflexivity).
    split.
    + intros t. rewrite HR, length_app. cbn [List.length].
      pose proof (Fr1 t) as F. rewrite A6' in F. rewrite Hv.
      apply Forall_app in F. destruct F as [_ Fnew].
      apply Forall_app. split.
      * eapply Forall_impl; [|apply Hmm]. cbv beta. intros a [Ha1 Ha2]. split; [exact Ha1 | lia].
      * rewrite Forall_forall in *. intros a Ha. split; [apply Fnew; exact Ha|].
        destruct (proj1 (Forall_forall _ _) (A7 t) a Ha) as [Hp _]. lia.
    + intros p rm Hp. rewrite HR in Hp. unfold references. rewrite !Hv, !referring_app.
      destruct (Nat.lt_ge_cases p (List.length (m_relations c))) as [Hlt | Hge].
      * rewrite nth_error_app1 in Hp by exact Hlt. rewrite !Hold by exact Hlt.
        destruct (Hneed p rm Hp) as [H1 H2]. unfold references in H1. split; [lia | exact H2].
      * rewrite nth_error_app2 in Hp by exact Hge.
        destruct (p - List.length (m_relations c)) as [|d] eqn:Ed;
          [|destruct d; discriminate].
        injection Hp as <-. assert (p = List.length (m_relations c)) as -> by lia.
        assert (forall t, referring (member_meta c t) (List.length (m_relations c)) = 0) as Hz.
        { intros t. apply referring_none. eapply Forall_impl; [|apply Hmm].
          cbv beta. intros a [_ Ha]. lia. }
        assert (forall t, referring (new t) (List.length (m_relations c))
                          = List.length (new t)) as Hall.
        { intros t. apply referring_all. eapply Forall_impl; [|apply A7].
          cbv beta. tauto. }
        rewrite !Hz, !Hall. lia.
Qed.

Lemma pass1_counted input : forall c,
  records_counted c -> records_counted (fold_left handler_pass1 input c).
Proof.
  induction input as [|o input IH]; intros c H; [exact H|].
  simpl. apply IH. unfold handler_pass1. destruct (obj_type o); try exact H.
  destruct (keep_relation o); [apply add_relation_counted; exact H | exact H].
Qed.

Lemma sort_member_meta_counted c : records_counted c -> records_counted (sort_member_meta c).
Proof.
  intros [Hmm Hneed]. split.
  - intros t. rewrite sort_member_meta_vectors, sort_member_meta_relations.
    apply (Permutation_Forall (Permutation_sym (std_sort_perm _))). apply Hmm.
  - intros p rm Hp. rewrite sort_member_meta_relations in Hp.
    unfold references. rewrite !sort_member_meta_vectors.
    rewrite !(referring_perm _ _ p (std_sort_perm _)). apply (Hneed p rm Hp).
Qed.

Lemma read_relations_counts_members_aux input :
  records_counted (read_relations Collector_new input).
Proof.
  unfold read_relations. apply sort_member_meta_counted. apply pass1_counted.
  split.
  - intros []; constructor.
  - intros p rm Hp. destruct p; discriminate.
Qed.

(** X1: after pass 1, whatever the input, every MemberMeta is as its
    constructor made it (not removed, no offset yet) and refers to a
    relation of [m_relations]; and every RelationMeta needs exactly as
    many members as records refer to it, which is at least one. *)
Theorem read_relations_counts_members (input : list OSMObject) :
  let c := read_relations Collector_new input in
  (forall t, Forall (fun mm => removed mm = false /\ buffer_offset mm = None /\
                               relation_pos mm < List.length (m_relations c))
                    (member_meta c t)) /\
  (forall p, p < List.length (m_relations c) ->
     exists rm, nth_error (m_relations c) p = Some rm /\
                need_members rm = Z.of_nat (references c p) /\ (0 < need_members rm)%Z).
Proof.
  intros c. destruct (read_relations_counts_members_aux input) as [Hmm Hneed]. fold c in Hmm, Hneed.
  split.
  - intros t. eapply Forall_impl; [|apply Hmm]. cbv beta. unfold fresh. tauto.
  - intros p Hp. destruct (nth_error (m_relations c) p) as [rm|] eqn:E.
    + exists rm. split; [reflexivity | apply (Hneed p rm E)].
    + apply nth_error_None in E. lia.
Qed.

End FirstPassCounts.

(** ** No kept relation is forgotten *)

Lemma member_found_sound t i mm rm0 c :
  nth_error (m_relations c) (relation_pos mm) = Some rm0 ->
  completions_sound c -> completions_sound (member_found t i mm rm0 c).
Proof.
  intros Hrm0 [Hval Hzero].
  assert (relation_pos mm < List.length (m_relations c)) as Hlt
    by (apply nth_error_Some; rewrite Hrm0; discriminate).
  destruct (member_found_spec t i mm rm0 c) as (_ & (rm1 & S2 & S3 & _) & _ & S5).
  unfold completions_sound.
  rewrite S5, completed_positions_app, member_found_events_positions, S2, update_nth_length.
  destruct (has_all_members (got_one_member rm0)) eqn:E.
  - split.
    + intros p Hp. apply in_app_or in Hp. destruct Hp as [Hp | [<- | []]];
        [apply Hval; exact Hp | exact Hlt].
    + intros p rm Hn Hneed. rewrite nth_error_update_nth in Hn. apply in_or_app.
      destruct (p =? relation_pos mm) eqn:Ep.
      * apply Nat.eqb_eq in Ep. right. left. symmetry. exact Ep.
      * left. apply (Hzero p rm Hn Hneed).
  - rewrite app_nil_r. split; [exact Hval|].
    intros p rm Hn Hneed. rewrite nth_error_update_nth in Hn.
    destruct (p =? relation_pos mm) eqn:Ep.
    + apply Nat.eqb_eq in Ep. subst p. rewrite Hrm0 in Hn. simpl in Hn.
      injection Hn as <-. unfold has_all_members in E. apply Z.eqb_neq in E.
      simpl in E. lia.
    + apply (Hzero p rm Hn Hneed).
Qed.

Lemma add_loop_sound n t : forall i c, completions_sound c -> completions_sound (add_loop n t i c).
Proof.
  induction n as [|n IH]; intros i c H; [exact H|].
  rewrite add_loop_S. destruct (nth_error (member_meta c t) i) as [mm|]; [|exact H].
  destruct (removed mm); [exact H|].
  destruct (nth_error (m_relations c) (relation_pos mm)) as [rm0|] eqn:E.
  - apply IH. apply member_found_sound; assumption.
  - apply IH. exact H.
Qed.

Lemma completions_sound_same c c' :
  m_relations c' = m_relations c ->
  completed_positions (events c') = completed_positions (events c) ->
  completions_sound c -> completions_sound c'.
Proof. unfold completions_sound. intros -> ->. tauto. Qed.

Lemma find_and_add_object_sound c object :
  completions_sound c -> completions_sound (snd (find_and_add_object c object)).
Proof.
  intros H.
  destruct (Nat.eq_dec (count_not_removed (member_meta c (obj_type object))
              (find_member_meta c (obj_type object) (obj_id object))) 0) as [E | E].
  - rewrite (find_and_add_object_not_found c object E). exact H.
  - rewrite (find_and_add_object_found c object E). cbn [snd]. apply add_loop_sound.
    revert H. apply completions_sound_same; destruct (obj_type object); reflexivity.
Qed.

Section NothingForgotten.

Context {hooks : Hooks}.

Lemma handler_pass2_sound c o : completions_sound c -> completions_sound (handler_pass2 c o).
Proof.
  intros H. unfold handler_pass2. destruct (interested_in (obj_type o)); [|exact H].
  pose proof (find_and_add_object_sound c o H) as H'.
  destruct (find_and_add_object c o) as [found c']. cbn [snd] in H'.
  destruct found; [exact H'|].
  revert H'. apply completions_sound_same; [reflexivity|].
  unfold events. simpl. rewrite completed_positions_app. simpl. rewrite app_nil_r.
  reflexivity.
Qed.

Lemma apply_pass2_sound input : forall c,
  completions_sound c -> completions_sound (apply_pass2 c input).
Proof.
  unfold apply_pass2. induction input as [|o input IH]; intros c H; simpl.
  - revert H. apply completions_sound_same; [reflexivity|].
    unfold events. simpl. rewrite completed_positions_app. simpl. rewrite app_nil_r.
    reflexivity.
  - apply IH. apply handler_pass2_sound. exact H.
Qed.

Lemma both_passes_sound input1 input2 :
  completions_sound (apply_pass2 (read_relations Collector_new input1) input2).
Proof.
  apply apply_pass2_sound. split.
  - unfold events. rewrite read_relations_log. intros p [].
  - intros p rm Hp Hneed.
    destruct (proj2 (read_relations_counts_members_aux input1) p rm Hp) as [_ Hpos]. lia.
Qed.

(** X2: whatever the two inputs are (objects may repeat, members may be
    missing), after both passes every RelationMeta of [m_relations]
    either belongs to a relation for which [complete_relation] was
    called, or is reported by [get_incomplete_relations()] through its
    offset: no kept relation is lost silently. *)
Theorem no_relation_forgotten (input1 input2 : list OSMObject) (p : nat) (rm : RelationMeta) :
  let c2 := apply_pass2 (read_relations Collector_new input1) input2 in
  nth_error (m_relations c2) p = Some rm ->
  In p (completed_positions (events c2)) \/
  In (relation_offset rm) (get_incomplete_relations c2).
Proof.
  intros c2 Hp. destruct (both_passes_sound input1 input2) as [_ Hzero]. fold c2 in Hzero.
  destruct (Z.eq_dec (need_members rm) 0) as [E | E].
  - left. apply (Hzero p rm Hp E).
  - right. unfold get_incomplete_relations. apply in_map. apply filter_In.
    split; [apply (nth_error_In _ _ Hp)|].
    unfold has_all_members. apply Z.eqb_neq in E. rewrite E. reflexivity.
Qed.

(** X3: for an input in which no two objects have the same kind and id
    (and every object takes up room in the arena), [complete_relation]
    is called for exactly those indices of [m_relations] whose relation
    has no kept member missing among the objects that pass 2 looks at
    (those of the kinds the collector is interested in). *)
Theorem completed_iff_all_arrived (input1 input2 : list OSMObject) (p : nat) :
  let c1 := read_relations Collector_new input1 in
  let c2 := apply_pass2 c1 input2 in
  Forall (fun o => 0 < obj_padded_size o) input1 ->
  NoDup (map key input1) ->
  NoDup (map key input2) ->
  (In p (completed_positions (events c2)) <->
   p < List.length (m_relations c1) /\ outstanding c1 (arrivals input2) p = 0).
Proof.
  intros c1 c2 Hpos Hnd1 Hnd2.
  destruct (read_relations_ok input1 Hnd1 Hpos) as [P1 Hsorted]. fold c1 in P1, Hsorted.
  assert (pass2_ok c1 c2 (arrivals input2)) as P2.
  { unfold c2, apply_pass2, flush. apply pass2_ok_log; [reflexivity|].
    apply (pass2_fold_ok input1 c1 input2 [] c1 P1 Hsorted); [|exact Hnd2].
    apply (pass2_ok_init input1). exact P1. }
  destruct P2 as ((_ & _ & Srm) & _ & Lb & Ld).
  destruct (both_passes_sound input1 input2) as [Hval Hzero]. fold c1 c2 in Hval, Hzero.
  assert (List.length (m_relations c2) = List.length (m_relations c1)) as Hlen
    by (symmetry; apply (Forall2_length Srm)).
  split.
  - intros Hin. split; [rewrite <- Hlen; apply Hval; exact Hin | apply Ld; exact Hin].
  - intros [Hlt Hout]. rewrite <- Hlen in Hlt.
    destruct (nth_error (m_relations c2) p) as [rm|] eqn:Hp.
    + apply (Hzero p rm Hp). rewrite (Lb p rm Hp), Hout. reflexivity.
    + apply nth_error_None in Hp. lia.
Qed.

End NothingForgotten.

(** ** Objects that no relation is waiting for *)

Lemma count_not_removed_all_removed v id :
  non_decreasing v ->
  (forall mm, In mm v -> member_id mm = id -> removed mm = true) ->
  count_not_removed v (equal_range v id) = 0.
Proof.
  intros Hs Hall. unfold count_not_removed.
  destruct (filter _ _) as [|a rest] eqn:E; [reflexivity|]. exfalso.
  assert (In a (filter (fun mm => negb (removed mm)) (range_elems v (equal_range v id)))) as Hin
    by (rewrite E; left; reflexivity).
  apply filter_In in Hin. destruct Hin as [Hin Hlive].
  apply In_nth_error in Hin. destruct Hin as [j Hj].
  assert (j < snd (equal_range v id) - fst (equal_range v id)) as Hlt.
  { assert (j < List.length (range_elems v (equal_range v id))) as H
      by (apply nth_error_Some; rewrite Hj; discriminate).
    unfold range_elems in H. rewrite length_firstn in H. lia. }
  apply nth_error_range_elems in Hj.
  assert (member_id a = id) as Hid.
  { apply (equal_range_spec v id _ a Hs Hj). unfold in_range. lia. }
  rewrite (Hall a (nth_error_In _ _ Hj) Hid) in Hlive. discriminate.
Qed.

Lemma find_and_add_object_fst c object :
  fst (find_and_add_object c object) = false <->
  count_not_removed (member_meta c (obj_type object))
    (find_member_meta c (obj_type object) (obj_id object)) = 0.
Proof.
  destruct (Nat.eq_dec (count_not_removed (member_meta c (obj_type object))
              (find_member_meta c (obj_type object) (obj_id object))) 0) as [E | E].
  - rewrite (find_and_add_object_not_found c object E). tauto.
  - rewrite (find_and_add_object_found c object E). cbn [fst]. split; [discriminate | tauto].
Qed.

(** X4: with the vector sorted, [find_and_add_object] returns false
    exactly when no record that is not removed has the id of the
    object, and then it changes nothing: the object is not stored, no
    counter moves and no callback runs. *)
Theorem find_and_add_object_rejects (c : Collector) (object : OSMObject) :
  non_decreasing (member_meta c (obj_type object)) ->
  (fst (find_and_add_object c object) = false <->
   forall mm, In mm (member_meta c (obj_type object)) ->
     member_id mm = obj_id object -> removed mm = true) /\
  (fst (find_and_add_object c object) = false -> snd (find_and_add_object c object) = c).
Proof.
  intros Hs. split; [split|].
  - intros H mm Hin Hid. apply find_and_add_object_fst in H.
    apply In_nth_error in Hin. destruct Hin as [i Hi].
    apply (count_not_removed_zero _ _ i mm H); [|exact Hi].
    apply (equal_range_spec _ _ i mm Hs Hi). exact Hid.
  - intros H. apply find_and_add_object_fst.
    apply count_not_removed_all_removed; assumption.
  - intros H. apply find_and_add_object_fst in H.
    rewrite (find_and_add_object_not_found c object H). reflexivity.
Qed.

(** ** What pass 2 leaves alone *)

Lemma find_and_add_object_static c object :
  let c' := snd (find_and_add_object c object) in
  m_relations_buffer c' = m_relations_buffer c /\
  List.length (m_relations c') = List.length (m_relations c).
Proof.
  cbv zeta.
  destruct (Nat.eq_dec (count_not_removed (member_meta c (obj_type object))
              (find_member_meta c (obj_type object) (obj_id object))) 0) as [E | E].
  - rewrite (find_and_add_object_not_found c object E). split; reflexivity.
  - rewrite (find_and_add_object_found c object E). cbn [snd].
    set (c2 := set_member_meta _ _ _).
    destruct (add_loop_spec (snd (find_member_meta c (obj_type object) (obj_id object))
                             - fst (find_member_meta c (obj_type object) (obj_id object)))
                (obj_type object)
                (fst (find_member_meta c (obj_type object) (obj_id object))) c2)
      as (k & new & _ & _ & _ & K4 & K5 & _).
    rewrite K4, K5. unfold c2. split; destruct (obj_type object); reflexivity.
Qed.

Section SecondPassFrame.

Context {hooks : Hooks}.

Lemma handler_pass2_static c o :
  evolves c (handler_pass2 c o) /\
  m_relations_buffer (handler_pass2 c o) = m_relations_buffer c /\
  List.length (m_relations (handler_pass2 c o)) = List.length (m_relations c).
Proof.
  unfold handler_pass2. destruct (interested_in (obj_type o));
    [|split; [apply evolves_refl | split; reflexivity]].
  pose proof (find_and_add_object_evolves c o) as He.
  pose proof (find_and_add_object_static c o) as Hs. cbv zeta in Hs.
  destruct (find_and_add_object c o) as [found c']. cbn [snd] in He, Hs.
  destruct found; [tauto|].
  split; [|exact Hs]. intros t. specialize (He t). destruct t; exact He.
Qed.

Lemma pass2_keeps_the_index_aux c input :
  evolves c (apply_pass2 c input) /\
  m_relations_buffer (apply_pass2 c input) = m_relations_buffer c /\
  List.length (m_relations (apply_pass2 c input)) = List.length (m_relations c).
Proof.
  unfold apply_pass2, flush. revert c. induction input as [|o input IH]; intros c.
  - split; [|split; reflexivity]. intros t. destruct t; apply Forall2_refl_all;
      intros a; repeat split; auto.
  - cbn [fold_left]. destruct (IH (handler_pass2 c o)) as (He & Hb & Hl).
    destruct (handler_pass2_static c o) as (He0 & Hb0 & Hl0).
    split; [apply (evolves_trans _ _ _ He0 He) |].
    split; [rewrite Hb; exact Hb0 | rewrite Hl; exact Hl0].
Qed.

(** X5: pass 2, over any input and from any state, never changes the
    relations arena, the number of RelationMetas, or the id,
    [relation_pos] and [member_pos] of a record; it never takes an
    offset or a removed flag back; so the vectors stay sorted and every
    id keeps its range. *)
Theorem pass2_keeps_the_index (c : Collector) (input : list OSMObject) :
  let c' := apply_pass2 c input in
  evolves c c' /\
  m_relations_buffer c' = m_relations_buffer c /\
  List.length (m_relations c') = List.length (m_relations c) /\
  (forall t id, find_member_meta c' t id = find_member_meta c t id) /\
  (forall t, non_decreasing (member_meta c t) -> non_decreasing (member_meta c' t)).
Proof.
  cbv zeta. destruct (pass2_keeps_the_index_aux c input) as (He & Hb & Hl).
  split; [exact He | split; [exact Hb | split; [exact Hl | split]]].
  - intros t id. unfold find_member_meta. apply equal_range_ids.
    apply (evolves_ids _ _ t He).
  - intros t. apply non_decreasing_ids. symmetry. apply (evolves_ids _ _ t He).
Qed.

(** ** Objects that the handlers skip *)

Lemma fold_handler_pass2_filter input : forall c,
  fold_left handler_pass2 input c =
  fold_left handler_pass2 (filter (fun o => interested_in (obj_type o)) input) c.
Proof.
  induction input as [|o input IH]; intros c; [reflexivity|].
  cbn [filter fold_left]. destruct (interested_in (obj_type o)) eqn:E.
  - cbn [fold_left]. apply IH.
  - rewrite <- IH. unfold handler_pass2 at 2. rewrite E. reflexivity.
Qed.

Lemma fold_handler_pass1_filter input : forall c,
  fold_left handler_pass1 input c =
  fold_left handler_pass1
    (filter (fun o => item_type_eqb (obj_type o) relation && keep_relation o) input) c.
Proof.
  induction input as [|o input IH]; intros c; [reflexivity|].
  cbn [filter fold_left].
  destruct (item_type_eqb (obj_type o) relation && keep_relation o) eqn:E.
  - cbn [fold_left]. apply IH.
  - rewrite <- IH. f_equal. unfold handler_pass1.
    destruct (obj_type o); try reflexivity. simpl in E. rewrite E. reflexivity.
Qed.

(** X6: both passes depend on the part of the input they look at only:
    pass 1 on the relations that [keep_relation] accepts, pass 2 on the
    objects of the kinds the collector is interested in; all other
    objects could be left out of the stream. *)
Theorem passes_skip_uninteresting (c : Collector) (input : list OSMObject) :
  read_relations c input =
    read_relations c
      (filter (fun o => item_type_eqb (obj_type o) relation && keep_relation o) input) /\
  apply_pass2 c input =
    apply_pass2 c (filter (fun o => interested_in (obj_type o)) input).
Proof.
  unfold read_relations, apply_pass2.
  rewrite <- fold_handler_pass1_filter, <- fold_handler_pass2_filter. split; reflexivity.
Qed.

End SecondPassFrame.

(** ** [clean_assembled_relations] *)

Lemma filter_filter_same (A : Type) (f : A -> bool) (l : list A) :
  filter f (filter f l) = filter f l.
Proof.
  induction l as [|a l IH]; [reflexivity|]. simpl. destruct (f a) eqn:E; [|exact IH].
  simpl. rewrite E, IH. reflexivity.
Qed.

(** X7: [clean_assembled_relations()] leaves in [m_relations], in their
    order, exactly the RelationMetas that [get_incomplete_relations()]
    reports, each still with members outstanding; the report itself is
    not affected, a second call changes nothing, and neither the arenas
    nor the MemberMeta vectors are touched, so that the [relation_pos]
    of the records is not adjusted to the shorter vector. *)
Theorem clean_assembled_relations_keeps_incomplete (c : Collector) :
  let c' := clean_assembled_relations c in
  map relation_offset (m_relations c') = get_incomplete_relations c /\
  Forall (fun rm => need_members rm <> 0%Z) (m_relations c') /\
  get_incomplete_relations c' = get_incomplete_relations c /\
  clean_assembled_relations c' = c' /\
  m_relations_buffer c' = m_relations_buffer c /\
  m_members_buffer c' = m_members_buffer c /\
  (forall t, member_meta c' t = member_meta c t) /\
  events c' = events c.
Proof.
  cbv zeta. unfold clean_assembled_relations, get_incomplete_relations.
  cbn [set_relations m_relations].
  split; [reflexivity|]. split.
  - apply Forall_forall. intros rm Hin. apply filter_In in Hin. destruct Hin as [_ H].
    unfold has_all_members in H. intros E. rewrite E in H. discriminate.
  - split; [rewrite filter_filter_same; reflexivity|].
    split; [unfold set_relations; cbn; rewrite filter_filter_same; reflexivity|].
    split; [reflexivity|]. split; [reflexivity|]. split; [intros []; reflexivity | reflexivity].
Qed.

(** ** [add_relation], member by member *)

Lemma zero_ref_at_app pre m ms :
  zero_ref_at (pre ++ m :: ms) (List.length pre) = pre ++ zero_ref m :: ms.
Proof. induction pre as [|a pre IH]; simpl; [reflexivity | rewrite IH; reflexivity]. Qed.

Section AddRelationExact.

Context {hooks : Hooks}.

Lemma add_members_exact ms : forall n c rm items r pre,
  Forall (fun x => 0 < obj_padded_size x) items ->
  b_items (m_relations_buffer c) = items ++ [r] ->
  obj_members r = pre ++ ms ->
  List.length pre = n ->
  let flags := kept_flags rm ms in
  let st := add_members ms n (bytes items) (c, rm) in
  b_items (m_relations_buffer (fst st))
    = items ++ [set_members r (pre ++ marked_members ms flags)] /\
  b_ncommitted (m_relations_buffer (fst st)) = b_ncommitted (m_relations_buffer c) /\
  m_members_buffer (fst st) = m_members_buffer c /\
  m_relations (fst st) = m_relations c /\
  m_count_complete (fst st) = m_count_complete c /\
  m_log (fst st) = m_log c /\
  (forall t, member_meta (fst st) t =
             member_meta c t ++ new_records t (List.length (m_relations c)) n ms flags) /\
  snd st = mkRelationMeta (relation_offset rm)
                          (need_members rm + Z.of_nat (count_kept flags)).
Proof.
  induction ms as [|m ms IH]; intros n c rm items r pre Hpos Hitems Hmem Hn.
  - cbn. rewrite Hitems, <- Hmem. repeat split.
    + destruct r; reflexivity.
    + intros t. rewrite app_nil_r. reflexivity.
    + destruct rm as [o k]. cbn. f_equal. lia.
  - cbn [add_members kept_flags marked_members new_records].
    destruct (keep_member rm m) eqn:K.
    + set (c1 := set_member_meta c (member_type m) _).
      specialize (IH (S n) c1 (increment_need_members rm) items r (pre ++ [m]) Hpos).
      destruct IH as (I1 & I2 & I3 & I4 & I5 & I6 & I7 & I8).
      * unfold c1. rewrite <- Hitems. destruct (member_type m); reflexivity.
      * rewrite Hmem, <- app_assoc. reflexivity.
      * rewrite length_app. cbn. lia.
      * assert (m_relations c1 = m_relations c) as HR
          by (unfold c1; destruct (member_type m); reflexivity).
        rewrite I1, I2, I3, I4, I5, I6, I8. rewrite <- app_assoc. cbn [app].
        split; [reflexivity|].
        split; [unfold c1; destruct (member_type m); reflexivity|].
        split; [unfold c1; destruct (member_type m); reflexivity|].
        split; [exact HR|].
        split; [unfold c1; destruct (member_type m); reflexivity|].
        split; [unfold c1; destruct (member_type m); reflexivity|].
        split.
        -- intros t. rewrite I7, HR. cbn [andb].
           destruct (item_type_eq_dec (member_type m) t) as [<- | Hne].
           ++ unfold c1. rewrite member_meta_set_same.
              replace (item_type_eqb (member_type m) (member_type m)) with true
                by (destruct (member_type m); reflexivity).
              rewrite <- app_assoc. reflexivity.
           ++ unfold c1. rewrite member_meta_set_other by exact Hne.
              replace (item_type_eqb (member_type m) t) with false
                by (destruct (member_type m), t; try reflexivity; contradiction).
              reflexivity.
        -- unfold count_kept. cbn [filter List.length increment_need_members
                                   relation_offset need_members]. f_equal. lia.
    + set (c1 := set_relations_buffer c _).
      specialize (IH (S n) c1 rm items (set_member_ref_zero r n) (pre ++ [zero_ref m]) Hpos).
      destruct IH as (I1 & I2 & I3 & I4 & I5 & I6 & I7 & I8).
      * unfold c1, buffer_update. cbn. rewrite Hitems. apply update_at_app_end. exact Hpos.
      * cbn. rewrite Hmem, <- Hn, zero_ref_at_app, <- app_assoc. reflexivity.
      * rewrite length_app. cbn. lia.
      * rewrite I1, I2, I3, I4, I5, I6, I8. rewrite <- app_assoc. cbn [app].
        split; [reflexivity|].
        repeat (split; [reflexivity|]).
        split.
        -- intros t. rewrite I7. cbn [andb app].
           replace (member_meta c1 t) with (member_meta c t) by (destruct t; reflexivity).
           reflexivity.
        -- unfold count_kept. cbn [filter]. reflexivity.
Qed.

(** X8: [add_relation] on a relation, the relations arena being
    committed: [keep_member] is asked for the members in their order,
    each time with the count of the members kept before.  If no member
    is kept the collector is as before.  Otherwise the arena gets one
    committed copy of the relation in which exactly the members that
    were not kept have the ref 0, found at the offset that the new
    RelationMeta holds; [need_members] is the number of kept members;
    each vector gets, at its end and in member order, one fresh record
    (member ref, index of the new RelationMeta, position of the member)
    per kept member of its kind; nothing else changes. *)
Theorem add_relation_member_by_member (c : Collector) (rel : OSMObject) :
  let offset := committed (m_relations_buffer c) in
  let flags := kept_flags (RelationMeta_at offset) (obj_members rel) in
  let copy := set_members rel (marked_members (obj_members rel) flags) in
  let c' := add_relation c rel in
  buffer_wf (m_relations_buffer c) ->
  (count_kept flags = 0 -> c' = c) /\
  (count_kept flags <> 0 ->
     b_items (m_relations_buffer c') = b_items (m_relations_buffer c) ++ [copy] /\
     b_ncommitted (m_relations_buffer c') = S (List.length (b_items (m_relations_buffer c))) /\
     get_relation c' offset = Some copy /\
     m_relations c' = m_relations c ++ [mkRelationMeta offset (Z.of_nat (count_kept flags))] /\
     (forall t, member_meta c' t =
        member_meta c t
        ++ new_records t (List.length (m_relations c)) 0 (obj_members rel) flags) /\
     m_members_buffer c' = m_members_buffer c /\
     m_count_complete c' = m_count_complete c /\
     events c' = events c).
Proof.
  intros offset flags copy c' [Hn Hpos].
  assert (offset = bytes (b_items (m_relations_buffer c))) as Hoff
    by (apply committed_wf; split; assumption).
  unfold c', add_relation. fold offset.
  set (c0 := set_relations_buffer c (add_item (m_relations_buffer c) rel)).
  assert (buffer_get (m_relations_buffer c0) offset = Some rel) as Hget
    by (rewrite Hoff; unfold c0, buffer_get; cbn; apply get_at_app_end; exact Hpos).
  rewrite Hget.
  pose proof (add_members_exact (obj_members rel) 0 c0 (RelationMeta_at offset)
                (b_items (m_relations_buffer c)) rel [] Hpos eq_refl eq_refl eq_refl) as E.
  cbv zeta in E. rewrite <- Hoff in E. fold flags in E. cbn [app] in E. fold copy in E.
  destruct (add_members (obj_members rel) 0 offset (c0, RelationMeta_at offset)) as [c1 rm1].
  cbn [fst snd] in E. destruct E as (E1 & E2 & E3 & E4 & E5 & E6 & E7 & E8).
  subst rm1. cbn [RelationMeta_at relation_offset need_members Z.add] in *.
  unfold has_all_members. cbn [need_members].
  change (m_relations c0) with (m_relations c) in *.
  change (b_ncommitted (m_relations_buffer c0)) with (b_ncommitted (m_relations_buffer c)) in E2.
  change (m_members_buffer c0) with (m_members_buffer c) in E3.
  change (m_count_complete c0) with (m_count_complete c) in E5.
  change (m_log c0) with (m_log c) in E6.
  assert (forall t, member_meta c0 t = member_meta c t) as Hv0 by (intros []; reflexivity).
  split.
  - intros Hz. rewrite Hz. cbn [Z.of_nat Z.eqb].
    assert (forall t, member_meta c1 t = member_meta c t) as Hv.
    { intros t. rewrite E7, Hv0.
      assert (forall ms fl n, count_kept fl = 0 ->
                new_records t (List.length (m_relations c)) n ms fl = []) as Hnone.
      { induction ms as [|m ms IHms]; intros fl n Hfl; [reflexivity|].
        destruct fl as [|k fl]; [reflexivity|]. cbn [new_records].
        destruct k; [discriminate Hfl|]. cbn [andb app]. apply IHms. exact Hfl. }
      rewrite (Hnone _ _ _ Hz), app_nil_r. reflexivity. }
    unfold rollback. rewrite E1, E2, Hn, firstn_app, firstn_all, Nat.sub_diag.
    cbn [firstn]. rewrite app_nil_r.
    pose proof (Hv node) as Hnode. pose proof (Hv way) as Hway.
    pose proof (Hv relation) as Hrel. cbn [member_meta] in Hnode, Hway, Hrel.
    destruct c as [[items k] mb rms vn vw vr cc lg]. destruct c1 as [b1 mb1 rms1 vn1 vw1 vr1 cc1 lg1].
    cbn in *. subst. reflexivity.
  - intros Hnz.
    assert ((Z.of_nat (count_kept flags) =? 0)%Z = false) as -> by (apply Z.eqb_neq; lia).
    cbn [set_relations set_relations_buffer commit snd m_relations_buffer m_relations
         m_members_buffer m_count_complete b_items b_ncommitted get_relation buffer_get].
    rewrite E1, E4. split; [reflexivity|].
    split; [rewrite length_app; cbn; lia|].
    split; [rewrite Hoff; apply get_at_app_end; exact Hpos|].
    split; [reflexivity|].
    split; [intros t; rewrite <- Hv0, <- E7; destruct t; reflexivity|].
    split; [exact E3|]. split; [exact E5|]. unfold events. cbn. rewrite E6. reflexivity.
Qed.

End AddRelationExact.

(** ** The records lead to the members they stand for *)

Lemma get_at_app_some items more : forall off r,
  get_at items off = Some r -> get_at (items ++ more) off = Some r.
Proof.
  induction items as [|o items IH]; intros off r H; [discriminate|].
  cbn [get_at app] in *. destruct (off =? 0); [exact H|].
  destruct (off <? obj_padded_size o); [discriminate|]. apply IH. exact H.
Qed.

Lemma new_records_In t pos ms : forall flags n mm,
  In mm (new_records t pos n ms flags) ->
  exists j m, nth_error ms j = Some m /\ nth_error flags j = Some true /\
              member_type m = t /\ mm = MemberMeta_new (member_ref m) pos (n + j).
Proof.
  induction ms as [|m ms IH]; intros flags n mm H; [contradiction|].
  destruct flags as [|k flags]; [contradiction|].
  cbn [new_records] in H. apply in_app_or in H. destruct H as [H | H].
  - destruct k; [|contradiction]. cbn [andb] in H.
    destruct (item_type_eqb (member_type m) t) eqn:E; [|contradiction].
    destruct H as [<- | []]. exists 0, m. rewrite Nat.add_0_r.
    repeat split; try reflexivity.
    destruct (member_type m), t; try discriminate; reflexivity.
  - destruct (IH flags (S n) mm H) as (j & m' & H1 & H2 & H3 & H4).
    exists (S j), m'. rewrite Nat.add_succ_r. auto.
Qed.

Lemma marked_members_kept ms : forall flags j m,
  nth_error ms j = Some m -> nth_error flags j = Some true ->
  nth_error (marked_members ms flags) j = Some m.
Proof.
  induction ms as [|a ms IH]; intros flags j m Hm Hf; [destruct j; discriminate|].
  destruct flags as [|k flags]; [destruct j; discriminate|].
  destruct j as [|j]; cbn in *.
  - injection Hf as ->. exact Hm.
  - apply IH; assumption.
Qed.

Section RecordsResolve.

Context {hooks : Hooks}.

Lemma add_relation_index_ok c rel :
  0 < obj_padded_size rel -> index_ok c -> index_ok (add_relation c rel).
Proof.
  intros Hsize [[Hn Hpos] Hres].
  assert (committed (m_relations_buffer c) = bytes (b_items (m_relations_buffer c))) as Hoff
    by (apply committed_wf; split; assumption).
  unfold add_relation. rewrite Hoff.
  set (offset := bytes (b_items (m_relations_buffer c))).
  set (c0 := set_relations_buffer c (add_item (m_relations_buffer c) rel)).
  assert (buffer_get (m_relations_buffer c0) offset = Some rel) as Hget
    by (unfold c0, buffer_get; cbn; apply get_at_app_end; exact Hpos).
  rewrite Hget.
  pose proof (add_members_exact (obj_members rel) 0 c0 (RelationMeta_at offset)
                (b_items (m_relations_buffer c)) rel [] Hpos eq_refl eq_refl eq_refl) as E.
  cbv zeta in E. fold offset in E. cbn [app] in E.
  set (flags := kept_flags (RelationMeta_at offset) (obj_members rel)) in *.
  set (copy := set_members rel (marked_members (obj_members rel) flags)) in *.
  destruct (add_members (obj_members rel) 0 offset (c0, RelationMeta_at offset)) as [c1 rm1].
  cbn [fst snd] in E. destruct E as (E1 & E2 & _ & E4 & _ & _ & E7 & E8).
  change (m_relations c0) with (m_relations c) in *.
  change (b_ncommitted (m_relations_buffer c0)) with (b_ncommitted (m_relations_buffer c)) in E2.
  assert (forall t, member_meta c0 t = member_meta c t) as Hv0 by (intros []; reflexivity).
  assert (forall (cR : Collector) t mm,
            (forall p rm, nth_error (m_relations c) p = Some rm ->
                          nth_error (m_relations cR) p = Some rm) ->
            (forall off r, get_relation c off = Some r -> get_relation cR off = Some r) ->
            resolves c t mm -> resolves cR t mm) as Hold.
  { intros cR t mm H1 H2 (rm & r & m & R1 & R2 & R3). exists rm, r, m.
    split; [apply H1; exact R1 | split; [apply H2; exact R2 | exact R3]]. }
  unfold has_all_members. destruct (need_members rm1 =? 0)%Z eqn:Z0.
  - (* rolled back *)
    assert (count_kept flags = 0) as Hz.
    { apply Z.eqb_eq in Z0. rewrite E8 in Z0. cbn in Z0. lia. }
    assert (forall t, member_meta c1 t = member_meta c t) as Hv.
    { intros t. rewrite E7, Hv0.
      assert (forall ms fl n, count_kept fl = 0 ->
                new_records t (List.length (m_relations c)) n ms fl = []) as Hnone.
      { induction ms as [|m ms IHms]; intros fl n Hfl; [reflexivity|].
        destruct fl as [|k fl]; [reflexivity|]. cbn [new_records].
        destruct k; [discriminate Hfl|]. cbn [andb app]. apply IHms. exact Hfl. }
      rewrite (Hnone _ _ _ Hz), app_nil_r. reflexivity. }
    set (cR := set_relations_buffer c1 _).
    assert (b_items (m_relations_buffer cR) = b_items (m_relations_buffer c)) as HbR.
    { unfold cR, rollback. cbn [set_relations_buffer m_relations_buffer b_items].
      rewrite E1, E2, Hn, firstn_app, firstn_all, Nat.sub_diag.
      cbn [firstn]. apply app_nil_r. }
    assert (b_ncommitted (m_relations_buffer cR) = b_ncommitted (m_relations_buffer c)) as HnR
      by (unfold cR, rollback; cbn [set_relations_buffer m_relations_buffer b_ncommitted];
          exact E2).
    split.
    + split; [rewrite HnR, HbR; exact Hn | rewrite HbR; exact Hpos].
    + intros t. replace (member_meta cR t) with (member_meta c t)
        by (rewrite <- Hv; destruct t; reflexivity).
      eapply Forall_impl; [|apply Hres]. intros mm. apply Hold.
      * intros p rm Hp. unfold cR. cbn. rewrite E4. exact Hp.
      * intros off r Hr. unfold get_relation, buffer_get. rewrite HbR. exact Hr.
  - (* committed *)
    set (cR := set_relations _ _).
    assert (b_items (m_relations_buffer cR) = b_items (m_relations_buffer c) ++ [copy]) as HbR
      by (unfold cR; cbn; exact E1).
    assert (m_relations cR = m_relations c ++ [rm1]) as HrR
      by (unfold cR; cbn; rewrite E4; reflexivity).
    assert (forall t, member_meta cR t =
              member_meta c t
              ++ new_records t (List.length (m_relations c)) 0 (obj_members rel) flags) as HvR
      by (intros t; rewrite <- Hv0, <- E7; destruct t; reflexivity).
    split.
    + split.
      * unfold cR. cbn. reflexivity.
      * rewrite HbR. apply Forall_app. split; [exact Hpos|]. constructor; [exact Hsize | constructor].
    + intros t. rewrite HvR. apply Forall_app. split.
      * eapply Forall_impl; [|apply Hres]. intros mm. apply Hold.
        -- intros p rm Hp. rewrite HrR. rewrite nth_error_app1; [exact Hp|].
           apply nth_error_Some. rewrite Hp. discriminate.
        -- intros off r Hr. unfold get_relation, buffer_get. rewrite HbR.
           apply get_at_app_some. exact Hr.
      * apply Forall_forall. intros mm Hin.
        destruct (new_records_In _ _ _ _ _ _ Hin) as (j & m & H1 & H2 & H3 & ->).
        exists rm1, copy, m. cbn [MemberMeta_new relation_pos member_pos member_id].
        split; [rewrite HrR, nth_error_app2, Nat.sub_diag by lia; reflexivity|].
        split.
        -- rewrite E8. cbn [relation_offset RelationMeta_at].
           unfold get_relation, buffer_get. rewrite HbR. apply get_at_app_end. exact Hpos.
        -- split; [|split; [exact H3 | reflexivity]].
           unfold copy. cbn. apply marked_members_kept; assumption.
Qed.

Lemma pass1_index_ok input : forall c,
  Forall (fun o => 0 < obj_padded_size o) input ->
  index_ok c -> index_ok (fold_left handler_pass1 input c).
Proof.
  induction input as [|o input IH]; intros c Hpos H; [exact H|].
  cbn [fold_left]. inversion Hpos as [|? ? Ho Hrest]; subst.
  apply IH; [exact Hrest|]. unfold handler_pass1. destruct (obj_type o); try exact H.
  destruct (keep_relation o); [apply add_relation_index_ok; assumption | exact H].
Qed.

(** X9: after pass 1 over an input whose objects take up room, every
    MemberMeta leads to the member it stands for: [relation_pos] is the
    index of a RelationMeta whose offset is that of a relation in the
    relations arena, and this relation has at [member_pos] a member of
    the kind of the vector with the ref [member_id]. *)
Theorem records_lead_to_their_members (input : list OSMObject) (t : item_type)
        (mm : MemberMeta) :
  let c := read_relations Collector_new input in
  Forall (fun o => 0 < obj_padded_size o) input ->
  In mm (member_meta c t) ->
  exists rm r m,
    nth_error (m_relations c) (relation_pos mm) = Some rm /\
    get_relation c (relation_offset rm) = Some r /\
    get_relation_of_member c mm = Some r /\
    nth_error (obj_members r) (member_pos mm) = Some m /\
    member_type m = t /\ member_ref m = member_id mm.
Proof.
  intros c Hpos Hin.
  assert (index_ok (fold_left handler_pass1 input Collector_new)) as [_ H].
  { apply pass1_index_ok; [exact Hpos|]. split.
    - split; [reflexivity | constructor].
    - intros []; constructor. }
  unfold c, read_relations in Hin. rewrite sort_member_meta_vectors in Hin.
  apply (Permutation_in _ (std_sort_perm _)) in Hin.
  specialize (H t). rewrite Forall_forall in H.
  destruct (H mm Hin) as (rm & r & m & R1 & R2 & R3).
  exists rm, r, m. split; [exact R1|]. split; [exact R2|]. split; [|exact R3].
  unfold get_relation_of_member, get_relation_of_meta.
  change (m_relations c) with (m_relations (fold_left handler_pass1 input Collector_new)).
  rewrite R1. exact R2.
Qed.

End RecordsResolve.

(** ** With at most 10000 relations the members stay where they are *)

Lemma completed_bound c :
  completed_once c -> completions_sound c ->
  List.length (completed_positions (events c)) <= List.length (m_relations c).
Proof.
  intros [Hnd _] [Hval _].
  rewrite <- (length_seq (List.length (m_relations c)) 0).
  apply NoDup_incl_length; [exact Hnd|]. intros p Hp. apply in_seq.
  specialize (Hval p Hp). lia.
Qed.

Lemma member_found_count t i mm rm0 c :
  m_count_complete (member_found t i mm rm0 c) =
    if has_all_members (got_one_member rm0)
    then (if (10000 <? m_count_complete c + 1)%Z then 0 else m_count_complete c + 1)%Z
    else m_count_complete c.
Proof.
  unfold member_found. destruct (has_all_members (got_one_member rm0)); [|reflexivity].
  unfold on_complete.
  set (c1 := set_relations c _). set (c3 := log_event c1 _).
  set (c4 := clear_member_metas c3 (got_one_member rm0)). set (c5 := set_relations c4 _).
  destruct (clear_member_metas_frame c3 (got_one_member rm0)) as (_ & _ & _ & A4 & _).
  fold c4 in A4.
  rewrite (proj2 (possibly_purge_step c5)).
  replace (m_count_complete c5) with (m_count_complete c) by (unfold c5; cbn; rewrite A4; reflexivity).
  reflexivity.
Qed.

Lemma never_purged_same c c' :
  m_relations c' = m_relations c ->
  completed_positions (events c') = completed_positions (events c) ->
  m_count_complete c' = m_count_complete c -> never_purged c -> never_purged c'.
Proof.
  intros H1 He H3 (A & B & C & D).
  split; [revert A; apply completed_once_same; [exact H1 | exact He]|].
  split; [revert B; apply completions_sound_same; [exact H1 | exact He]|].
  rewrite H3, He, H1. split; assumption.
Qed.

Lemma member_found_never_purged t i mm rm0 c :
  nth_error (m_relations c) (relation_pos mm) = Some rm0 ->
  never_purged c ->
  never_purged (member_found t i mm rm0 c) /\ quiet c (member_found t i mm rm0 c).
Proof.
  intros Hrm0 (A & B & C & D).
  pose proof (member_found_once t i mm rm0 c Hrm0 A) as A'.
  pose proof (member_found_sound t i mm rm0 c Hrm0 B) as B'.
  pose proof (completed_bound _ A' B') as Hb.
  destruct (member_found_spec t i mm rm0 c) as (_ & (rm1 & S2 & _) & _ & S5).
  assert (List.length (m_relations (member_found t i mm rm0 c)) = List.length (m_relations c))
    as Hlen by (rewrite S2; apply update_nth_length).
  rewrite S5, completed_positions_app, member_found_events_positions, length_app, Hlen in Hb.
  pose proof (member_found_count t i mm rm0 c) as Hc.
  destruct (has_all_members (got_one_member rm0)) eqn:E.
  - cbn [List.length] in Hb.
    assert ((10000 <? m_count_complete c + 1)%Z = false) as Hno by (apply Z.ltb_ge; lia).
    rewrite Hno in Hc. split.
    + split; [exact A'|]. split; [exact B'|]. split; [|rewrite Hlen; exact D].
      rewrite Hc, S5, completed_positions_app, member_found_events_positions, E, length_app.
      cbn [List.length]. lia.
    + apply member_found_quiet. lia.
  - split.
    + split; [exact A'|]. split; [exact B'|]. split; [|rewrite Hlen; exact D].
      rewrite Hc, S5, completed_positions_app, member_found_events_positions, E, app_nil_r.
      exact C.
    + unfold member_found. rewrite E. apply quiet_same; [intros []|]; reflexivity.
Qed.

Lemma add_loop_never_purged n t : forall i c,
  never_purged c -> never_purged (add_loop n t i c) /\ quiet c (add_loop n t i c).
Proof.
  induction n as [|n IH]; intros i c H; [split; [exact H | apply quiet_refl]|].
  rewrite add_loop_S.
  destruct (nth_error (member_meta c t) i) as [mm|]; [|split; [exact H | apply quiet_refl]].
  destruct (removed mm); [split; [exact H | apply quiet_refl]|].
  destruct (nth_error (m_relations c) (relation_pos mm)) as [rm0|] eqn:E.
  - destruct (member_found_never_purged t i mm rm0 c E H) as [H1 Q1].
    destruct (IH (S i) _ H1) as [H2 Q2]. split; [exact H2 | apply (quiet_trans _ _ _ Q1 Q2)].
  - apply IH. exact H.
Qed.

Lemma quiet_wf c c' :
  quiet c c' -> buffer_wf (m_members_buffer c) -> buffer_wf (m_members_buffer c').
Proof.
  intros (_ & Hf & Hn) [Hc Hpos]. split.
  - rewrite Hn, Hc. apply (Forall2_length Hf).
  - clear Hn Hc. induction Hf as [|a b u v Hab _ IH]; [constructor|].
    inversion Hpos; subst. constructor; [rewrite (flagged_size _ _ Hab); assumption | auto].
Qed.

Lemma add_members_members_buffer {hooks : Hooks} ms : forall n offset st,
  m_members_buffer (fst (add_members ms n offset st)) = m_members_buffer (fst st) /\
  m_count_complete (fst (add_members ms n offset st)) = m_count_complete (fst st).
Proof.
  induction ms as [|m ms IH]; intros n offset [c rm]; [split; reflexivity|].
  cbn [add_members]. destruct (IH (S n) offset
    (if keep_member rm m
     then (set_member_meta c (member_type m)
             (member_meta c (member_type m)
              ++ [MemberMeta_new (member_ref m) (List.length (m_relations c)) n]),
           increment_need_members rm)
     else (set_relations_buffer c
             (buffer_update (m_relations_buffer c) offset
                (fun o => set_member_ref_zero o n)), rm))) as [I1 I2].
  rewrite I1, I2. destruct (keep_member rm m); cbn [fst]; [|split; reflexivity].
  destruct (member_type m); split; reflexivity.
Qed.

Section MembersStay.

Context {hooks : Hooks}.

Lemma read_relations_members_buffer input : forall c,
  m_members_buffer (read_relations c input) = m_members_buffer c /\
  m_count_complete (read_relations c input) = m_count_complete c.
Proof.
  unfold read_relations. intros c.
  assert (forall c', m_members_buffer (sort_member_meta c') = m_members_buffer c') as ->
    by reflexivity.
  assert (forall c', m_count_complete (sort_member_meta c') = m_count_complete c') as ->
    by reflexivity.
  revert c. induction input as [|o input IH]; intros c; [split; reflexivity|].
  cbn [fold_left]. destruct (IH (handler_pass1 c o)) as [-> ->].
  unfold handler_pass1. destruct (obj_type o); try (split; reflexivity).
  destruct (keep_relation o); [|split; reflexivity].
  unfold add_relation.
  set (st := add_members _ 0 _ _).
  pose proof (add_members_members_buffer
    (match buffer_get (m_relations_buffer
                         (set_relations_buffer c (add_item (m_relations_buffer c) o)))
                      (committed (m_relations_buffer c)) with
     | Some r => obj_members r | None => [] end) 0 (committed (m_relations_buffer c))
    (set_relations_buffer c (add_item (m_relations_buffer c) o),
     RelationMeta_at (committed (m_relations_buffer c)))) as L.
  fold st in L. destruct st as [c1 rm1]. cbn [fst] in L.
  destruct (has_all_members rm1); cbn; exact L.
Qed.

Lemma handler_pass2_never_purged c o : never_purged c -> never_purged (handler_pass2 c o).
Proof.
  intros H. unfold handler_pass2. destruct (interested_in (obj_type o)); [|exact H].
  destruct (Nat.eq_dec (count_not_removed (member_meta c (obj_type o))
              (find_member_meta c (obj_type o) (obj_id o))) 0) as [E | E].
  - rewrite (find_and_add_object_not_found c o E).
    revert H. apply never_purged_same; try reflexivity.
    unfold events. simpl. rewrite completed_positions_app. simpl. apply app_nil_r.
  - rewrite (find_and_add_object_found c o E).
    apply add_loop_never_purged. revert H.
    apply never_purged_same; destruct (obj_type o); reflexivity.
Qed.

Lemma handler_pass2_stored done c1 c done2 o :
  pass1_ok done c1 ->
  (forall t, non_decreasing (member_meta c1 t)) ->
  pass2_ok c1 c (arrivals done2) ->
  never_purged c ->
  members_stored c done2 ->
  ~ In (key o) (map key done2) ->
  0 < obj_padded_size o ->
  members_stored (handler_pass2 c o) (done2 ++ [o]).
Proof.
  intros P1 Hsorted1 P2 NP [Hwf Hst] Hnew Hsize.
  assert (forall t, non_decreasing (member_meta c t)) as Hsorted.
  { intros t. destruct P2 as ((_ & He & _) & _).
    apply (non_decreasing_ids (member_meta c1 t)); [|apply Hsorted1].
    symmetry. apply (evolves_ids _ _ t He). }
  unfold handler_pass2. destruct (interested_in (obj_type o)) eqn:Hint.
  2:{ split; [exact Hwf|]. intros t mm o' Hmm Ho' Hi Hk.
      apply in_app_or in Ho'. destruct Ho' as [Ho' | [<- | []]].
      - apply (Hst t mm o' Hmm Ho' Hi Hk).
      - rewrite Hint in Hi. discriminate. }
  set (t0 := obj_type o) in *.
  destruct (Nat.eq_dec (count_not_removed (member_meta c t0)
              (find_member_meta c t0 (obj_id o))) 0) as [E | E].
  - rewrite (find_and_add_object_not_found c o E).
    split; [exact Hwf|]. intros t mm o' Hmm Ho' Hi Hk.
    apply in_app_or in Ho'. destruct Ho' as [Ho' | [<- | []]].
    + destruct (Hst t mm o' Hmm Ho' Hi Hk) as (off & stored & H1 & H2 & H3).
      exists off, stored. auto.
    + exfalso. unfold key in Hk. injection Hk as Ht Hid. fold t0 in Ht. subst t.
      apply In_nth_error in Hmm. destruct Hmm as [j Hj].
      assert (removed mm = true) as Hrem.
      { apply (count_not_removed_zero _ _ j mm E); [|exact Hj].
        apply (equal_range_spec _ _ j mm (Hsorted t0) Hj). symmetry. exact Hid. }
      destruct P2 as (_ & Harr & _).
      specialize (Harr t0 mm (nth_error_In _ _ Hj) Hrem).
      apply arrivedb_true in Harr. apply arrivals_subset in Harr.
      apply Hnew. unfold key at 1. fold t0. rewrite Hid. exact Harr.
  - rewrite (find_and_add_object_found c o E). fold t0.
    set (r := find_member_meta c t0 (obj_id o)).
    set (off := fst (commit (add_item (m_members_buffer c) o))).
    set (cB := set_member_meta _ t0 _).
    assert (off = bytes (b_items (m_members_buffer c))) as Hoff.
    { unfold off, commit, committed, add_item. cbn [fst b_items b_ncommitted].
      rewrite (proj1 Hwf), firstn_app, firstn_all, Nat.sub_diag. cbn [firstn].
      rewrite app_nil_r. reflexivity. }
    assert (b_items (m_members_buffer cB) = b_items (m_members_buffer c) ++ [o]) as HbB
      by (unfold cB; destruct t0; reflexivity).
    assert (buffer_wf (m_members_buffer cB)) as HwfB.
    { destruct Hwf as [Hn Hpos]. split.
      - unfold cB. destruct t0; reflexivity.
      - rewrite HbB. apply Forall_app. split; [exact Hpos | repeat constructor; exact Hsize]. }
    assert (never_purged cB) as NPB
      by (revert NP; apply never_purged_same; unfold cB; destruct t0; reflexivity).
    destruct (add_loop_never_purged (snd r - fst r) t0 (fst r) cB NPB) as [_ Q].
    destruct (add_loop_spec (snd r - fst r) t0 (fst r) cB) as (k & new & _ & _ & Hev & _).
    set (c' := add_loop (snd r - fst r) t0 (fst r) cB) in *.
    split; [apply (quiet_wf _ _ Q HwfB)|].
    intros t mm' o' Hmm' Ho' Hi Hk.
    destruct Q as (Qoff & Qflag & _).
    apply In_nth_error in Hmm'. destruct Hmm' as [j Hj].
    destruct (Forall2_nth_error_back _ _ _ _ _ _ _ (Qoff t) Hj) as [mmB [HjB HoffB]].
    destruct (evolves_nth_error cB c' t j mmB Hev HjB) as [mm'' [Hj'' (Hid & _)]].
    rewrite Hj in Hj''. injection Hj'' as <-.
    assert (forall off0 stored0, get_member cB off0 = Some stored0 ->
              forall x, flagged x stored0 ->
              exists stored, get_member c' off0 = Some stored /\ flagged x stored) as Hget.
    { intros off0 stored0 H0 x Hx. unfold get_member, buffer_get in *.
      destruct (get_at_flagged _ _ Qflag off0 stored0 H0) as [b [Hb1 Hb2]].
      exists b. split; [exact Hb1 | apply (flagged_trans _ _ _ Hx Hb2)]. }
    assert (forall mm0, nth_error (member_meta c t) j = Some mm0 ->
              (t = t0 /\ member_id mm0 = obj_id o /\ mmB = set_buffer_offset mm0 off) \/
              (mmB = mm0 /\ ~ (t = t0 /\ member_id mm0 = obj_id o))) as Hcases.
    { intros mm0 H0. destruct (item_type_eq_dec t0 t) as [<- | Hne].
      - unfold cB in HjB. rewrite member_meta_set_same, nth_error_update_range in HjB.
        rewrite H0 in HjB.
        pose proof (equal_range_spec _ (obj_id o) j mm0 (Hsorted t0) H0) as Hr.
        fold (find_member_meta c t0 (obj_id o)) in Hr. fold r in Hr. unfold in_range in Hr.
        destruct ((fst r <=? j) && (j <? snd r)) eqn:B.
        + apply andb_prop in B. destruct B as [B1 B2].
          apply Nat.leb_le in B1. apply Nat.ltb_lt in B2.
          left. cbn in HjB. injection HjB as <-.
          split; [reflexivity|]. split; [apply Hr; lia | reflexivity].
        + right. injection HjB as <-. split; [reflexivity|]. intros [_ Hid0].
          apply Hr in Hid0. destruct Hid0 as [B1 B2].
          apply Nat.leb_le in B1. apply Nat.ltb_lt in B2. rewrite B1, B2 in B. discriminate.
      - right. unfold cB in HjB. rewrite member_meta_set_other in HjB by exact Hne.
        rewrite member_meta_set_members_buffer, H0 in HjB. injection HjB as <-.
        split; [reflexivity|]. intros [Ht _]. apply Hne. symmetry. exact Ht. }
    assert (exists mm0, nth_error (member_meta c t) j = Some mm0) as [mm0 H0].
    { destruct (nth_error (member_meta c t) j) as [mm0|] eqn:H0; [eauto|]. exfalso.
      apply nth_error_None in H0.
      assert (j < List.length (member_meta cB t)) as Hlt
        by (apply nth_error_Some; rewrite HjB; discriminate).
      assert (List.length (member_meta cB t) = List.length (member_meta c t)) as Hl.
      { unfold cB. destruct (item_type_eq_dec t0 t) as [<- | Hne].
        - rewrite member_meta_set_same, update_range_length. reflexivity.
        - rewrite member_meta_set_other by exact Hne.
          rewrite member_meta_set_members_buffer. reflexivity. }
      lia. }
    unfold stored_for. rewrite HoffB.
    apply in_app_or in Ho'. destruct Ho' as [Ho' | [<- | []]].
    + destruct (Hcases mm0 H0) as [(Ht & Hid0 & HB) | (-> & _)].
      * exfalso. apply Hnew. apply in_map_iff. exists o'. split; [|exact Ho'].
        rewrite Hk, Hid, HB. cbn [set_buffer_offset member_id]. rewrite Hid0, Ht.
        reflexivity.
      * rewrite Hid in Hk.
        destruct (Hst t mm0 o' (nth_error_In _ _ H0) Ho' Hi Hk)
          as (off0 & stored0 & H1 & H2 & H3).
        assert (get_member cB off0 = Some stored0) as H2B.
        { unfold get_member, buffer_get in *. rewrite HbB. apply get_at_app_some. exact H2. }
        destruct (Hget off0 stored0 H2B o' H3) as [stored [G1 G2]].
        exists off0, stored. auto.
    + unfold key in Hk. injection Hk as Ht Hid'. fold t0 in Ht.
      destruct (Hcases mm0 H0) as [(_ & _ & ->) | (-> & Hnot)].
      * assert (get_member cB off = Some o) as H2B.
        { unfold get_member, buffer_get. rewrite HbB, Hoff. apply get_at_app_end.
          apply Hwf. }
        destruct (Hget off o H2B o (flagged_refl o)) as [stored [G1 G2]].
        exists off, stored. auto.
      * exfalso. apply Hnot. split; [symmetry; exact Ht|]. rewrite <- Hid. symmetry. exact Hid'.
Qed.

Lemma pass2_fold_stored done c1 input : forall done2 c,
  pass1_ok done c1 ->
  (forall t, non_decreasing (member_meta c1 t)) ->
  pass2_ok c1 c (arrivals done2) ->
  never_purged c ->
  members_stored c done2 ->
  NoDup (map key (done2 ++ input)) ->
  Forall (fun o => 0 < obj_padded_size o) input ->
  members_stored (fold_left handler_pass2 input c) (done2 ++ input).
Proof.
  induction input as [|o input IH]; intros done2 c P1 Hsorted P2 NP St Hnd Hpos.
  - rewrite app_nil_r. exact St.
  - cbn [fold_left]. inversion Hpos as [|? ? Ho Hrest]; subst.
    replace (done2 ++ o :: input) with ((done2 ++ [o]) ++ input) in *
      by (rewrite <- app_assoc; reflexivity).
    assert (~ In (key o) (map key done2)) as Hnew.
    { rewrite !map_app in Hnd. apply NoDup_app_remove_r in Hnd.
      simpl in Hnd. apply NoDup_remove_2 in Hnd. rewrite app_nil_r in Hnd. exact Hnd. }
    apply IH; [exact P1 | exact Hsorted | | | | exact Hnd | exact Hrest].
    + apply (handler_pass2_ok done); assumption.
    + apply handler_pass2_never_purged. exact NP.
    + apply (handler_pass2_stored done c1); assumption.
Qed.

(** X17: for inputs in which no two objects have the same kind and id
    and every object takes up room, and with no more than 10000 kept
    relations (so that the members arena is never compacted): after
    pass 2 every kept member whose object was in the stream, and is of
    a kind the collector is interested in, is in the members arena,
    unchanged but for the removed flag, at the offset that each of its
    records holds, and [get_offset] and [get_member] find it. *)
Theorem arrived_members_are_stored (input1 input2 : list OSMObject) (t : item_type)
        (mm : MemberMeta) (o : OSMObject) :
  let c1 := read_relations Collector_new input1 in
  let c2 := apply_pass2 c1 input2 in
  Forall (fun x => 0 < obj_padded_size x) input1 ->
  Forall (fun x => 0 < obj_padded_size x) input2 ->
  NoDup (map key input1) ->
  NoDup (map key input2) ->
  (Z.of_nat (List.length (m_relations c1)) <= 10000)%Z ->
  In mm (member_meta c2 t) ->
  In o input2 -> interested_in t = true -> key o = (t, member_id mm) ->
  (exists off stored,
     buffer_offset mm = Some off /\ get_member c2 off = Some stored /\ flagged o stored) /\
  (exists off stored,
     get_offset c2 t (obj_id o) = Some off /\ get_member c2 off = Some stored /\
     flagged o stored).
Proof.
  intros c1 c2 Hpos1 Hpos2 Hnd1 Hnd2 Hmax Hmm Ho Hint Hk.
  destruct (read_relations_ok input1 Hnd1 Hpos1) as [P1 Hsorted]. fold c1 in P1, Hsorted.
  destruct (read_relations_members_buffer input1 Collector_new) as [Hmb Hcc].
  fold c1 in Hmb, Hcc.
  assert (events c1 = []) as Hev1
    by (unfold events, c1; rewrite read_relations_log; reflexivity).
  assert (never_purged c1) as NP1.
  { split; [|split; [|split; [|exact Hmax]]].
    - unfold completed_once. rewrite Hev1. split; [constructor | intros p rm []].
    - split; [rewrite Hev1; intros p [] |].
      intros p rm Hp Hneed.
      destruct (proj2 (read_relations_counts_members_aux input1) p rm Hp) as [_ Hgt]. lia.
    - rewrite Hev1, Hcc. reflexivity. }
  assert (members_stored c1 []) as St1.
  { split; [rewrite Hmb; split; [reflexivity | constructor]|]. intros ? ? ? _ []. }
  pose proof (pass2_fold_stored input1 c1 input2 [] c1 P1 Hsorted
                (pass2_ok_init input1 c1 P1) NP1 St1 Hnd2 Hpos2) as [_ St].
  cbn [app] in St.
  assert (forall t' mm', In mm' (member_meta c2 t') -> key o = (t', member_id mm') ->
            stored_for c2 mm' o) as Hall.
  { intros t' mm' Hmm' Hk'. unfold c2, apply_pass2, flush in Hmm' |- *.
    assert (interested_in (obj_type o) = true) as Hi.
    { unfold key in Hk. injection Hk as -> _. exact Hint. }
    assert (In mm' (member_meta (fold_left handler_pass2 input2 c1) t')) as Hmm0
      by (destruct t'; exact Hmm').
    destruct (St t' mm' o Hmm0 Ho Hi Hk') as (off & stored & H1 & H2 & H3).
    exists off, stored. auto. }
  split; [apply (Hall t mm Hmm Hk)|].
  assert (non_decreasing (member_meta c2 t)) as Hs2.
  { destruct (pass2_keeps_the_index_aux c1 input2) as (He & _).
    apply (non_decreasing_ids (member_meta c1 t)); [|apply Hsorted].
    symmetry. apply (evolves_ids _ _ t He). }
  assert (obj_id o = member_id mm) as Hid by (unfold key in Hk; injection Hk as _ H; exact H).
  destruct (range_nonempty (member_meta c2 t) (obj_id o) Hs2) as [first [Hf Hfid]];
    [exists mm; split; [exact Hmm | symmetry; exact Hid]|].
  destruct (Hall t first (nth_error_In _ _ Hf)) as (off & stored & H1 & H2 & H3).
  - rewrite Hk, Hfid, Hid. reflexivity.
  - exists off, stored. split; [|split; assumption].
    unfold get_offset, find_member_meta, equal_range. cbn [fst]. rewrite Hf. exact H1.
Qed.

End MembersStay.

(** ** Which objects are reported as not in any relation *)

Lemma member_found_events_from_loop t i mm rm0 c :
  Forall (fun e => from_loop e = true) (member_found_events t i mm rm0 c).
Proof.
  unfold member_found_events. destruct (has_all_members (got_one_member rm0)); [|constructor].
  constructor; [reflexivity|].
  destruct (10000 <? m_count_complete c + 1)%Z; repeat constructor.
Qed.

Lemma add_loop_events_from_loop n t : forall i c,
  exists new, events (add_loop n t i c) = events c ++ new /\
              Forall (fun e => from_loop e = true) new.
Proof.
  induction n as [|n IH]; intros i c.
  - exists []. rewrite app_nil_r. split; [reflexivity | constructor].
  - rewrite add_loop_S.
    destruct (nth_error (member_meta c t) i) as [mm|];
      [|exists []; rewrite app_nil_r; split; [reflexivity | constructor]].
    destruct (removed mm);
      [exists []; rewrite app_nil_r; split; [reflexivity | constructor]|].
    destruct (nth_error (m_relations c) (relation_pos mm)) as [rm0|]; [|apply IH].
    destruct (IH (S i) (member_found t i mm rm0 c)) as (new & E & F).
    destruct (member_found_spec t i mm rm0 c) as (_ & _ & _ & S5).
    exists (member_found_events t i mm rm0 c ++ new). rewrite E, S5, app_assoc.
    split; [reflexivity|]. apply Forall_app.
    split; [apply member_found_events_from_loop | exact F].
Qed.

Lemma find_and_add_object_events_from_loop c o :
  exists new, events (snd (find_and_add_object c o)) = events c ++ new /\
              Forall (fun e => from_loop e = true) new.
Proof.
  destruct (Nat.eq_dec (count_not_removed (member_meta c (obj_type o))
              (find_member_meta c (obj_type o) (obj_id o))) 0) as [E | E].
  - rewrite (find_and_add_object_not_found c o E). exists []. rewrite app_nil_r.
    split; [reflexivity | constructor].
  - rewrite (find_and_add_object_found c o E). cbn [snd].
    set (cB := set_member_meta _ _ _).
    destruct (add_loop_events_from_loop
                (snd (find_member_meta c (obj_type o) (obj_id o))
                 - fst (find_member_meta c (obj_type o) (obj_id o)))
                (obj_type o) (fst (find_member_meta c (obj_type o) (obj_id o))) cB)
      as (new & Ev & F).
    exists new. rewrite Ev. split; [|exact F].
    unfold cB, events. destruct (obj_type o); reflexivity.
Qed.

Lemma from_loop_not_in l e :
  Forall (fun e' => from_loop e' = true) l -> from_loop e = false -> ~ In e l.
Proof.
  intros F He Hin. rewrite Forall_forall in F. rewrite (F e Hin) in He. discriminate.
Qed.

Lemma count_not_removed_record v id :
  non_decreasing v -> count_not_removed v (equal_range v id) <> 0 ->
  exists mm, In mm v /\ member_id mm = id.
Proof.
  intros Hs Hc. unfold count_not_removed in Hc.
  destruct (filter _ _) as [|a rest] eqn:E; [contradiction|].
  assert (In a (filter (fun mm => negb (removed mm)) (range_elems v (equal_range v id)))) as Hin
    by (rewrite E; left; reflexivity).
  apply filter_In in Hin. destruct Hin as [Hin _].
  apply In_nth_error in Hin. destruct Hin as [j Hj].
  assert (j < snd (equal_range v id) - fst (equal_range v id)) as Hlt.
  { assert (j < List.length (range_elems v (equal_range v id))) as H
      by (apply nth_error_Some; rewrite Hj; discriminate).
    unfold range_elems in H. rewrite length_firstn in H. lia. }
  apply nth_error_range_elems in Hj. exists a. split; [apply (nth_error_In _ _ Hj)|].
  apply (equal_range_spec v id _ a Hs Hj). unfold in_range. lia.
Qed.

Section NotInAnyRelation.

Context {hooks : Hooks}.

Lemma handler_pass2_callbacks done c1 c done2 o :
  pass1_ok done c1 ->
  (forall t, non_decreasing (member_meta c1 t)) ->
  pass2_ok c1 c (arrivals done2) ->
  callbacks_ok c1 c done2 ->
  ~ In (key o) (map key done2) ->
  callbacks_ok c1 (handler_pass2 c o) (done2 ++ [o]).
Proof.
  intros P1 Hsorted1 P2 [Hcb Hfl] Hnew.
  assert (evolves c1 c) as Hev by (destruct P2 as ((_ & He & _) & _); exact He).
  assert (forall t, non_decreasing (member_meta c t)) as Hsorted.
  { intros t. apply (non_decreasing_ids (member_meta c1 t)); [|apply Hsorted1].
    symmetry. apply (evolves_ids _ _ t Hev). }
  assert (~ In o done2) as Hfresh by (intros H; apply Hnew; apply in_map; exact H).
  unfold handler_pass2. destruct (interested_in (obj_type o)) eqn:Hint.
  2:{ split; [|exact Hfl]. intros o'. rewrite (Hcb o'). split.
      - intros (H1 & H2 & H3). split; [apply in_or_app; left; exact H1 | tauto].
      - intros (H1 & H2 & H3). apply in_app_or in H1. destruct H1 as [H1 | [<- | []]];
          [tauto | rewrite Hint in H2; discriminate]. }
  destruct (find_and_add_object_events_from_loop c o) as (new & Ev & F).
  destruct (Nat.eq_dec (count_not_removed (member_meta c (obj_type o))
              (find_member_meta c (obj_type o) (obj_id o))) 0) as [E | E].
  - rewrite (find_and_add_object_not_found c o E).
    assert (unwanted c1 o) as Hun.
    { intros mm1 Hmm1 Hid.
      apply In_nth_error in Hmm1. destruct Hmm1 as [j Hj1].
      destruct (evolves_nth_error c1 c _ j mm1 Hev Hj1) as [mm [Hj (Hid' & _)]].
      assert (removed mm = true) as Hrem.
      { apply (count_not_removed_zero _ _ j mm E); [|exact Hj].
        apply (equal_range_spec _ _ j mm (Hsorted _) Hj). congruence. }
      destruct P2 as (_ & Harr & _).
      specialize (Harr _ mm (nth_error_In _ _ Hj) Hrem).
      apply arrivedb_true in Harr. apply arrivals_subset in Harr.
      apply Hnew. unfold key at 1. replace (obj_id o) with (member_id mm) by congruence.
      exact Harr. }
    split.
    + intros o'. unfold events. cbn [log_event m_log rev]. fold (events c).
      rewrite in_app_iff, (Hcb o'), in_app_iff. cbn [In]. split.
      * intros [(H1 & H2 & H3) | [H | []]]; [tauto|]. injection H as <-. tauto.
      * intros ([H1 | [<- | []]] & H2 & H3); [left; tauto | right; left; reflexivity].
    + unfold events. cbn [log_event m_log rev]. fold (events c).
      rewrite in_app_iff. intros [H | [H | []]]; [contradiction | discriminate H].
  - pose proof (find_and_add_object_found c o E) as Hfound. cbv zeta in Hfound.
    rewrite Hfound in Ev |- *. cbn [snd] in Ev.
    assert (~ unwanted c1 o) as Hwanted.
    { intros Hun.
      destruct (count_not_removed_record _ _ (Hsorted (obj_type o)) E) as [mm [Hmm Hid]].
      destruct (evolves_In_back c1 c _ mm Hev Hmm) as [mm1 [Hmm1 (Hid1 & _)]].
      apply (Hun mm1 Hmm1). congruence. }
    split.
    + intros o'. rewrite Ev, in_app_iff, (Hcb o'), in_app_iff. cbn [In]. split.
      * intros [(H1 & H2 & H3) | H]; [tauto|].
        exfalso. revert H. apply from_loop_not_in; [exact F | reflexivity].
      * intros ([H1 | [<- | []]] & H2 & H3); [left; tauto | contradiction].
    + rewrite Ev, in_app_iff. intros [H | H]; [contradiction|].
      revert H. apply from_loop_not_in; [exact F | reflexivity].
Qed.

Lemma pass2_fold_callbacks done c1 input : forall done2 c,
  pass1_ok done c1 ->
  (forall t, non_decreasing (member_meta c1 t)) ->
  pass2_ok c1 c (arrivals done2) ->
  callbacks_ok c1 c done2 ->
  NoDup (map key (done2 ++ input)) ->
  callbacks_ok c1 (fold_left handler_pass2 input c) (done2 ++ input).
Proof.
  induction input as [|o input IH]; intros done2 c P1 Hsorted P2 Cb Hnd.
  - rewrite app_nil_r. exact Cb.
  - cbn [fold_left].
    replace (done2 ++ o :: input) with ((done2 ++ [o]) ++ input) in *
      by (rewrite <- app_assoc; reflexivity).
    assert (~ In (key o) (map key done2)) as Hnew.
    { rewrite !map_app in Hnd. apply NoDup_app_remove_r in Hnd.
      simpl in Hnd. apply NoDup_remove_2 in Hnd. rewrite app_nil_r in Hnd. exact Hnd. }
    apply IH; [exact P1 | exact Hsorted | | | exact Hnd].
    + apply (handler_pass2_ok done); assumption.
    + apply (handler_pass2_callbacks done); assumption.
Qed.

(** X18: for inputs in which no two objects have the same kind and id
    (and every object of pass 1 takes up room): [*_not_in_any_relation]
    is called for exactly those objects of pass 2 that are of a kind the
    collector is interested in and that no kept member of a kept
    relation refers to; and [flush] is called once, after everything
    else. *)
Theorem not_in_any_relation_iff_unwanted (input1 input2 : list OSMObject) (o : OSMObject) :
  let c1 := read_relations Collector_new input1 in
  let c2 := apply_pass2 c1 input2 in
  Forall (fun x => 0 < obj_padded_size x) input1 ->
  NoDup (map key input1) ->
  NoDup (map key input2) ->
  (In (ev_not_in_any_relation o) (events c2) <->
   In o input2 /\ interested_in (obj_type o) = true /\
   forall mm, In mm (member_meta c1 (obj_type o)) -> member_id mm <> obj_id o) /\
  (exists evs, events c2 = evs ++ [ev_flush] /\ ~ In ev_flush evs).
Proof.
  intros c1 c2 Hpos Hnd1 Hnd2.
  destruct (read_relations_ok input1 Hnd1 Hpos) as [P1 Hsorted]. fold c1 in P1, Hsorted.
  assert (events c1 = []) as Hev1
    by (unfold events, c1; rewrite read_relations_log; reflexivity).
  assert (callbacks_ok c1 c1 []) as Cb1.
  { split; [|rewrite Hev1; intros []]. intros o'. rewrite Hev1. split; [intros [] | intros [[] _]]. }
  destruct (pass2_fold_callbacks input1 c1 input2 [] c1 P1 Hsorted
              (pass2_ok_init input1 c1 P1) Cb1 Hnd2) as [Hcb Hfl].
  cbn [app] in Hcb.
  assert (events c2 = events (fold_left handler_pass2 input2 c1) ++ [ev_flush]) as E2
    by reflexivity.
  split.
  - rewrite E2, in_app_iff, (Hcb o). cbn [In]. unfold unwanted. split.
    + intros [H | [H | []]]; [exact H | discriminate H].
    + intros H. left. exact H.
  - exists (events (fold_left handler_pass2 input2 c1)). split; [exact E2 | exact Hfl].
Qed.

End NotInAnyRelation.

(** ** The records of a completed relation are removed *)

Lemma count_id_app u v x p : count_id (u ++ v) x p = count_id u x p + count_id v x p.
Proof. unfold count_id. rewrite filter_app, length_app. reflexivity. Qed.

Lemma count_id_other_pos v x p :
  Forall (fun mm => relation_pos mm <> p) v -> count_id v x p = 0.
Proof.
  unfold count_id. induction 1 as [|a v Ha _ IH]; [reflexivity|].
  cbn [filter]. apply Nat.eqb_neq in Ha. rewrite Ha. exact IH.
Qed.

Lemma count_id_perm u v x p : Permutation u v -> count_id u x p = count_id v x p.
Proof.
  unfold count_id. intros H. induction H; simpl.
  - reflexivity.
  - destruct (_ && _); simpl; rewrite IHPermutation; reflexivity.
  - destruct ((relation_pos y =? p) && _), ((relation_pos x0 =? p) && _); reflexivity.
  - rewrite IHPermutation1. exact IHPermutation2.
Qed.

Lemma count_id_Forall2 u v x p :
  Forall2 (fun a b => member_id b = member_id a /\ relation_pos b = relation_pos a) u v ->
  count_id v x p = count_id u x p.
Proof.
  unfold count_id. induction 1 as [|a b u v [H1 H2] _ IH]; [reflexivity|].
  cbn [filter]. rewrite H1, H2. destruct (_ && _); cbn [List.length]; rewrite IH; reflexivity.
Qed.

Lemma live_count_le_count_id v x p : live_count v x p <= count_id v x p.
Proof.
  unfold live_count, count_id. induction v as [|a v IH]; [apply Nat.le_refl|].
  cbn [filter]. destruct ((relation_pos a =? p) && (member_id a =? x)%Z);
    cbn [andb]; [|exact IH].
  destruct (negb (removed a)); cbn [List.length]; lia.
Qed.

Lemma live_count_zero v x p mm :
  live_count v x p = 0 -> In mm v -> relation_pos mm = p -> member_id mm = x ->
  removed mm = true.
Proof.
  unfold live_count. intros H Hin Hp Hx.
  destruct (removed mm) eqn:E; [reflexivity|]. exfalso.
  assert (In mm (filter (fun mm => (relation_pos mm =? p) && (member_id mm =? x)%Z
                                   && negb (removed mm)) v)) as Hf.
  { apply filter_In. split; [exact Hin|].
    rewrite Hp, Hx, Nat.eqb_refl, Z.eqb_refl, E. reflexivity. }
  destruct (filter _ v); [contradiction | discriminate].
Qed.

Lemma new_records_count t pos ms x : forall flags n,
  x <> 0%Z ->
  count_id (new_records t pos n ms flags) x pos
    <= member_count (marked_members ms flags) t x.
Proof.
  induction ms as [|m ms IH]; intros flags n Hx; [destruct flags; apply Nat.le_refl|].
  destruct flags as [|k flags]; [apply Nat.le_0_l|].
  cbn [new_records marked_members]. rewrite count_id_app.
  specialize (IH flags (S n) Hx). unfold member_count in *. cbn [filter].
  destruct k; cbn [andb].
  - destruct (item_type_eqb (member_type m) t); cbn [andb].
    + unfold count_id at 1. cbn [filter MemberMeta_new relation_pos member_id].
      rewrite Nat.eqb_refl. cbn [andb].
      destruct (member_ref m =? x)%Z; cbn [List.length]; lia.
    + cbn. lia.
  - cbn [zero_ref member_type member_ref].
    replace (0 =? x)%Z with false by (symmetry; apply Z.eqb_neq; lia).
    rewrite andb_false_r. cbn. exact IH.
Qed.

Lemma first_match_none (A : Type) (p : A -> bool) (v : list A) :
  first_match p v = None -> forall a, In a v -> p a = false.
Proof.
  induction v as [|x v IH]; intros H a Hin; [contradiction|].
  simpl in H. destruct (p x) eqn:E; [discriminate|].
  destruct (first_match p v); [discriminate|].
  destruct Hin as [<- | Hin]; [exact E | apply IH; [reflexivity | exact Hin]].
Qed.

Lemma filter_update_nth_less (A : Type) (f : A -> bool) (g : A -> A) (v : list A) : forall i a,
  nth_error v i = Some a -> f a = true -> f (g a) = false ->
  S (List.length (filter f (update_nth v i g))) = List.length (filter f v).
Proof.
  induction v as [|x v IH]; intros i a Hi Ha Hg; [destruct i; discriminate|].
  destruct i as [|i]; cbn in Hi |- *.
  - injection Hi as ->. rewrite Ha, Hg. reflexivity.
  - destruct (f x); cbn [List.length]; rewrite <- (IH i a Hi Ha Hg); reflexivity.
Qed.

Lemma filter_update_nth_same (A : Type) (f : A -> bool) (g : A -> A) (v : list A) : forall i,
  (forall a, nth_error v i = Some a -> f (g a) = f a) ->
  List.length (filter f (update_nth v i g)) = List.length (filter f v).
Proof.
  induction v as [|x v IH]; intros i H; [destruct i; reflexivity|].
  destruct i as [|i]; cbn in H |- *.
  - rewrite (H x eq_refl). destruct (f x); reflexivity.
  - destruct (f x); cbn [List.length]; rewrite (IH i H); reflexivity.
Qed.

Section PassOneCover.

Context {hooks : Hooks}.

Lemma add_relation_cover c rel :
  buffer_wf (m_relations_buffer c) -> records_counted c -> members_cover c ->
  members_cover (add_relation c rel).
Proof.
  intros [Hn Hpos] [Hval _] Hcov.
  assert (committed (m_relations_buffer c) = bytes (b_items (m_relations_buffer c))) as Hoff
    by (apply committed_wf; split; assumption).
  unfold add_relation. rewrite Hoff.
  set (offset := bytes (b_items (m_relations_buffer c))).
  set (c0 := set_relations_buffer c (add_item (m_relations_buffer c) rel)).
  assert (buffer_get (m_relations_buffer c0) offset = Some rel) as Hget
    by (unfold c0, buffer_get; cbn; apply get_at_app_end; exact Hpos).
  rewrite Hget.
  pose proof (add_members_exact (obj_members rel) 0 c0 (RelationMeta_at offset)
                (b_items (m_relations_buffer c)) rel [] Hpos eq_refl eq_refl eq_refl) as E.
  cbv zeta in E. fold offset in E. cbn [app] in E.
  set (flags := kept_flags (RelationMeta_at offset) (obj_members rel)) in *.
  set (copy := set_members rel (marked_members (obj_members rel) flags)) in *.
  destruct (add_members (obj_members rel) 0 offset (c0, RelationMeta_at offset)) as [c1 rm1].
  cbn [fst snd] in E. destruct E as (E1 & E2 & _ & E4 & _ & _ & E7 & E8).
  change (m_relations c0) with (m_relations c) in *.
  change (b_ncommitted (m_relations_buffer c0)) with (b_ncommitted (m_relations_buffer c)) in E2.
  assert (forall t, member_meta c0 t = member_meta c t) as Hv0 by (intros []; reflexivity).
  unfold has_all_members. destruct (need_members rm1 =? 0)%Z eqn:Z0.
  - assert (count_kept flags = 0) as Hz.
    { apply Z.eqb_eq in Z0. rewrite E8 in Z0. cbn in Z0. lia. }
    assert (forall t, member_meta c1 t = member_meta c t) as Hv.
    { intros t. rewrite E7, Hv0.
      assert (forall ms fl n, count_kept fl = 0 ->
                new_records t (List.length (m_relations c)) n ms fl = []) as Hnone.
      { induction ms as [|m ms IHms]; intros fl n Hfl; [reflexivity|].
        destruct fl as [|k fl]; [reflexivity|]. cbn [new_records].
        destruct k; [discriminate Hfl|]. cbn [andb app]. apply IHms. exact Hfl. }
      rewrite (Hnone _ _ _ Hz), app_nil_r. reflexivity. }
    set (cR := set_relations_buffer c1 _).
    assert (b_items (m_relations_buffer cR) = b_items (m_relations_buffer c)) as HbR.
    { unfold cR, rollback. cbn [set_relations_buffer m_relations_buffer b_items].
      rewrite E1, E2, Hn, firstn_app, firstn_all, Nat.sub_diag.
      cbn [firstn]. apply app_nil_r. }
    intros p rm Hp. assert (nth_error (m_relations c) p = Some rm) as Hp0
      by (unfold cR in Hp; cbn in Hp; rewrite E4 in Hp; exact Hp).
    destruct (Hcov p rm Hp0) as (r & Hr & Hle). exists r. split.
    + unfold get_relation, buffer_get. rewrite HbR. exact Hr.
    + intros t x Hx. replace (member_meta cR t) with (member_meta c t)
        by (rewrite <- Hv; destruct t; reflexivity).
      apply Hle. exact Hx.
  - set (cR := set_relations _ _).
    assert (b_items (m_relations_buffer cR) = b_items (m_relations_buffer c) ++ [copy]) as HbR
      by (unfold cR; cbn; exact E1).
    assert (m_relations cR = m_relations c ++ [rm1]) as HrR
      by (unfold cR; cbn; rewrite E4; reflexivity).
    assert (forall t, member_meta cR t =
              member_meta c t
              ++ new_records t (List.length (m_relations c)) 0 (obj_members rel) flags) as HvR
      by (intros t; rewrite <- Hv0, <- E7; destruct t; reflexivity).
    assert (forall t mm, In mm (new_records t (List.length (m_relations c)) 0
                                  (obj_members rel) flags) ->
              relation_pos mm = List.length (m_relations c)) as Hnewpos.
    { intros t mm Hin. destruct (new_records_In _ _ _ _ _ _ Hin) as (j & m & _ & _ & _ & ->).
      reflexivity. }
    intros p rm Hp. rewrite HrR in Hp.
    destruct (Nat.lt_ge_cases p (List.length (m_relations c))) as [Hlt | Hge].
    + rewrite nth_error_app1 in Hp by exact Hlt.
      destruct (Hcov p rm Hp) as (r & Hr & Hle). exists r. split.
      * unfold get_relation, buffer_get. rewrite HbR. apply get_at_app_some. exact Hr.
      * intros t x Hx. rewrite HvR, count_id_app.
        rewrite (count_id_other_pos (new_records _ _ _ _ _)).
        -- rewrite Nat.add_0_r. apply Hle. exact Hx.
        -- apply Forall_forall. intros mm Hin. rewrite (Hnewpos t mm Hin). lia.
    + rewrite nth_error_app2 in Hp by exact Hge.
      destruct (p - List.length (m_relations c)) as [|d] eqn:Ed; [|destruct d; discriminate].
      injection Hp as <-. assert (p = List.length (m_relations c)) as -> by lia.
      exists copy. split.
      * rewrite E8. cbn [relation_offset RelationMeta_at].
        unfold get_relation, buffer_get. rewrite HbR. apply get_at_app_end. exact Hpos.
      * intros t x Hx. rewrite HvR, count_id_app.
        rewrite (count_id_other_pos (member_meta c t)).
        -- cbn [Nat.add]. unfold copy. cbn [set_members obj_members].
           apply new_records_count. exact Hx.
        -- eapply Forall_impl; [|apply Hval]. cbv beta. intros a [_ Ha]. lia.
Qed.

Lemma add_relation_wf c rel :
  0 < obj_padded_size rel -> buffer_wf (m_relations_buffer c) ->
  buffer_wf (m_relations_buffer (add_relation c rel)).
Proof.
  intros Hsize Hwf.
  assert (index_ok c -> index_ok (add_relation c rel)) as H
    by (apply add_relation_index_ok; exact Hsize).
  (* the arena part of [index_ok] does not depend on the records *)
  pose proof (add_relation_index_ok
                (mkCollector (m_relations_buffer c) (m_members_buffer c) (m_relations c)
                             [] [] [] (m_count_complete c) (m_log c)) rel Hsize) as H0.
  clear H.
  assert (m_relations_buffer
            (add_relation (mkCollector (m_relations_buffer c) (m_members_buffer c)
                             (m_relations c) [] [] [] (m_count_complete c) (m_log c)) rel)
          = m_relations_buffer (add_relation c rel)) as Hsame.
  { unfold add_relation. cbn [m_relations_buffer set_relations_buffer].
    set (ms := match buffer_get _ _ with Some r => obj_members r | None => [] end).
    set (off := committed (m_relations_buffer c)).
    assert (forall ms n ca cb rma,
              m_relations_buffer ca = m_relations_buffer cb ->
              m_relations_buffer (fst (add_members ms n off (ca, rma)))
                = m_relations_buffer (fst (add_members ms n off (cb, rma))) /\
              snd (add_members ms n off (ca, rma)) = snd (add_members ms n off (cb, rma)))
      as Hgen.
    { clear. induction ms as [|m ms IH]; intros n ca cb rma Hb; [split; [exact Hb | reflexivity]|].
      cbn [add_members]. destruct (keep_member rma m).
      - apply IH. destruct (member_type m); exact Hb.
      - apply IH. cbn. rewrite Hb. reflexivity. }
    destruct (Hgen ms 0
                (set_relations_buffer
                   (mkCollector (m_relations_buffer c) (m_members_buffer c) (m_relations c)
                      [] [] [] (m_count_complete c) (m_log c))
                   (add_item (m_relations_buffer c) rel))
                (set_relations_buffer c (add_item (m_relations_buffer c) rel))
                (RelationMeta_at off) eq_refl) as [G1 G2].
    destruct (add_members ms 0 off (set_relations_buffer
                (mkCollector (m_relations_buffer c) (m_members_buffer c) (m_relations c)
                   [] [] [] (m_count_complete c) (m_log c)) _, _)) as [ca rma].
    destruct (add_members ms 0 off (set_relations_buffer c _, _)) as [cb rmb].
    cbn [fst snd] in G1, G2. subst rmb.
    destruct (has_all_members rma); cbn; rewrite G1; reflexivity. }
  rewrite <- Hsame. apply H0. split; [exact Hwf|]. intros []; constructor.
Qed.

Lemma pass1_cover input : forall c,
  Forall (fun o => 0 < obj_padded_size o) input ->
  buffer_wf (m_relations_buffer c) -> records_counted c -> members_cover c ->
  buffer_wf (m_relations_buffer (fold_left handler_pass1 input c)) /\
  members_cover (fold_left handler_pass1 input c).
Proof.
  induction input as [|o input IH]; intros c Hpos Hwf Hrc Hcov; [split; assumption|].
  cbn [fold_left]. inversion Hpos as [|? ? Ho Hrest]; subst.
  unfold handler_pass1 at 2 4. destruct (obj_type o); try (apply IH; assumption).
  destruct (keep_relation o); [|apply IH; assumption].
  apply IH; [exact Hrest | apply add_relation_wf; assumption
            | apply add_relation_counted; exact Hrc
            | apply add_relation_cover; assumption].
Qed.

Lemma read_relations_cover input :
  Forall (fun o => 0 < obj_padded_size o) input ->
  members_cover (read_relations Collector_new input).
Proof.
  intros Hpos.
  destruct (pass1_cover input Collector_new Hpos) as [_ Hcov].
  - split; [reflexivity | constructor].
  - split; [intros []; constructor | intros p rm Hp; destruct p; discriminate].
  - intros p rm Hp. destruct p; discriminate.
  - intros p rm Hp. unfold read_relations in Hp. rewrite sort_member_meta_relations in Hp.
    destruct (Hcov p rm Hp) as (r & Hr & Hle). exists r. split; [exact Hr|].
    intros t x Hx. unfold read_relations. rewrite sort_member_meta_vectors.
    rewrite (count_id_perm _ _ x p (std_sort_perm _)). apply Hle. exact Hx.
Qed.

End PassOneCover.

Lemma clear_member_live c r p m :
  (forall t, non_decreasing (member_meta c t)) ->
  leads_to c r p ->
  (forall t x, live_count (member_meta (clear_member c r m) t) x p
               <= live_count (member_meta c t) x p) /\
  (member_ref m <> 0%Z ->
   live_count (member_meta (clear_member c r m) (member_type m)) (member_ref m) p
     <= live_count (member_meta c (member_type m)) (member_ref m) p - 1).
Proof.
  intros Hsorted Hlead. unfold clear_member.
  destruct (member_ref m =? 0)%Z eqn:R0.
  { split; [intros; apply Nat.le_refl|]. intros H. apply Z.eqb_eq in R0. contradiction. }
  apply Z.eqb_neq in R0.
  set (t0 := member_type m).
  set (range := find_member_meta c t0 (member_ref m)).
  set (c1 := if count_not_removed (member_meta c t0) range =? 1 then _ else c).
  assert (forall t, member_meta c1 t = member_meta c t) as Hv1.
  { intros t. unfold c1. destruct (count_not_removed (member_meta c t0) range =? 1);
      [|reflexivity].
    destruct (nth_error (member_meta c t0) (fst range)) as [first|]; [|reflexivity].
    destruct (buffer_offset first); [apply member_meta_set_members_buffer | reflexivity]. }
  assert (forall mm, get_relation_of_member c1 mm = get_relation_of_member c mm) as Hg1.
  { intros mm. apply get_relation_of_member_frame; unfold c1;
      destruct (count_not_removed (member_meta c t0) range =? 1); try reflexivity;
      destruct (nth_error (member_meta c t0) (fst range)) as [first|]; try reflexivity;
      destruct (buffer_offset first); reflexivity. }
  set (pr := fun mm => negb (removed mm) && same_id r (get_relation_of_member c1 mm)).
  destruct (first_match pr (range_elems (member_meta c1 t0) range)) as [j|] eqn:FM.
  - destruct (first_match_some _ _ _ _ FM) as [a [Ha Hpr]].
    unfold pr in Hpr. apply andb_prop in Hpr. destruct Hpr as [Hlive Hsame].
    apply negb_true_iff in Hlive. rewrite Hg1 in Hsame.
    assert (j < snd range - fst range) as Hj.
    { assert (j < List.length (range_elems (member_meta c1 t0) range)) as H
        by (apply nth_error_Some; rewrite Ha; discriminate).
      unfold range_elems in H. rewrite length_firstn in H. lia. }
    apply nth_error_range_elems in Ha. rewrite Hv1 in Ha.
    assert (member_id a = member_ref m) as Hid.
    { apply (equal_range_spec _ _ _ a (Hsorted t0) Ha). unfold in_range.
      fold (find_member_meta c t0 (member_ref m)). fold range. lia. }
    assert (relation_pos a = p) as Hpos.
    { apply (Hlead t0 a (nth_error_In _ _ Ha) Hlive); [rewrite Hid; exact R0 | exact Hsame]. }
    assert (forall x,
              (member_id a =? x)%Z = true ->
              S (live_count (update_nth (member_meta c t0) (fst range + j) remove) x p)
                = live_count (member_meta c t0) x p) as Hless.
    { intros x X. unfold live_count. apply (filter_update_nth_less _ _ _ _ _ a Ha).
      - rewrite Hpos, Nat.eqb_refl, X, Hlive. reflexivity.
      - cbn [remove relation_pos member_id removed]. rewrite andb_false_r. reflexivity. }
    assert (forall x,
              (member_id a =? x)%Z = false ->
              live_count (update_nth (member_meta c t0) (fst range + j) remove) x p
                = live_count (member_meta c t0) x p) as Hsame'.
    { intros x X. unfold live_count. apply filter_update_nth_same.
      intros a' Ha'. rewrite Ha in Ha'. injection Ha' as <-.
      cbn [remove relation_pos member_id removed]. rewrite X, !andb_false_r. reflexivity. }
    split.
    + intros t x. destruct (item_type_eq_dec t0 t) as [<- | Hne].
      * rewrite member_meta_set_same, Hv1.
        destruct (member_id a =? x)%Z eqn:X;
          [rewrite <- (Hless x X); lia | rewrite (Hsame' x X); apply Nat.le_refl].
      * rewrite member_meta_set_other by exact Hne. rewrite Hv1. apply Nat.le_refl.
    + intros _. rewrite member_meta_set_same, Hv1.
      rewrite <- (Hless (member_ref m)); [lia|]. apply Z.eqb_eq. exact Hid.
  - split; [intros t x; rewrite Hv1; apply Nat.le_refl|].
    intros _. rewrite Hv1. fold t0.
    assert (live_count (member_meta c t0) (member_ref m) p = 0) as ->; [|apply Nat.le_0_l].
    unfold live_count.
    destruct (filter _ (member_meta c t0)) as [|a rest] eqn:E; [reflexivity|]. exfalso.
    assert (In a (filter (fun mm => (relation_pos mm =? p) && (member_id mm =? member_ref m)%Z
                                    && negb (removed mm)) (member_meta c t0))) as Hin
      by (rewrite E; left; reflexivity).
    apply filter_In in Hin. destruct Hin as [Hin Hf].
    apply andb_prop in Hf. destruct Hf as [Hf Hlive]. apply andb_prop in Hf.
    destruct Hf as [Hp Hid]. apply Nat.eqb_eq in Hp. apply Z.eqb_eq in Hid.
    apply negb_true_iff in Hlive.
    apply In_nth_error in Hin. destruct Hin as [i Hi].
    assert (in_range range i) as Hr
      by (apply (equal_range_spec _ _ _ a (Hsorted t0) Hi); exact Hid).
    assert (In a (range_elems (member_meta c1 t0) range)) as Hin'.
    { apply (nth_error_In _ (i - fst range)). rewrite Hv1.
      rewrite nth_error_in_range_elems by exact Hr. exact Hi. }
    pose proof (first_match_none _ _ _ FM a Hin') as Hpr. unfold pr in Hpr.
    rewrite Hlive, Hg1 in Hpr. cbn [negb andb] in Hpr.
    rewrite (proj2 (Hlead t0 a (nth_error_In _ _ Hi) Hlive ltac:(rewrite Hid; exact R0)) Hp)
      in Hpr. discriminate.
Qed.

Lemma removal_ids c r u v :
  Forall2 (removal c r) u v -> ids v = ids u.
Proof.
  unfold ids. induction 1 as [|a b u v Hab _ IH]; [reflexivity|].
  cbn [map]. rewrite IH. f_equal. destruct Hab as [-> | [-> _]]; reflexivity.
Qed.

Lemma clear_member_leads c r r' p m :
  leads_to c r p -> leads_to (clear_member c r' m) r p.
Proof.
  intros Hlead t b Hb Hlive Hid.
  destruct (clear_member_frame c r' m) as (F1 & F2 & _ & _ & F5).
  rewrite (get_relation_of_member_frame c _ b b F1 F2 eq_refl).
  apply In_nth_error in Hb. destruct Hb as [i Hi].
  destruct (Forall2_nth_error_back _ _ _ _ _ _ _ (F5 t) Hi) as [a [Ha Hab]].
  destruct Hab as [-> | [-> _]]; [|discriminate Hlive].
  apply (Hlead t a (nth_error_In _ _ Ha) Hlive Hid).
Qed.

Lemma clear_members_live r p ms : forall c,
  (forall t, non_decreasing (member_meta c t)) ->
  leads_to c r p ->
  (forall t x, x <> 0%Z -> live_count (member_meta c t) x p <= member_count ms t x) ->
  forall t x, x <> 0%Z ->
    live_count (member_meta (fold_left (fun c' m => clear_member c' r m) ms c) t) x p = 0.
Proof.
  induction ms as [|m ms IH]; intros c Hsorted Hlead Hle t x Hx.
  - specialize (Hle t x Hx). cbn in Hle |- *. lia.
  - cbn [fold_left]. destruct (clear_member_live c r p m Hsorted Hlead) as [L1 L2].
    apply IH; [| apply clear_member_leads; exact Hlead | | exact Hx].
    + intros t'. destruct (clear_member_frame c r m) as (_ & _ & _ & _ & F5).
      apply (non_decreasing_ids (member_meta c t')); [|apply Hsorted].
      symmetry. apply (removal_ids _ _ _ _ (F5 t')).
    + intros t' x' Hx'. specialize (Hle t' x' Hx'). unfold member_count in Hle.
      cbn [filter] in Hle. unfold member_count.
      destruct (item_type_eqb (member_type m) t' && (member_ref m =? x')%Z) eqn:K.
      * apply andb_prop in K. destruct K as [K1 K2]. apply Z.eqb_eq in K2.
        assert (member_type m = t') as <-
          by (destruct (member_type m), t'; try discriminate; reflexivity).
        subst x'. specialize (L2 Hx'). cbn [List.length] in Hle. lia.
      * specialize (L1 t' x'). lia.
Qed.

Lemma completed_removed_step c c' extra :
  evolves c c' ->
  completed_positions (events c') = completed_positions (events c) ++ extra ->
  completed_removed c ->
  (forall p t mm, In p extra -> In mm (member_meta c' t) -> relation_pos mm = p ->
                  member_id mm <> 0%Z -> removed mm = true) ->
  completed_removed c'.
Proof.
  intros Hev He Hold Hnew p t b Hp Hb Hpos Hid. rewrite He in Hp.
  apply in_app_or in Hp. destruct Hp as [Hp | Hp]; [|apply (Hnew p t b Hp Hb Hpos Hid)].
  destruct (evolves_In_back c c' t b Hev Hb) as [a [Ha (E1 & E2 & _ & _ & E5)]].
  apply E5. apply (Hold p t a Hp Ha); congruence.
Qed.

Section CompletedRemoved.

Variable done : list OSMObject.
Variable c1 : Collector.
Hypothesis P1 : pass1_ok done c1.
Hypothesis Hcov : members_cover c1.
Hypothesis Hsorted1 : forall t, non_decreasing (member_meta c1 t).

Lemma member_found_collected t i mm rm0 c :
  nth_error (m_relations c) (relation_pos mm) = Some rm0 ->
  collected c1 c -> collected c1 (member_found t i mm rm0 c).
Proof.
  intros Hrm0 (Sb & Sev & Sent & Once & Rem).
  destruct (member_found_spec t i mm rm0 c) as (M1 & (rm' & M2 & M2n & M3) & Mev & Mlog).
  assert (completed_positions (events (member_found t i mm rm0 c))
          = completed_positions (events c)
            ++ completed_positions (member_found_events t i mm rm0 c)) as Hcp
    by (rewrite Mlog; apply completed_positions_app).
  split; [rewrite M1; exact Sb|]. split; [apply (evolves_trans _ _ _ Sev Mev)|].
  split; [|split; [apply member_found_once; assumption|]].
  { intros q rmq Hq. rewrite Hcp, member_found_events_positions. rewrite M2 in Hq.
    rewrite nth_error_update_nth in Hq. destruct (q =? relation_pos mm) eqn:Q.
    - apply Nat.eqb_eq in Q. subst q. rewrite Hrm0 in Hq. cbn in Hq. injection Hq as <-.
      destruct (has_all_members (got_one_member rm0)) eqn:E.
      + left. apply in_or_app. right. left. reflexivity.
      + rewrite app_nil_r. destruct (Sent _ _ Hrm0) as [Hc | (rm1q & H1 & H2)];
          [left; exact Hc|].
        destruct M3 as [-> | M3].
        * exfalso. unfold has_all_members in E. apply Z.eqb_neq in E.
          cbn in E, M2n. lia.
        * right. exists rm1q. split; [exact H1 | congruence].
    - destruct (Sent _ _ Hq) as [Hc | Hx]; [left; apply in_or_app; left; exact Hc | right; exact Hx]. }
  apply (completed_removed_step c _
           (completed_positions (member_found_events t i mm rm0 c)));
    [exact Mev | exact Hcp | exact Rem |].
  rewrite member_found_events_positions.
  destruct (has_all_members (got_one_member rm0)) eqn:E; [|intros ? ? ? []].
  intros p t' b [<- | []] Hb Hposb Hidb. clear Mev Mlog Hcp M1 M2 M2n M3.
  set (p := relation_pos mm) in *.
  assert (need_members rm0 = 1%Z) as Hneed0.
  { unfold has_all_members in E. apply Z.eqb_eq in E. cbn in E. lia. }
  destruct (Sent p rm0 Hrm0) as [Hc | (rm1 & Hrm1 & Hoff)].
  { exfalso. destruct Once as [_ Hle]. specialize (Hle p rm0 Hc Hrm0). lia. }
  destruct (Hcov p rm1 Hrm1) as (r & Hr & Hle).
  assert (forall t, non_decreasing (member_meta c t)) as Hsorted.
  { intros t0. apply (non_decreasing_ids (member_meta c1 t0)); [|apply Hsorted1].
    symmetry. apply (evolves_ids _ _ t0 Sev). }
  revert Hb. unfold member_found. rewrite E. unfold on_complete.
  set (rm := got_one_member rm0).
  set (cA := set_relations c _). set (c3 := log_event cA _).
  set (c4 := clear_member_metas c3 rm). set (c5 := set_relations c4 _).
  intros Hb.
  assert (forall t0, member_meta c3 t0 = member_meta c t0) as Hv3 by (intros []; reflexivity).
  assert (m_relations_buffer c3 = m_relations_buffer c1) as Hb3 by exact Sb.
  assert (m_relations c3 = update_nth (m_relations c) p (fun _ => rm)) as Hr3 by reflexivity.
  assert (get_relation_of_meta c3 rm = Some r) as Hget.
  { unfold get_relation_of_meta, get_relation. rewrite Hb3.
    unfold rm. cbn [got_one_member relation_offset]. rewrite Hoff. exact Hr. }
  assert (leads_to c3 r p) as Hlead.
  { intros t0 a Ha Hlive Hida. rewrite Hv3 in Ha.
    unfold get_relation_of_member. rewrite Hr3, nth_error_update_nth.
    destruct (relation_pos a =? p) eqn:Q.
    - apply Nat.eqb_eq in Q. rewrite Q, Hrm0. cbn [option_map]. rewrite Hget.
      cbn [same_id]. rewrite Z.eqb_refl. tauto.
    - apply Nat.eqb_neq in Q. split; [|intros H; contradiction].
      intros Hsame. exfalso.
      destruct (nth_error (m_relations c) (relation_pos a)) as [rmq|] eqn:Hq;
        [|discriminate Hsame].
      destruct (Sent _ _ Hq) as [Hdone | (rm1q & Hrm1q & Hoffq)].
      { rewrite (Rem _ t0 a Hdone Ha eq_refl Hida) in Hlive. discriminate. }
      destruct (relation_lookup done c1 _ rm1q P1 Hrm1q) as (rq & Hiq & Hgq).
      destruct (relation_lookup done c1 p rm1 P1 Hrm1) as (r' & Hip & Hgp).
      rewrite Hr in Hgp. injection Hgp as <-.
      unfold get_relation_of_meta, get_relation in Hsame. rewrite Hb3, Hoffq in Hsame.
      unfold get_relation in Hgq. rewrite Hgq in Hsame. cbn [same_id] in Hsame.
      apply Z.eqb_eq in Hsame.
      apply Q. symmetry. apply (relation_ids_injective done c1 p _ r rq P1 Hip Hiq Hsame). }
  assert (forall t0 x, x <> 0%Z ->
            live_count (member_meta c3 t0) x p <= member_count (obj_members r) t0 x) as Hcount.
  { intros t0 x Hx. rewrite Hv3.
    apply (Nat.le_trans _ _ _ (live_count_le_count_id _ _ _)).
    rewrite (count_id_Forall2 (member_meta c1 t0) (member_meta c t0)).
    - apply Hle. exact Hx.
    - eapply Forall2_impl; [|apply Sev]. intros a0 b0 (H1 & H2 & _). split; assumption. }
  assert (forall t0 x, x <> 0%Z -> live_count (member_meta c4 t0) x p = 0) as Hzero.
  { intros t0 x Hx. unfold c4, clear_member_metas. rewrite Hget.
    apply clear_members_live; [|exact Hlead | exact Hcount | exact Hx].
    intros t1. rewrite Hv3. apply Hsorted. }
  destruct (possibly_purge_frame c5) as (_ & _ & B3).
  apply In_nth_error in Hb. destruct Hb as [k Hk].
  destruct (Forall2_nth_error_back _ _ _ _ _ _ _ (B3 t') Hk) as [a5 [Ha5 Hrel]].
  rewrite (relocated_removed _ _ Hrel).
  destruct (relocated_evolves _ _ Hrel) as (R1 & R2 & _).
  assert (member_meta c5 t' = member_meta c4 t') as Hv5 by (destruct t'; reflexivity).
  rewrite Hv5 in Ha5.
  apply (live_count_zero (member_meta c4 t') (member_id a5) p a5);
    [apply Hzero; congruence | apply (nth_error_In _ _ Ha5) | congruence | reflexivity].
Qed.

Lemma add_loop_collected n t : forall i c,
  collected c1 c -> collected c1 (add_loop n t i c).
Proof.
  induction n as [|n IH]; intros i c H; [exact H|].
  rewrite add_loop_S. destruct (nth_error (member_meta c t) i) as [mm|]; [|exact H].
  destruct (removed mm); [exact H|].
  destruct (nth_error (m_relations c) (relation_pos mm)) as [rm0|] eqn:E.
  - apply IH. apply member_found_collected; assumption.
  - apply IH. exact H.
Qed.

Lemma find_and_add_object_collected c o :
  collected c1 c -> collected c1 (snd (find_and_add_object c o)).
Proof.
  intros H.
  destruct (Nat.eq_dec (count_not_removed (member_meta c (obj_type o))
              (find_member_meta c (obj_type o) (obj_id o))) 0) as [E | E].
  - rewrite (find_and_add_object_not_found c o E). exact H.
  - rewrite (find_and_add_object_found c o E). cbn [snd]. apply add_loop_collected.
    set (r := find_member_meta c (obj_type o) (obj_id o)).
    set (cB := set_member_meta _ (obj_type o) _).
    assert (evolves c cB) as HevB.
    { intros t'. unfold cB. destruct (item_type_eq_dec (obj_type o) t') as [<- | Hne].
      + rewrite member_meta_set_same. apply Forall2_update_range;
          [apply mm_evolves_refl | intros a; apply set_buffer_offset_evolves].
      + rewrite member_meta_set_other by exact Hne. rewrite member_meta_set_members_buffer.
        apply Forall2_refl_all, mm_evolves_refl. }
    assert (m_relations cB = m_relations c) as HrB
      by (unfold cB; destruct (obj_type o); reflexivity).
    assert (events cB = events c) as HeB
      by (unfold cB, events; destruct (obj_type o); reflexivity).
    destruct H as (Sb & Sev & Sent & Once & Rem).
    split; [unfold cB; destruct (obj_type o); exact Sb|].
    split; [apply (evolves_trans _ _ _ Sev HevB)|].
    split; [rewrite HrB, HeB; exact Sent|].
    split; [revert Once; apply completed_once_same; [exact HrB | rewrite HeB; reflexivity]|].
    apply (completed_removed_step c cB []); [exact HevB | | exact Rem | intros ? ? ? []].
    rewrite HeB, app_nil_r. reflexivity.
Qed.

End CompletedRemoved.

Section CompletedRemovedRun.

Context {hooks : Hooks}.

Lemma handler_pass2_collected done c1 c o :
  pass1_ok done c1 -> members_cover c1 ->
  (forall t, non_decreasing (member_meta c1 t)) ->
  collected c1 c -> collected c1 (handler_pass2 c o).
Proof.
  intros P1 Hcov Hsorted1 H. unfold handler_pass2.
  destruct (interested_in (obj_type o)); [|exact H].
  pose proof (find_and_add_object_collected done c1 P1 Hcov Hsorted1 c o H) as H'.
  destruct (find_and_add_object c o) as [found c']. cbn [snd] in H'.
  destruct found; [exact H'|].
  destruct H' as (Sb & Sev & Sent & Once & Rem).
  assert (completed_positions (events (log_event c' (ev_not_in_any_relation o)))
          = completed_positions (events c')) as He.
  { unfold events. simpl. rewrite completed_positions_app. simpl. apply app_nil_r. }
  split; [exact Sb|].
  split; [intros t; specialize (Sev t); destruct t; exact Sev|].
  split; [intros q rmq Hq; rewrite He; apply (Sent q rmq Hq)|].
  split; [revert Once; apply completed_once_same; [reflexivity | exact He]|].
  intros p t mm Hp Hmm. rewrite He in Hp. apply (Rem p t mm Hp). destruct t; exact Hmm.
Qed.

(** X19: for a pass-1 input in which no two objects have the same kind
    and id and every object takes up room, and for any input of pass 2:
    once [complete_relation] has been called for a relation, every
    record that refers to it is removed (but for records for the ref 0,
    which [clear_member_metas] skips). *)
Theorem completed_relations_release_their_records (input1 input2 : list OSMObject)
        (p : nat) (t : item_type) (mm : MemberMeta) :
  let c1 := read_relations Collector_new input1 in
  let c2 := apply_pass2 c1 input2 in
  Forall (fun x => 0 < obj_padded_size x) input1 ->
  NoDup (map key input1) ->
  In p (completed_positions (events c2)) ->
  In mm (member_meta c2 t) -> relation_pos mm = p -> member_id mm <> 0%Z ->
  removed mm = true.
Proof.
  intros c1 c2 Hpos Hnd1 Hp Hmm Hposmm Hid.
  destruct (read_relations_ok input1 Hnd1 Hpos) as [P1 Hsorted]. fold c1 in P1, Hsorted.
  pose proof (read_relations_cover input1 Hpos) as Hcov. fold c1 in Hcov.
  assert (events c1 = []) as Hev1
    by (unfold events, c1; rewrite read_relations_log; reflexivity).
  assert (collected c1 c1) as H1.
  { split; [reflexivity|]. split; [apply evolves_refl|]. split; [|split].
    - intros q rmq Hq. right. exists rmq. split; [exact Hq | reflexivity].
    - unfold completed_once. rewrite Hev1. split; [constructor | intros q rm []].
    - intros q t0 a Hq. rewrite Hev1 in Hq. destruct Hq. }
  assert (forall input c, collected c1 c -> collected c1 (fold_left handler_pass2 input c))
    as Hfold.
  { induction input as [|o input IH]; intros c H; [exact H|].
    cbn [fold_left]. apply IH. apply (handler_pass2_collected input1); assumption. }
  destruct (Hfold input2 c1 H1) as (_ & _ & _ & _ & Rem).
  assert (completed_positions (events c2)
          = completed_positions (events (fold_left handler_pass2 input2 c1))) as He.
  { unfold c2, apply_pass2, flush, events. simpl. rewrite completed_positions_app. simpl.
    apply app_nil_r. }
  rewrite He in Hp. apply (Rem p t mm Hp); [|exact Hposmm | exact Hid].
  unfold c2, apply_pass2, flush in Hmm. destruct t; exact Hmm.
Qed.

End CompletedRemovedRun.

(** ** Relocation in a run without duplicates (C8) *)





















Section Relocation.

Context {hooks : Hooks}.





End Relocation.

(* ================================================================== *)
(** * Part V: the scenarios                                            *)
(* ================================================================== *)

Section ScenarioS1.

Import Scenarios.
Local Open Scope Z_scope.

(** C1: in scenario S1 the completion callback fires exactly three
    times: for relation 20 when way 10 is added, for relation 21 when
    way 12 is added, for relation 22 when way 14 is added; adding way 15
    returns false and triggers [way_not_in_any_relation]; nothing else
    is called back (the relations of the input are not looked at in
    pass 2, and [flush] ends it). *)
Theorem C1_simple_completion :
  relation_ids S1_pass1 [0; 24; 56]%nat = [Some 20; Some 21; Some 22] /\
  pass2_trace (hooks := ways_only) S1_pass1 S1_ways =
    [ (10, true, [ev_complete_relation way 0 0 (mkRelationMeta 0 0)]);
      (11, true, []);
      (12, true, [ev_complete_relation way 3 1 (mkRelationMeta 24 0)]);
      (13, true, []);
      (14, true, [ev_complete_relation way 5 2 (mkRelationMeta 56 0)]);
      (15, false, [ev_not_in_any_relation (a_way 15 [])]) ] /\
  events (run (hooks := ways_only) S1_input) =
    [ ev_complete_relation way 0 0 (mkRelationMeta 0 0);
      ev_complete_relation way 3 1 (mkRelationMeta 24 0);
      ev_complete_relation way 5 2 (mkRelationMeta 56 0);
      ev_not_in_any_relation (a_way 15 []);
      ev_flush ].
Proof. vm_compute. repeat split. Qed.

End ScenarioS1.

Section ScenarioS1OtherOrder.

Import Scenarios.
Local Open Scope Z_scope.

(** The callbacks of S1 do not depend on the order in which the sort
    leaves the two records for way 10: with the other order relation 20
    is completed by the second record of the range. *)
Lemma S1_other_order :
  pass2_trace (hooks := ways_only) S1_pass1_other_order S1_ways =
    [ (10, true, [ev_complete_relation way 1 0 (mkRelationMeta 0 0)]);
      (11, true, []);
      (12, true, [ev_complete_relation way 3 1 (mkRelationMeta 24 0)]);
      (13, true, []);
      (14, true, [ev_complete_relation way 5 2 (mkRelationMeta 56 0)]);
      (15, false, [ev_not_in_any_relation (a_way 15 [])]) ].
Proof. vm_compute. reflexivity. Qed.

End ScenarioS1OtherOrder.

Section ScenarioDuplicates.

Import Scenarios.
Local Open Scope Z_scope.


(** The same happens when the sort leaves the records for way 10 in the
    other order and the relation in front is the one that was
    completed: relation 20 keeps its [need_members] of 1. *)
Lemma removed_record_stops_loop_other_order :
  map relation_pos (member_meta dup_other_before way) = [1; 0; 0; 1]%nat /\
  map removed (member_meta dup_other_before way) = [true; false; false; true] /\
  find_member_meta dup_other_before way 10 = (0, 2)%nat /\
  option_map need_members (nth_error (m_relations dup_other_before) 0) = Some 1 /\
  fst (find_and_add_object dup_other_before way10_second) = true /\
  option_map need_members (nth_error (m_relations dup_other_after) 0) = Some 1.
Proof. vm_compute. repeat split. Qed.


(** C6, as stated, fails: relation 30 wants ways 10 and 11; way 10
    arrives twice and way 11 never.  The second arrival of way 10
    completes the relation, and it is not among the incomplete
    relations after [flush]. *)
Lemma C6_premature_completion :
  map obj_id (filter (fun o => item_type_eqb (obj_type o) way) premature_input) = [10; 10] /\
  member_meta (read_relations (hooks := ways_only) Collector_new premature_input) way =
    [MemberMeta_new 10 0 0; MemberMeta_new 11 0 1] /\
  completed_positions (events (run (hooks := ways_only) premature_input)) = [0%nat] /\
  get_incomplete_relations (run (hooks := ways_only) premature_input) = [].
Proof. vm_compute. repeat split. Qed.


End ScenarioDuplicates.

Section Witnesses.

Import Scenarios.
Local Open Scope Z_scope.

Lemma C7_add_relation_rolls_back_witness :
  add_relation (hooks := keep_nothing) Collector_new lonely_relation = Collector_new.
Proof.
  refine (proj2 (proj2 (proj2 (proj2
    (C7_add_relation_rolls_back (hooks := keep_nothing) Collector_new lonely_relation _ _))))).
  - split; [reflexivity | constructor].
  - intros rm m _. reflexivity.
Defined.




End Witnesses.

Section WitnessS3.

Import Scenarios.
Local Open Scope Z_scope.

(** S3: the relation with the missing node is reported. *)
Lemma C6_incomplete_relations_witness :
  get_incomplete_relations (run (hooks := nodes_only) S3_input) = [0%nat].
Proof.
  assert (NoDup (map key S3_input)) as Hnd.
  { vm_compute. apply NoDup_cons; [intros [H | []]; discriminate H|].
    apply NoDup_cons; [intros [] | apply NoDup_nil]. }
  assert (Forall (fun o => 0 < obj_padded_size o)%nat S3_input) as Hpos
    by (vm_compute; repeat constructor).
  unfold run.
  rewrite (proj1 (C6_incomplete_relations (hooks := nodes_only) S3_input S3_input
                    Hpos Hnd Hnd)).
  vm_compute. reflexivity.
Defined.

End WitnessS3.

Section MoreStringWitnesses.

Import StringMatcher.
Local Open Scope string_scope.

Lemma test_string_read_up_to_nul_witness :
  call (of_matcher (substring "b")) a_nul_b = call (of_matcher (substring "b")) "a" /\
  call_string (of_matcher (substring "b")) a_nul_b
    = call_string (of_matcher (substring "b")) "a".
Proof.
  apply (test_string_read_up_to_nul (of_matcher (substring "b")) a_nul_b "a").
  reflexivity.
Defined.

Lemma prefix_implies_substring_witness :
  call (of_matcher (substring "ab")) "abc" = true.
Proof. apply (prefix_implies_substring "ab" "abc"). reflexivity. Defined.

Lemma equal_implies_prefix_witness :
  call (of_matcher (prefix "abc")) "abc" = true.
Proof. apply (equal_implies_prefix "abc" "abc"); reflexivity. Defined.

Lemma prefix_with_nul_never_matches_witness :
  call (of_matcher (prefix a_nul_b)) "a" = false.
Proof.
  apply (prefix_with_nul_never_matches a_nul_b "a").
  intros H. vm_compute in H. discriminate H.
Defined.

Lemma print_tells_matchers_apart_witness :
  without_regex (R := unit) (equal "a") = without_regex (equal (string_of_cstr "a")) \/
  (exists l1 l2, without_regex (R := unit) (equal "a") = without_regex (list l1) /\
                 without_regex (R := unit) (equal (string_of_cstr "a"))
                   = without_regex (list l2) /\
                 bracketed l1 = bracketed l2) \/
  (exists r1 r2 : unit, without_regex (equal "a") = regex r1 /\
                        without_regex (equal (string_of_cstr "a")) = regex r2).
Proof.
  apply (print_tells_matchers_apart unit (without_regex (equal "a"))
           (without_regex (equal (string_of_cstr "a"))) "matcher: ").
  reflexivity.
Defined.

End MoreStringWitnesses.

Section MoreWitnesses.

Import Scenarios.
Local Open Scope Z_scope.

Lemma no_relation_forgotten_witness :
  In 0%nat (completed_positions (events (run (hooks := nodes_only) S3_input))) \/
  In 0%nat (get_incomplete_relations (run (hooks := nodes_only) S3_input)).
Proof.
  apply (no_relation_forgotten (hooks := nodes_only) S3_input S3_input 0
           (mkRelationMeta 0 1)).
  vm_compute. reflexivity.
Defined.

Lemma completed_iff_all_arrived_witness :
  In 0%nat (completed_positions
              (events (run (hooks := ways_only) relocation_input))).
Proof.
  assert (NoDup (map key relocation_input)) as Hnd.
  { vm_compute. repeat (apply NoDup_cons; [intros H; vm_compute in H; intuition congruence|]).
    apply NoDup_nil. }
  assert (Forall (fun o => 0 < obj_padded_size o)%nat relocation_input) as Hpos
    by (vm_compute; repeat constructor).
  apply (proj2 (completed_iff_all_arrived (hooks := ways_only)
                  relocation_input relocation_input 0 Hpos Hnd Hnd)).
  vm_compute. split; [repeat constructor | reflexivity].
Defined.

Lemma find_and_add_object_rejects_witness :
  snd (find_and_add_object S1_pass1 (a_way 15 [])) = S1_pass1.
Proof.
  refine (proj2 (find_and_add_object_rejects S1_pass1 (a_way 15 []) _) _).
  - vm_compute. repeat constructor; discriminate.
  - vm_compute. reflexivity.
Defined.

Lemma add_relation_member_by_member_witness :
  get_relation (add_relation (hooks := outer_only) Collector_new relation22) 0
    = Some (a_relation 22 [mkMember way 13 "outer"; mkMember way 0 "inner";
                           mkMember way 0 "inner"]) /\
  m_relations (add_relation (hooks := outer_only) Collector_new relation22)
    = [mkRelationMeta 0 1] /\
  member_meta (add_relation (hooks := outer_only) Collector_new relation22) way
    = [MemberMeta_new 13 0 0].
Proof.
  assert (buffer_wf (m_relations_buffer Collector_new)) as Hwf
    by (split; [reflexivity | constructor]).
  assert (count_kept (kept_flags (hooks := outer_only)
                        (RelationMeta_at (committed (m_relations_buffer Collector_new)))
                        (obj_members relation22)) <> 0%nat) as Hkept
    by (vm_compute; discriminate).
  destruct (proj2 (add_relation_member_by_member (hooks := outer_only)
                     Collector_new relation22 Hwf) Hkept)
    as (_ & _ & H3 & H4 & H5 & _).
  split; [exact H3 | split; [exact H4 | exact (H5 way)]].
Defined.

Lemma records_lead_to_their_members_witness :
  exists rm r m,
    nth_error (m_relations S1_pass1) 2 = Some rm /\
    get_relation S1_pass1 (relation_offset rm) = Some r /\
    get_relation_of_member S1_pass1 (MemberMeta_new 10 2 1) = Some r /\
    nth_error (obj_members r) 1 = Some m /\
    member_type m = way /\ member_ref m = 10.
Proof.
  apply (records_lead_to_their_members (hooks := ways_only) S1_input way
           (MemberMeta_new 10 2 1)).
  - vm_compute. repeat constructor.
  - vm_compute. right. left. reflexivity.
Defined.

Lemma arrived_members_are_stored_witness :
  (exists off stored,
     Some 8%nat = Some off /\
     get_member (run (hooks := ways_only) relocation_input) off = Some stored /\
     flagged (a_way 11 [7]) stored) /\
  (exists off stored,
     get_offset (run (hooks := ways_only) relocation_input) way 11 = Some off /\
     get_member (run (hooks := ways_only) relocation_input) off = Some stored /\
     flagged (a_way 11 [7]) stored).
Proof.
  assert (NoDup (map key relocation_input)) as Hnd.
  { vm_compute. repeat (apply NoDup_cons; [intros H; vm_compute in H; intuition congruence|]).
    apply NoDup_nil. }
  assert (Forall (fun o => 0 < obj_padded_size o)%nat relocation_input) as Hpos
    by (vm_compute; repeat constructor).
  apply (arrived_members_are_stored (hooks := ways_only) relocation_input relocation_input
           way (mkMemberMeta 11 1 0 (Some 8%nat) false) (a_way 11 [7]) Hpos Hpos Hnd Hnd).
  - vm_compute. discriminate.
  - vm_compute. right. left. reflexivity.
  - vm_compute. do 3 right. left. reflexivity.
  - reflexivity.
  - reflexivity.
Defined.

End MoreWitnesses.

Section CallbackWitness.

Import Scenarios.
Local Open Scope Z_scope.

Lemma not_in_any_relation_iff_unwanted_witness :
  In (ev_not_in_any_relation (a_way 11 []))
     (events (run (hooks := ways_only) [a_relation 30 [mkMember way 10 ""]; a_node 100;
                                        a_way 10 []; a_way 11 []])).
Proof.
  assert (NoDup (map key [a_relation 30 [mkMember way 10 ""]; a_node 100;
                          a_way 10 []; a_way 11 []])) as Hnd.
  { vm_compute. repeat (apply NoDup_cons; [intros H; vm_compute in H; intuition congruence|]).
    apply NoDup_nil. }
  assert (Forall (fun o => 0 < obj_padded_size o)%nat
            [a_relation 30 [mkMember way 10 ""]; a_node 100; a_way 10 []; a_way 11 []])
    as Hpos by (vm_compute; repeat constructor).
  apply (proj1 (not_in_any_relation_iff_unwanted (hooks := ways_only) _ _ (a_way 11 [])
                  Hpos Hnd Hnd)).
  split; [do 3 right; left; reflexivity|]. split; [reflexivity|].
  vm_compute. intros mm [<- | []]. discriminate.
Defined.

End CallbackWitness.

Section ReleaseWitness.

Import Scenarios.
Local Open Scope Z_scope.

Lemma completed_relations_release_their_records_witness :
  removed (mkMemberMeta 10 0 0 (Some 0%nat) true) = true.
Proof.
  assert (NoDup (map key relocation_input)) as Hnd.
  { vm_compute. repeat (apply NoDup_cons; [intros H; vm_compute in H; intuition congruence|]).
    apply NoDup_nil. }
  assert (Forall (fun o => 0 < obj_padded_size o)%nat relocation_input) as Hpos
    by (vm_compute; repeat constructor).
  apply (completed_relations_release_their_records (hooks := ways_only)
           relocation_input relocation_input 0 way
           (mkMemberMeta 10 0 0 (Some 0%nat) true) Hpos Hnd).
  - vm_compute. left. reflexivity.
  - vm_compute. left. reflexivity.
  - reflexivity.
  - discriminate.
Defined.

End ReleaseWitness.
